(** * OneBot v11 adapter: message normalisation, policy gate and outbound
      reconciliation, embedded from [src/api.ts] and [index.ts].

    JavaScript strings are sequences of UTF-16 code units, and the regular
    expressions of the adapter (none carries the [u] flag) work on code
    units, so a string is a [list N] here.  Literals are written [js "..."]:
    the UTF-8 bytes of the Rocq literal are decoded to code units. *)

From Stdlib Require Import ZArith NArith List String Ascii Bool Lia DecimalString
  DecimalPos DecimalZ.
From stdpp Require Import base option list gmap.
Import ListNotations.

Local Open Scope Z_scope.

(** ** JavaScript strings *)

Abbreviation jsstring := (list N).

Fixpoint utf16_of_utf8 (bs : list N) : jsstring :=
  match bs with
  | [] => []
  | b0 :: r0 =>
    if (b0 <? 0x80)%N then b0 :: utf16_of_utf8 r0
    else
      match r0 with
      | [] => []
      | b1 :: r1 =>
        if (b0 <? 0xE0)%N then
          N.lor (N.shiftl (N.land b0 0x1F) 6) (N.land b1 0x3F)
            :: utf16_of_utf8 r1
        else
          match r1 with
          | [] => []
          | b2 :: r2 =>
            if (b0 <? 0xF0)%N then
              N.lor (N.shiftl (N.land b0 0x0F) 12)
                (N.lor (N.shiftl (N.land b1 0x3F) 6) (N.land b2 0x3F))
                :: utf16_of_utf8 r2
            else
              match r2 with
              | [] => []
              | b3 :: r3 =>
                let cp :=
                  N.lor (N.shiftl (N.land b0 0x07) 18)
                    (N.lor (N.shiftl (N.land b1 0x3F) 12)
                       (N.lor (N.shiftl (N.land b2 0x3F) 6) (N.land b3 0x3F))) in
                let v := (cp - 0x10000)%N in
                (0xD800 + N.shiftr v 10)%N :: (0xDC00 + N.land v 0x3FF)%N
                  :: utf16_of_utf8 r3
              end
          end
      end
  end.

Definition js (s : string) : jsstring :=
  utf16_of_utf8 (map N_of_ascii (list_ascii_of_string s)).

Definition jseqb (a b : jsstring) : bool := bool_decide (a = b).

(** Truthiness of a string: the empty string is falsy. *)
Definition truthy_str (s : jsstring) : bool :=
  match s with [] => false | _ :: _ => true end.

(** [a || b] on an optional string: an absent or empty [a] gives [b]. *)
Definition or_str (a : option jsstring) (b : jsstring) : jsstring :=
  match a with
  | Some s => if truthy_str s then s else b
  | None => b
  end.

(** [a || b] where [b] may be absent as well. *)
Definition or_opt (a b : option jsstring) : option jsstring :=
  match a with
  | Some s => if truthy_str s then Some s else b
  | None => b
  end.

Definition truthy_opt (a : option jsstring) : bool :=
  match a with Some s => truthy_str s | None => false end.

(** [\s] of a regular expression, which is also what [trim] removes:
    WhiteSpace and LineTerminator code units. *)
Definition isWhiteSpace (c : N) : bool :=
  ((0x09 <=? c) && (c <=? 0x0D) || (c =? 0x20) || (c =? 0xA0) || (c =? 0x1680)
   || (0x2000 <=? c) && (c <=? 0x200A) || (c =? 0x2028) || (c =? 0x2029)
   || (c =? 0x202F) || (c =? 0x205F) || (c =? 0x3000) || (c =? 0xFEFF))%N.

(** [\d] without the [u] flag: ASCII digits only. *)
Definition isDigit (c : N) : bool := ((0x30 <=? c) && (c <=? 0x39))%N.

Fixpoint dropWhile (p : N -> bool) (s : jsstring) : jsstring :=
  match s with
  | [] => []
  | c :: t => if p c then dropWhile p t else s
  end.

(** [span p s]: the longest prefix of [s] whose units satisfy [p], and the
    rest; a greedy [[class]*] never gives back what it took when the next
    pattern item cannot match a unit of the class. *)
Fixpoint span (p : N -> bool) (s : jsstring) : jsstring * jsstring :=
  match s with
  | [] => ([], [])
  | c :: t =>
    if p c then let '(a, b) := span p t in (c :: a, b) else ([], s)
  end.

Definition trimStart (s : jsstring) : jsstring := dropWhile isWhiteSpace s.
Definition trimEnd (s : jsstring) : jsstring :=
  rev (dropWhile isWhiteSpace (rev s)).
Definition trim (s : jsstring) : jsstring := trimEnd (trimStart s).

(** [s.startsWith(p)], returning what follows the prefix. *)
Fixpoint strip_prefix (p s : jsstring) : option jsstring :=
  match p, s with
  | [], _ => Some s
  | _ :: _, [] => None
  | a :: p', b :: s' => if (a =? b)%N then strip_prefix p' s' else None
  end.

Definition startsWith (s p : jsstring) : bool :=
  match strip_prefix p s with Some _ => true | None => false end.

(** [parts.join(sep)]. *)
Fixpoint join (sep : jsstring) (parts : list jsstring) : jsstring :=
  match parts with
  | [] => []
  | [p] => p
  | p :: ps => p ++ sep ++ join sep ps
  end.

(** ** JavaScript numbers

    The numbers the adapter handles are identifiers (face ids, user and
    group ids): integers, or [NaN] when [parseInt] finds no digit. *)

Inductive jsnumber := Num (n : Z) | NaN.

Definition String_of_Z (n : Z) : jsstring :=
  js (NilZero.string_of_int (Z.to_int n)).

Definition String_of_number (x : jsnumber) : jsstring :=
  match x with Num n => String_of_Z n | NaN => js "NaN" end.

Definition digits_value (ds : jsstring) : Z :=
  fold_left (fun acc d => 10 * acc + (Z.of_N d - 48)) ds 0.

(** [parseInt(s, 10)]: leading white space is skipped, one sign is read,
    then the longest run of decimal digits; no digit gives [NaN]. *)
Definition parseInt10 (s : jsstring) : jsnumber :=
  let s1 := trimStart s in
  let '(neg, s2) :=
    match s1 with
    | c :: t => if (c =? 0x2D)%N then (true, t)
                else if (c =? 0x2B)%N then (false, t) else (false, s1)
    | [] => (false, s1)
    end in
  match fst (span isDigit s2) with
  | [] => NaN
  | ds => Num (if neg then - digits_value ds else digits_value ds)
  end.

(** ** Regular expressions

    A pattern is given by its matcher at a fixed position: the matched
    value and the text after the match.  [regex_exec] is the search of
    [RegExp.prototype.exec] from the current [lastIndex]: the leftmost
    position where the matcher succeeds, with the text skipped before it. *)

Definition matcher (M : Type) := jsstring -> option (M * jsstring).

Fixpoint regex_exec {M} (m : matcher M) (s : jsstring)
  : option (jsstring * M * jsstring) :=
  match m s with
  | Some (x, rest) => Some ([], x, rest)
  | None =>
    match s with
    | [] => None
    | c :: t =>
      match regex_exec m t with
      | Some (before, x, rest) => Some (c :: before, x, rest)
      | None => None
      end
    end
  end.

Definition regex_test {M} (m : matcher M) (s : jsstring) : bool :=
  match regex_exec m s with Some _ => true | None => false end.

(** [s.replace(/.../g, "")]: every match, left to right, is removed; the
    search resumes after each match.  [fuel] bounds the number of matches. *)
Fixpoint regex_remove_all {M} (m : matcher M) (fuel : nat) (s : jsstring)
  : jsstring :=
  match fuel with
  | O => s
  | S f =>
    match regex_exec m s with
    | None => s
    | Some (before, _, rest) => before ++ regex_remove_all m f rest
    end
  end.

(** ** Objects used as maps

    [QQ_FACE_NAME_TO_ID] is built from [{}] and read with [map[name]] and
    [name in map]: both follow the prototype chain, so the members of
    [Object.prototype] are found under their names although the table never
    stored them. *)

Definition Object_prototype_members : list jsstring :=
  Eval vm_compute in
  map js
    [ "constructor"; "__defineGetter__"; "__defineSetter__"; "hasOwnProperty";
      "__lookupGetter__"; "__lookupSetter__"; "isPrototypeOf";
      "propertyIsEnumerable"; "toString"; "valueOf"; "__proto__";
      "toLocaleString" ]%string.

Definition in_prototype (k : jsstring) : bool :=
  bool_decide (k ∈ Object_prototype_members).

(** What [map[k]] evaluates to: a stored number, a member inherited from
    [Object.prototype], or [undefined]. *)
Inductive jsvalue :=
| VNum (n : Z)
| VBuiltin (member : jsstring)
| VUndefined.

Definition obj_get (own : gmap jsstring Z) (k : jsstring) : jsvalue :=
  match own !! k with
  | Some n => VNum n
  | None => if in_prototype k then VBuiltin k else VUndefined
  end.

(** [k in map]. *)
Definition obj_in (own : gmap jsstring Z) (k : jsstring) : bool :=
  match own !! k with
  | Some _ => true
  | None => in_prototype k
  end.

(** [String(v)] of an inherited member, as V8 prints it: the accessor
    [__proto__] yields [Object.prototype] itself, [constructor] is the
    function [Object], the others are functions of their own name. *)
Definition String_of_builtin (member : jsstring) : jsstring :=
  if jseqb member (js "__proto__") then js "[object Object]"
  else if jseqb member (js "constructor")
       then js "function Object() { [native code] }"
       else js "function " ++ member ++ js "() { [native code] }".

(** ** Protocol types ([src/types.ts]) *)

(** An identifier given as [string | number]. *)
Inductive ident := IdNum (n : Z) | IdStr (s : jsstring).

Definition String_of_ident (i : ident) : jsstring :=
  match i with IdNum n => String_of_Z n | IdStr s => s end.

Definition truthy_ident (i : ident) : bool :=
  match i with IdNum n => negb (n =? 0) | IdStr s => truthy_str s end.

Inductive DmPolicy := DmOpen | DmPairing | DmDisabled.
Inductive GroupPolicy := GroupOpen | GroupAllowlist | GroupDisabled.

(** The tool-policy fields of a group entry are not read by the functions
    embedded here. *)
Record OneBotGroupConfig := {
  group_enabled : option bool;
  requireMention : option bool;
  users : option (list ident)
}.

Record OneBotConfig := {
  enabled : option bool;
  httpUrl : option jsstring;
  accessToken : option jsstring;
  dmPolicy : option DmPolicy;
  allowFrom : option (list ident);
  groupPolicy : option GroupPolicy;
  groups : option (gmap jsstring OneBotGroupConfig);
  selfId : option ident
}.

(** The [id] of a face segment: a number or a string on the wire; a segment
    built by [parseTextWithEmoji] can also carry an inherited member. *)
Inductive FaceId :=
| FaceNum (x : jsnumber)
| FaceStr (s : jsstring)
| FaceBuiltin (member : jsstring).

(** Message segments, with the [data] fields the adapter reads.
    [MsgOther] stands for every kind not listed ([forward], [json], [xml],
    and kinds passed through). *)
Inductive OneBotMessage :=
| MsgText (text : jsstring)
| MsgFace (id : option FaceId)
| MsgImage (file : jsstring) (url : option jsstring)
| MsgRecord (file : jsstring) (url : option jsstring)
| MsgVideo (file : jsstring) (url : option jsstring)
| MsgAt (qq : jsstring)
| MsgReply (id : jsstring)
| MsgFile (file url name : option jsstring) (size : option Z)
| MsgMface (url summary emoji_id : option jsstring)
| MsgOther (type : jsstring).

Inductive MessageType := Private | Group.

Record OneBotSender := {
  nickname : jsstring;
  card : option jsstring
}.

Record OneBotMessageEvent := {
  time : Z;
  self_id : Z;
  message_type : MessageType;
  message_id : Z;
  user_id : Z;
  message : list OneBotMessage;
  sender : OneBotSender;
  group_id : option Z
}.

Inductive PostType := PostNotice | PostRequest | PostMetaEvent.

Inductive OneBotEvent :=
| EventMessage (e : OneBotMessageEvent)
| EventOther (post_type : PostType) (self : Z).

(** ** Face tables ([src/api.ts]) *)

(** [QQ_FACE_MAP], in the order of the literal; its keys are integers in
    increasing order, which is also the order [Object.entries] lists them. *)
Definition QQ_FACE_MAP : list (Z * jsstring) :=
  Eval vm_compute in
  map (fun p : Z * string => (fst p, js (snd p))) [
    (0, "惊讶"); (1, "撇嘴"); (2, "色"); (3, "发呆"); (4, "得意");
    (5, "流泪"); (6, "害羞"); (7, "闭嘴"); (8, "睡"); (9, "大哭");
    (10, "尴尬"); (11, "发怒"); (12, "调皮"); (13, "呲牙"); (14, "微笑");
    (15, "难过"); (16, "酷"); (17, "非典"); (18, "抓狂"); (19, "吐");
    (20, "偷笑"); (21, "可爱"); (22, "白眼"); (23, "傲慢"); (24, "饥饿");
    (25, "困"); (26, "惊恐"); (27, "流汗"); (28, "憨笑"); (29, "悠闲");
    (30, "奋斗"); (31, "咒骂"); (32, "疑问"); (33, "嘘"); (34, "晕");
    (35, "折磨"); (36, "衰"); (37, "骷髅"); (38, "敲打"); (39, "再见");
    (40, "发抖"); (41, "爱情"); (42, "跳跳"); (43, "猪头"); (44, "拥抱");
    (45, "蛋糕"); (46, "闪电"); (47, "炸弹"); (48, "刀"); (49, "足球");
    (50, "便便"); (51, "咖啡"); (52, "饭"); (53, "蛋糕"); (54, "闪电");
    (55, "炸弹"); (56, "刀"); (57, "足球"); (58, "瓢虫"); (59, "便便");
    (60, "咖啡"); (61, "饭"); (62, "玫瑰"); (63, "凋谢"); (64, "示爱");
    (65, "爱心"); (66, "心碎"); (67, "心碎"); (68, "蛋糕"); (69, "礼物");
    (70, "闪电"); (71, "炸弹"); (72, "刀"); (73, "足球"); (74, "太阳");
    (75, "月亮"); (76, "赞"); (77, "踩"); (78, "握手"); (79, "胜利");
    (80, "抱拳"); (81, "勾引"); (82, "拳头"); (83, "差劲"); (84, "爱你");
    (85, "飞吻"); (86, "怄火"); (87, "NO"); (88, "OK"); (89, "西瓜");
    (90, "爱情"); (91, "飞吻"); (92, "跳跳"); (93, "发抖"); (94, "怄火");
    (95, "转圈"); (96, "冷汗"); (97, "擦汗"); (98, "抠鼻"); (99, "鼓掌");
    (100, "糗大了"); (101, "坏笑"); (102, "左哼哼"); (103, "右哼哼"); (104, "哈欠");
    (105, "鄙视"); (106, "委屈"); (107, "快哭了"); (108, "阴险"); (109, "亲亲");
    (110, "吓"); (111, "可怜"); (112, "菜刀"); (113, "啤酒"); (114, "篮球");
    (115, "乒乓"); (116, "咖啡"); (117, "饭"); (118, "猪头"); (119, "玫瑰");
    (120, "凋谢"); (121, "示爱"); (122, "爱心"); (123, "心碎"); (124, "蛋糕");
    (125, "闪电"); (126, "炸弹"); (127, "刀"); (128, "足球"); (129, "瓢虫");
    (130, "便便"); (131, "月亮"); (132, "太阳"); (133, "礼物"); (134, "拥抱");
    (135, "赞"); (136, "踩"); (137, "握手"); (138, "胜利"); (139, "抱拳");
    (140, "勾引"); (141, "拳头"); (142, "差劲"); (143, "爱你"); (144, "NO");
    (145, "OK"); (146, "爱情"); (147, "飞吻"); (148, "跳跳"); (149, "发抖");
    (150, "怄火"); (151, "转圈"); (152, "磕头"); (153, "回头"); (154, "跳绳");
    (155, "挥手"); (156, "激动"); (157, "街舞"); (158, "献吻"); (159, "左太极");
    (160, "右太极"); (161, "双喜"); (162, "鞭炮"); (163, "灯笼"); (164, "发财");
    (165, "K歌"); (166, "购物"); (167, "邮件"); (168, "帅"); (169, "喝彩");
    (170, "祈祷"); (171, "爆筋"); (172, "棒棒糖"); (173, "喝奶"); (174, "下面");
    (175, "香蕉"); (176, "飞机"); (177, "开车"); (178, "左车头"); (179, "车厢");
    (180, "右车头"); (181, "多云"); (182, "下雨"); (183, "钞票"); (184, "熊猫");
    (185, "灯泡"); (186, "风车"); (187, "闹钟"); (188, "打伞"); (189, "彩球");
    (190, "钻戒"); (191, "沙发"); (192, "纸巾"); (193, "药"); (194, "手枪");
    (195, "青蛙"); (196, "茶"); (197, "眨眼睛"); (198, "泪奔"); (199, "无奈");
    (200, "卖萌"); (201, "小纠结"); (202, "喷血"); (203, "斜眼笑"); (204, "doge");
    (205, "惊喜"); (206, "骚扰"); (207, "笑哭"); (208, "我最美"); (209, "河蟹");
    (210, "羊驼"); (211, "栗子"); (212, "幽灵"); (213, "蛋"); (214, "菊花");
    (215, "红包"); (216, "大笑"); (217, "不开心"); (218, "冷漠"); (219, "呃");
    (220, "好棒"); (221, "拜托"); (222, "点赞"); (223, "无聊"); (224, "托脸");
    (225, "吃"); (226, "送花"); (227, "害怕"); (228, "花痴"); (229, "小样儿");
    (230, "飙泪"); (231, "我不看"); (232, "托腮"); (233, "啵啵"); (234, "糊脸");
    (235, "拍头"); (236, "扯一扯"); (237, "舔一舔"); (238, "蹭一蹭"); (239, "拽炸天");
    (240, "顶呱呱"); (241, "抱抱"); (242, "暴击"); (243, "开枪"); (244, "撩一撩");
    (245, "拍桌"); (246, "拍手"); (247, "恭喜"); (248, "干杯"); (249, "嘲讽");
    (250, "哼"); (251, "佛系"); (252, "掐一掐"); (253, "惊呆"); (254, "颤抖");
    (255, "啃头"); (256, "偷看"); (257, "扇脸"); (258, "原谅"); (259, "喷脸");
    (260, "生日快乐"); (261, "头撞击"); (262, "甩头"); (263, "扔狗"); (264, "加油必胜");
    (265, "加油抱抱"); (266, "口罩护体"); (267, "搬砖中"); (268, "忙到飞起"); (269, "脑阔疼");
    (270, "沧桑"); (271, "捂脸"); (272, "辣眼睛"); (273, "哦哟"); (274, "头秃");
    (275, "问号脸"); (276, "暗中观察"); (277, "emm"); (278, "吃瓜"); (279, "呵呵哒");
    (280, "我酸了"); (281, "太南了"); (282, "辣椒酱"); (283, "汪汪"); (284, "汗");
    (285, "打脸"); (286, "击掌"); (287, "无眼笑"); (288, "敬礼"); (289, "狂笑");
    (290, "面无表情"); (291, "摸鱼"); (292, "魔鬼笑"); (293, "哦"); (294, "请");
    (295, "睁眼"); (296, "敲开心"); (297, "震惊"); (298, "让我康康"); (299, "摸锦鲤");
    (300, "期待"); (301, "拿到红包"); (302, "真好"); (303, "拜谢"); (304, "元宝");
    (305, "牛啊"); (306, "胖三斤"); (307, "好闪"); (308, "左拜年"); (309, "右拜年");
    (310, "红包包"); (311, "右亲亲"); (312, "牛气冲天"); (313, "喵喵"); (314, "求红包");
    (315, "谢红包"); (316, "新年烟花"); (317, "打call"); (318, "变形"); (319, "嗑到了");
    (320, "仔细分析"); (321, "加油"); (322, "我没事"); (323, "菜狗"); (324, "崇拜");
    (325, "比心"); (326, "庆祝"); (327, "老色痞"); (328, "拒绝"); (329, "嫌弃");
    (330, "吃糖"); (331, "惊吓"); (332, "生气"); (333, "加一"); (334, "减一");
    (335, "合十"); (336, "裂开"); (337, "墨镜"); (338, "社会社会"); (339, "旺柴");
    (340, "好的"); (341, "举牌牌"); (342, "豹子头"); (343, "假笑"); (344, "打招呼");
    (345, "摸摸"); (346, "酸Q"); (347, "我方了"); (348, "大怨种"); (349, "红包多多");
    (350, "烟花"); (351, "福"); (352, "花朝节"); (353, "发红包"); (354, "我想开了");
    (355, "疑惑"); (400, "比心"); (401, "心动"); (402, "鼓掌"); (403, "撒花");
    (404, "炫舞"); (405, "翻跟头"); (406, "跳跳"); (407, "惊喜"); (408, "仔细分析");
    (409, "变形"); (450, "比心"); (451, "飞吻"); (452, "抱抱"); (453, "撒娇");
    (454, "啾啾"); (455, "么么哒"); (456, "给心心"); (457, "打气"); (458, "眨眼");
    (459, "酷"); (460, "调皮"); (461, "可爱"); (462, "得意"); (463, "难过");
    (464, "呆"); (465, "生气"); (466, "惊讶"); (467, "汗"); (468, "吐");
    (469, "睡"); (500, "好耶"); (501, "芭比Q"); (502, "小叶子举牌"); (503, "汤圆");
    (504, "元宵快乐")
  ]%string.

(** [QQ_FACE_MAP[x]] for a number [x]: the key is [String(x)], which is
    neither ["NaN"] in the table nor a member name of [Object.prototype]. *)
Fixpoint assoc_Z (n : Z) (l : list (Z * jsstring)) : option jsstring :=
  match l with
  | [] => None
  | (k, v) :: t => if k =? n then Some v else assoc_Z n t
  end.

Definition QQ_FACE_MAP_get (x : jsnumber) : option jsstring :=
  match x with
  | Num n => assoc_Z n QQ_FACE_MAP
  | NaN => None
  end.

Definition NAPCAT_SAFE_FACE_IDS : gset Z :=
  list_to_set
    [ 0; 1; 2; 3; 4; 5; 6; 7; 8; 9; 10; 11; 12; 13; 14; 15; 16; 17; 18; 19; 20;
      21; 22; 23; 24; 25; 26; 27; 28; 29; 30; 31; 32; 33; 34; 35; 36; 37; 38; 39;
      96; 97; 98; 99; 100; 101; 102; 103; 104; 105; 106; 107; 108; 109; 110 ].

Definition safe_has (x : jsnumber) : bool :=
  match x with
  | Num n => bool_decide (n ∈ NAPCAT_SAFE_FACE_IDS)
  | NaN => false
  end.

(** [Object.entries(QQ_FACE_MAP)]: pairs of the key as a string and the
    name. *)
Definition Object_entries_QQ_FACE_MAP : list (jsstring * jsstring) :=
  map (fun p => (String_of_Z (fst p), snd p)) QQ_FACE_MAP.

(** One turn of the loop that builds the reverse table.  [id < map[name]]
    is false when [map[name]] is an inherited member, not a number. *)
Definition name_to_id_step (map : gmap jsstring Z) (entry : jsstring * jsstring)
  : gmap jsstring Z :=
  let '(idStr, name) := entry in
  match parseInt10 idStr with
  | Num id =>
    if safe_has (Num id) then
      if negb (obj_in map name)
         || match obj_get map name with
            | VNum old => id <? old
            | _ => false
            end
      then <[name := id]> map
      else map
    else map
  | NaN => map
  end.

Definition QQ_FACE_NAME_TO_ID : gmap jsstring Z :=
  fold_left name_to_id_step Object_entries_QQ_FACE_MAP ∅.

Definition getFaceIdByName (name : jsstring) : jsvalue :=
  obj_get QQ_FACE_NAME_TO_ID name.

(** ** Segment codec ([src/api.ts]) *)

(** A match of [/\[表情:([^\]]+)\]|\[face:(\d+)\]/]: the whole matched text
    [match[0]] and the group that took part. *)
Inductive EmojiMatch :=
| ByName (whole name : jsstring)
| ById (whole digits : jsstring).

Definition name_open : jsstring := Eval vm_compute in js "[表情:".
Definition face_open : jsstring := Eval vm_compute in js "[face:".
Definition close_bracket : N := 0x5D%N.

Definition isCloseBracket (c : N) : bool := (c =? close_bracket)%N.

(** [\[表情:([^\]]+)\]]: the name is the non-empty run up to the first [']']. *)
Definition match_by_name (s : jsstring) : option (EmojiMatch * jsstring) :=
  match strip_prefix name_open s with
  | None => None
  | Some r =>
    match span (fun c => negb (isCloseBracket c)) r with
    | ((_ :: _) as name, c :: rest) =>
      if isCloseBracket c
      then Some (ByName (name_open ++ name ++ [c]) name, rest)
      else None
    | _ => None
    end
  end.

(** [\[face:(\d+)\]]. *)
Definition match_by_id (s : jsstring) : option (EmojiMatch * jsstring) :=
  match strip_prefix face_open s with
  | None => None
  | Some r =>
    match span isDigit r with
    | ((_ :: _) as digits, c :: rest) =>
      if isCloseBracket c
      then Some (ById (face_open ++ digits ++ [c]) digits, rest)
      else None
    | _ => None
    end
  end.

Definition emojiPattern : matcher EmojiMatch :=
  fun s =>
    match match_by_name s with
    | Some r => Some r
    | None => match_by_id s
    end.

(** The segment pushed for one match. *)
Definition emoji_segment (m : EmojiMatch) : OneBotMessage :=
  match m with
  | ByName whole faceName =>
    match obj_get QQ_FACE_NAME_TO_ID faceName with
    | VNum faceId => MsgFace (Some (FaceNum (Num faceId)))
    | VBuiltin member => MsgFace (Some (FaceBuiltin member))
    | VUndefined => MsgText whole
    end
  | ById _ digits => MsgFace (Some (FaceNum (parseInt10 digits)))
  end.

(** The [while] loop of [parseTextWithEmoji].  [rest] is
    [text.slice(lastIndex)]; [before] is [text.slice(lastIndex, match.index)],
    pushed when it is not empty.  The result is the segments and the text
    left after the last match. *)
Fixpoint parse_loop (fuel : nat) (rest : jsstring) (segments : list OneBotMessage)
  : list OneBotMessage * jsstring :=
  match fuel with
  | O => (segments, rest)
  | S f =>
    match regex_exec emojiPattern rest with
    | None => (segments, rest)
    | Some (before, m, after) =>
      let segments1 :=
        if truthy_str before then segments ++ [MsgText before] else segments in
      parse_loop f after (segments1 ++ [emoji_segment m])
    end
  end.

Definition parseTextWithEmoji (text : jsstring) : list OneBotMessage :=
  let '(segments, remainingText) := parse_loop (length text) text [] in
  let segments :=
    if truthy_str remainingText then segments ++ [MsgText remainingText]
    else segments in
  match segments with
  | [] => [MsgText text]
  | _ :: _ => segments
  end.

Definition hasEmojiCode (text : jsstring) : bool :=
  regex_test emojiPattern text.

(** [faceName ?? faceId ?? "emoji"] inside the template string. *)
Definition face_label (id : option FaceId) : jsstring :=
  match id with
  | None => js "emoji"
  | Some (FaceBuiltin member) => String_of_builtin member
  | Some (FaceNum x) =>
    match QQ_FACE_MAP_get x with
    | Some faceName => faceName
    | None => String_of_number x
    end
  | Some (FaceStr s) =>
    let faceId := parseInt10 s in
    match QQ_FACE_MAP_get faceId with
    | Some faceName => faceName
    | None => String_of_number faceId
    end
  end.

(** One turn of the loop of [extractTextFromMessage]: what is pushed on
    [parts]. *)
Definition extractText_step (parts : list jsstring) (seg : OneBotMessage)
  : list jsstring :=
  match seg with
  | MsgText text => if truthy_str text then parts ++ [text] else parts
  | MsgFace id => parts ++ [js "[表情:" ++ face_label id ++ js "]"]
  | MsgMface _ summary emoji_id =>
    let summary := or_str (or_opt summary emoji_id) (js "表情") in
    parts ++ [js "[大表情:" ++ summary ++ js "]"]
  | _ => parts
  end.

Definition extractTextFromMessage (message : list OneBotMessage) : jsstring :=
  join [] (fold_left extractText_step message []).

Inductive MediaType := TImage | TRecord | TVideo | TFile | TMface.

Record ExtractedMedia := {
  media_type : MediaType;
  media_url : jsstring;
  media_file : option jsstring;
  fileName : option jsstring;
  fileSize : option Z;
  summary : option jsstring
}.

Definition extractMedia_step (media : list ExtractedMedia) (seg : OneBotMessage)
  : list ExtractedMedia :=
  let plain (t : MediaType) (file : jsstring) (url : option jsstring) :=
    if truthy_opt url || truthy_str file
    then media ++ [ {| media_type := t; media_url := or_str url file;
                       media_file := Some file; fileName := None;
                       fileSize := None; summary := None |} ]
    else media in
  match seg with
  | MsgImage file url => plain TImage file url
  | MsgMface url summary emoji_id =>
    if truthy_opt url
    then media ++ [ {| media_type := TMface; media_url := or_str url [];
                       media_file := None; fileName := None; fileSize := None;
                       summary := Some (or_str (or_opt summary emoji_id)
                                          (js "表情")) |} ]
    else media
  | MsgRecord file url => plain TRecord file url
  | MsgVideo file url => plain TVideo file url
  | MsgFile file url name size =>
    match or_opt url file with
    | Some fileUrl =>
      if truthy_str fileUrl
      then media ++ [ {| media_type := TFile; media_url := fileUrl;
                         media_file := file; fileName := name;
                         fileSize := size; summary := None |} ]
      else media
    | None => media
    end
  | _ => media
  end.

Definition extractMediaFromMessage (message : list OneBotMessage)
  : list ExtractedMedia :=
  fold_left extractMedia_step message [].

Definition isAtUser (message : list OneBotMessage) (userId : ident) : bool :=
  let userIdStr := String_of_ident userId in
  existsb
    (fun seg =>
       match seg with
       | MsgAt qq => jseqb qq userIdStr || jseqb qq (js "all")
       | _ => false
       end)
    message.

Definition removeAtSegments (message : list OneBotMessage)
  : list OneBotMessage :=
  List.filter (fun seg => match seg with MsgAt _ => false | _ => true end)
    message.

(** ** HTTP API ([src/api.ts])

    Every action is one POST to the gateway.  The gateway is an oracle: its
    answer to a call may depend on the calls made before.  A computation
    threads the trace of calls made so far and either returns or throws. *)

Inductive ApiParams :=
| send_private_msg (user_id : Z) (message : list OneBotMessage)
| send_group_msg (group_id : Z) (message : list OneBotMessage).

Record ApiCall := {
  call_url : jsstring;
  call_authorization : option jsstring;
  call_params : ApiParams
}.

Record OneBotApiResponse := {
  status_ok : bool;          (* status === "ok" *)
  retcode : Z;
  data_message_id : Z
}.

(** The outcome of [fetch] followed by [response.json()]. *)
Inductive HttpResult :=
| Responds (r : OneBotApiResponse)
| FetchFails.

Definition Gateway := list ApiCall -> ApiCall -> HttpResult.

Inductive Error :=
| InvalidMessageParams       (* new Error("Invalid message params") *)
| FetchError.

Inductive Result (A : Type) :=
| Ok (a : A)
| Throw (e : Error).
Arguments Ok {A} a.
Arguments Throw {A} e.

Definition IO (A : Type) := list ApiCall -> Result A * list ApiCall.

Definition ret {A} (a : A) : IO A := fun tr => (Ok a, tr).
Definition throw {A} (e : Error) : IO A := fun tr => (Throw e, tr).
Definition bind {A B} (m : IO A) (k : A -> IO B) : IO B :=
  fun tr =>
    match m tr with
    | (Ok a, tr1) => k a tr1
    | (Throw e, tr1) => (Throw e, tr1)
    end.
(** [try { m } catch { h }]. *)
Definition try_catch {A} (m : IO A) (h : Error -> IO A) : IO A :=
  fun tr =>
    match m tr with
    | (Ok a, tr1) => (Ok a, tr1)
    | (Throw e, tr1) => h e tr1
    end.

Notation "'do' x <- m ; k" := (bind m (fun x => k))
  (at level 10, x name, m at level 100, k at level 200).

(** A message argument of type [string | OneBotMessage[]]. *)
Inductive MessageArg :=
| TextArg (s : jsstring)
| SegmentsArg (segments : list OneBotMessage).

Definition as_segments (message : MessageArg) : list OneBotMessage :=
  match message with
  | TextArg s => [MsgText s]
  | SegmentsArg segments => segments
  end.

(** [config.httpUrl?.replace(/\/$/, "") || "http://127.0.0.1:3000"]. *)
Definition baseUrl (config : OneBotConfig) : jsstring :=
  let stripped :=
    match httpUrl config with
    | None => None
    | Some u =>
      match rev u with
      | c :: r => if (c =? 0x2F)%N then Some (rev r) else Some u
      | [] => Some u
      end
    end in
  or_str stripped (js "http://127.0.0.1:3000").

Definition authorization_header (config : OneBotConfig) : option jsstring :=
  match accessToken config with
  | Some t => if truthy_str t then Some (js "Bearer " ++ t) else None
  | None => None
  end.

Definition action_name (p : ApiParams) : jsstring :=
  match p with
  | send_private_msg _ _ => js "send_private_msg"
  | send_group_msg _ _ => js "send_group_msg"
  end.

(** The POST that [callOneBotApi] issues for an action and its parameters. *)
Definition request (config : OneBotConfig) (params : ApiParams) : ApiCall :=
  {| call_url := baseUrl config ++ js "/" ++ action_name params;
     call_authorization := authorization_header config;
     call_params := params |}.

Section Api.
Variable gateway : Gateway.

Definition callOneBotApi (config : OneBotConfig) (params : ApiParams)
  : IO OneBotApiResponse :=
  fun tr =>
    let call := request config params in
    match gateway tr call with
    | Responds r => (Ok r, tr ++ [call])
    | FetchFails => (Throw FetchError, tr ++ [call])
    end.

Definition sendPrivateMsg (config : OneBotConfig) (userId : Z)
    (message : MessageArg) : IO OneBotApiResponse :=
  callOneBotApi config (send_private_msg userId (as_segments message)).

Definition sendGroupMsg (config : OneBotConfig) (groupId : Z)
    (message : MessageArg) : IO OneBotApiResponse :=
  callOneBotApi config (send_group_msg groupId (as_segments message)).

Record SendParams := {
  messageType : MessageType;
  userId : option Z;
  groupId : option Z
}.

(** Truthiness of an optional numeric id: present and not [0]. *)
Definition truthy_id (i : option Z) : option Z :=
  match i with
  | Some n => if n =? 0 then None else Some n
  | None => None
  end.

Definition sendMsg (config : OneBotConfig) (params : SendParams)
    (message : MessageArg) : IO OneBotApiResponse :=
  let msg := SegmentsArg (as_segments message) in
  match messageType params, truthy_id (userId params),
        truthy_id (groupId params) with
  | Private, Some uid, _ => sendPrivateMsg config uid msg
  | Group, _, Some gid => sendGroupMsg config gid msg
  | _, _, _ => throw InvalidMessageParams
  end.

(** [text?: string]: a caption is appended when it is truthy. *)
Definition with_caption (first : OneBotMessage) (text : option jsstring)
  : list OneBotMessage :=
  if truthy_opt text then [first; MsgText (or_str text [])] else [first].

Definition sendImage (config : OneBotConfig) (params : SendParams)
    (file : jsstring) (text : option jsstring) : IO OneBotApiResponse :=
  sendMsg config params
    (SegmentsArg (with_caption (MsgImage file None) text)).

Definition sendRecord (config : OneBotConfig) (params : SendParams)
    (file : jsstring) : IO OneBotApiResponse :=
  sendMsg config params (SegmentsArg [MsgRecord file None]).

Definition sendVideo (config : OneBotConfig) (params : SendParams)
    (file : jsstring) (text : option jsstring) : IO OneBotApiResponse :=
  sendMsg config params
    (SegmentsArg (with_caption (MsgVideo file None) text)).
End Api.

(** ** Host primitives

    Node built-ins whose result depends on the platform or on Unicode
    tables, the file system, and the network helpers of [index.ts], taken
    by their results. *)

Record DownloadedImage := {
  image_path : jsstring;
  image_dataUrl : jsstring;
  image_mimeType : jsstring;
  image_size : N
}.

Record DownloadedFile := {
  file_path : jsstring;
  file_content : option jsstring;
  file_mimeType : jsstring;
  file_size : N;
  file_isText : bool
}.

Record Route := {
  agentId : jsstring;
  sessionKey : jsstring;
  accountId : jsstring
}.

Record Host := {
  toLowerCase : jsstring -> jsstring;
  decodeURIComponent : jsstring -> option jsstring;   (* [None]: URIError *)
  path_sep : N;
  path_extname : jsstring -> jsstring;
  path_basename : jsstring -> jsstring;
  (** the bytes of a file, [None] when it cannot be accessed or read *)
  fs_read : jsstring -> option (list N);
  (** [fs.existsSync] at the k-th probe of a path: a file may appear while
      the adapter polls *)
  fs_existsSync : nat -> jsstring -> bool;
  (** [downloadImageToTempFile] and [downloadFileToTemp]: [None] when the
      response is not ok or anything throws *)
  downloadImageToTempFile : jsstring -> option DownloadedImage;
  downloadFileToTemp : jsstring -> option jsstring -> option DownloadedFile;
  gateway : Gateway;
  (** the host framework: route resolver, session store, envelope formatter *)
  resolveAgentRoute : bool -> jsstring -> Route;
  readSessionUpdatedAt : Route -> option Z;
  formatAgentEnvelope : jsstring -> Z -> option Z -> jsstring -> jsstring
}.

(** [buffer.toString("base64")] on a list of bytes. *)
Definition b64_char (i : N) : N :=
  (if i <? 26 then 65 + i
   else if i <? 52 then 97 + (i - 26)
   else if i <? 62 then 48 + (i - 52)
   else if i =? 62 then 43 else 47)%N.

Fixpoint base64 (bs : list N) : jsstring :=
  match bs with
  | [] => []
  | [a] =>
    [ b64_char (N.shiftr a 2); b64_char (N.shiftl (N.land a 3) 4);
      61; 61 ]%N
  | [a; b] =>
    [ b64_char (N.shiftr a 2);
      b64_char (N.lor (N.shiftl (N.land a 3) 4) (N.shiftr b 4));
      b64_char (N.shiftl (N.land b 15) 2); 61 ]%N
  | a :: b :: c :: t =>
    b64_char (N.shiftr a 2)
      :: b64_char (N.lor (N.shiftl (N.land a 3) 4) (N.shiftr b 4))
      :: b64_char (N.lor (N.shiftl (N.land b 15) 2) (N.shiftr c 6))
      :: b64_char (N.land c 63) :: base64 t
  end.

(** ** Outbound reconciler ([index.ts]) *)

Inductive MediaKind := KImage | KVideo | KAudio | KDocument.

(** A unit of the input against a letter or digit of a pattern with the
    [i] flag: only the two ASCII cases of a letter match it. *)
Definition ci_eq (p c : N) : bool :=
  ((c =? p) || ((0x61 <=? p) && (p <=? 0x7A) && (c =? p - 32)))%N.

Fixpoint strip_prefix_ci (p s : jsstring) : option jsstring :=
  match p, s with
  | [], _ => Some s
  | _ :: _, [] => None
  | a :: p', b :: s' => if ci_eq a b then strip_prefix_ci p' s' else None
  end.

(** [/\.(e1|e2|...)(\?|$)/i] at a fixed position. *)
Definition match_extension (exts : list jsstring) : matcher unit :=
  fun s =>
    match s with
    | c :: r =>
      if (c =? 0x2E)%N then
        if existsb
             (fun ext =>
                match strip_prefix_ci ext r with
                | Some [] => true
                | Some (q :: _) => (q =? 0x3F)%N
                | None => false
                end)
             exts
        then Some (tt, r) else None
      else None
    | [] => None
    end.

Definition image_exts : list jsstring :=
  Eval vm_compute in map js ["jpg"; "jpeg"; "png"; "gif"; "webp"; "bmp"]%string.
Definition video_exts : list jsstring :=
  Eval vm_compute in map js ["mp4"; "avi"; "mov"; "mkv"; "webm"]%string.
Definition audio_exts : list jsstring :=
  Eval vm_compute in map js ["mp3"; "ogg"; "wav"; "m4a"; "flac"; "opus"]%string.

(** [/^[A-Za-z]:[\\\/]/.test(url)]. *)
Definition isWindowsDrivePath (url : jsstring) : bool :=
  match url with
  | d :: c :: s :: _ =>
    (((0x41 <=? d) && (d <=? 0x5A) || (0x61 <=? d) && (d <=? 0x7A))
     && (c =? 0x3A) && ((s =? 0x5C) || (s =? 0x2F)))%N
  | _ => false
  end.

Definition isLocalFilePath (url : jsstring) : bool :=
  if startsWith url (js "file://") then true
  else if isWindowsDrivePath url then true
  else if startsWith url (js "/") && negb (startsWith url (js "//")) then true
  else false.

(** The reply payload handed to [deliver] by the host dispatcher. *)
Record ReplyPayload := {
  payload_text : option jsstring;
  payload_mediaUrls : option (list jsstring);
  payload_mediaUrl : option jsstring;
  audioAsVoice : option bool
}.

Section Outbound.
Variable host : Host.

Definition detectMediaKind (url : jsstring) : MediaKind :=
  let lower := toLowerCase host url in
  if regex_test (match_extension image_exts) lower then KImage
  else if regex_test (match_extension video_exts) lower then KVideo
  else if regex_test (match_extension audio_exts) lower then KAudio
  else KImage.

(** [null] is [None]: any failure of [access] or [readFile] is caught. *)
Definition localFileToBase64Url (filePath : jsstring) : option jsstring :=
  let normalizedPath :=
    if startsWith filePath (js "file:///") then drop 8 filePath
    else if startsWith filePath (js "file://") then drop 7 filePath
    else filePath in
  let normalizedPath :=
    map (fun c => if (c =? 0x2F)%N then path_sep host else c) normalizedPath in
  match fs_read host normalizedPath with
  | Some buffer => Some (js "base64://" ++ base64 buffer)
  | None => None
  end.

Definition deliverMediaToOneBot (onebotConfig : OneBotConfig)
    (target : SendParams) (mediaUrl : jsstring) (caption : option jsstring)
  : IO bool :=
  let kind := detectMediaKind mediaUrl in
  let converted :=
    if isLocalFilePath mediaUrl then localFileToBase64Url mediaUrl
    else Some mediaUrl in
  match converted with
  | None => ret false
  | Some mediaUrl =>
    try_catch
      (do result <-
         match kind with
         | KImage => sendImage (gateway host) onebotConfig target mediaUrl caption
         | KVideo => sendVideo (gateway host) onebotConfig target mediaUrl caption
         | KAudio =>
           do result <- sendRecord (gateway host) onebotConfig target mediaUrl;
           if truthy_opt caption && status_ok result
           then do _ <- sendMsg (gateway host) onebotConfig target
                          (TextArg (or_str caption []));
                ret result
           else ret result
         | KDocument => sendImage (gateway host) onebotConfig target mediaUrl caption
         end;
       ret (status_ok result))
      (fun _ => ret false)
  end.

(** The loop over [payloadMediaUrls]; [i] is the index of the head. *)
Fixpoint deliver_media_loop (onebotConfig : OneBotConfig)
    (target : SendParams) (text : option jsstring) (i : nat)
    (urls : list jsstring) : IO unit :=
  match urls with
  | [] => ret tt
  | mediaUrl :: rest =>
    if truthy_str mediaUrl then
      let caption := match i with O => text | S _ => None end in
      do _ <- deliverMediaToOneBot onebotConfig target mediaUrl caption;
      deliver_media_loop onebotConfig target text (S i) rest
    else deliver_media_loop onebotConfig target text (S i) rest
  end.

(** The standalone text send, with the emoji encoding and its fallback. *)
Definition deliver_text (onebotConfig : OneBotConfig) (target : SendParams)
    (text : jsstring) : IO unit :=
  try_catch
    (let usedEmoji := hasEmojiCode text in
     let message :=
       if usedEmoji then SegmentsArg (parseTextWithEmoji text)
       else TextArg text in
     do result <- sendMsg (gateway host) onebotConfig target message;
     do result <-
       (if negb (status_ok result) && usedEmoji
        then sendMsg (gateway host) onebotConfig target (TextArg text)
        else ret result);
     ret tt)
    (fun _ => ret tt).

(** The [deliver] callback given to the dispatcher. *)
Definition deliver (onebotConfig : OneBotConfig) (target : SendParams)
    (payload : ReplyPayload) : IO unit :=
  let text :=
    match payload_text payload with
    | Some t => Some (trim t)
    | None => None
    end in
  let payloadMediaUrls :=
    match payload_mediaUrls payload with
    | Some urls => urls
    | None =>
      match payload_mediaUrl payload with
      | Some u => if truthy_str u then [u] else []
      | None => []
      end
    end in
  let hasText := truthy_opt text in
  let hasPayloadMedia := negb (bool_decide (payloadMediaUrls = [])) in
  if negb hasText && negb hasPayloadMedia then ret tt
  else
    let general : IO unit :=
      do _ <-
        (if hasPayloadMedia
         then deliver_media_loop onebotConfig target
                (if hasText then text else None) 0 payloadMediaUrls
         else ret tt);
      if hasPayloadMedia && hasText then ret tt
      else if hasText then deliver_text onebotConfig target (or_str text [])
      else ret tt in
    let voice_first : option jsstring :=
      if bool_decide (audioAsVoice payload = Some true) && hasPayloadMedia
      then
        match payloadMediaUrls with
        | firstMedia :: _ =>
          if truthy_str firstMedia then
            match detectMediaKind firstMedia with
            | KAudio => Some firstMedia
            | _ => None
            end
          else None
        | [] => None
        end
      else None in
    match voice_first with
    | Some firstMedia =>
      fun tr =>
        match deliverMediaToOneBot onebotConfig target firstMedia None tr with
        | (Ok _, tr1) => (Ok tt, tr1)                (* return *)
        | (Throw _, tr1) => general tr1              (* catch: fall back *)
        end
    | None => general
    end.
End Outbound.

(** ** Inbound processing ([index.ts])

    Log lines are not modelled; the reason of an early return stands for
    the line logged there.  The assignment to [lastSenderContext], read by
    the screenshot tool only, is left out. *)

Definition nl : jsstring := [0x0A%N].

(** [s.includes(sub)]. *)
Definition includes (s sub : jsstring) : bool :=
  regex_test
    (fun r => match strip_prefix sub r with
              | Some rest => Some (tt, rest)
              | None => None
              end)
    s.

(** [Math.round(size / 1024)]. *)
Definition sizeKB (size : N) : jsstring :=
  String_of_Z (Z.of_N ((size + 512) / 1024)).

(** [/@[^\s]+\s*/]: an [@], a non-empty run of non-space units, and the
    white space that follows. *)
Definition atPattern : matcher unit :=
  fun s =>
    match s with
    | c :: r =>
      if (c =? 0x40)%N then
        match span (fun c => negb (isWhiteSpace c)) r with
        | (_ :: _, rest) => Some (tt, dropWhile isWhiteSpace rest)
        | _ => None
        end
      else None
    | [] => None
    end.

(** [rawBody.replace(/@[^\s]+\s*/g, "").trim()]. *)
Definition stripMentions (rawBody : jsstring) : jsstring :=
  trim (regex_remove_all atPattern (length rawBody) rawBody).

Record Materialized := {
  mediaPaths : list jsstring;
  mediaUrls : list jsstring;
  mediaTypes : list jsstring;
  fileContents : list jsstring;
  hasInboundAudio : bool;
  probes : nat                  (* existence probes made so far *)
}.

Definition no_media : Materialized :=
  {| mediaPaths := []; mediaUrls := []; mediaTypes := []; fileContents := [];
     hasInboundAudio := false; probes := 0 |}.

Definition imageMime (ext : jsstring) : jsstring :=
  if jseqb ext (js ".png") then js "image/png"
  else if jseqb ext (js ".jpg") then js "image/jpeg"
  else if jseqb ext (js ".jpeg") then js "image/jpeg"
  else if jseqb ext (js ".gif") then js "image/gif"
  else if jseqb ext (js ".webp") then js "image/webp"
  else js "image/png".

Definition placeholder (m : ExtractedMedia) : jsstring :=
  match media_type m with
  | TImage => js "<media:image>"
  | TMface => js "<media:sticker:" ++ or_str (summary m) (js "表情") ++ js ">"
  | TRecord => js "<media:audio>"
  | TVideo => js "<media:video>"
  | TFile => js "<media:file>"
  end.

Inductive SkipReason :=
| SkipEmptyMessage          (* "Empty message (no text or media), skipping" *)
| SkipGroupPolicyDisabled   (* "Group messages disabled, skipping" *)
| SkipNotInAllowlist        (* "Group ... not in allowlist, skipping" *)
| SkipGroupDisabled         (* "Group ... disabled, skipping" *)
| SkipWithoutMention.       (* "Group message without mention, skipping" *)

Inductive ChatType := ChatChannel | ChatDirect.

Record MediaFields := {
  MediaPaths : list jsstring;
  MediaPath : option jsstring;
  MediaUrls : list jsstring;
  MediaUrl : option jsstring;
  MediaTypes : list jsstring;
  MediaType_ : option jsstring
}.

Record InboundContext := {
  Body : jsstring;
  RawBody : jsstring;
  CommandBody : jsstring;
  From : jsstring;
  To : jsstring;
  SessionKey : jsstring;
  AccountId : jsstring;
  Chat : ChatType;
  ConversationLabel : jsstring;
  SenderName : option jsstring;
  SenderId : jsstring;
  WasMentioned : option bool;
  MessageSid : jsstring;
  HasInboundAudio : bool;
  Media : option MediaFields
}.

(** What [processOneBotMessage] does with an event: it returns early, or it
    builds the context and calls the dispatcher with it. *)
Inductive Outcome :=
| Skipped (reason : SkipReason)
| Dispatched (ctx : InboundContext).

Definition String_of_optZ (n : option Z) : jsstring :=
  match n with Some z => String_of_Z z | None => js "undefined" end.

Section Inbound.
Variable host : Host.

(** The retry loop on a voice file: up to [n] probes. *)
Fixpoint poll_exists (n : nat) (t : nat) (filePath : jsstring) : bool * nat :=
  match n with
  | O => (false, t)
  | S n' =>
    if fs_existsSync host t filePath then (true, S t)
    else poll_exists n' (S t) filePath
  end.

Definition audioMime (filePath : jsstring) : jsstring :=
  let ext := toLowerCase host (path_extname host filePath) in
  if jseqb ext (js ".silk") || includes filePath (js ".silk") then js "audio/silk"
  else if jseqb ext (js ".mp3") then js "audio/mpeg"
  else if jseqb ext (js ".ogg") || jseqb ext (js ".opus") then js "audio/ogg"
  else if jseqb ext (js ".wav") then js "audio/wav"
  else js "audio/amr".

(** One turn of the loop over the extracted media. *)
Definition materialize_step (st : Materialized) (media : ExtractedMedia)
  : Materialized :=
  let url := media_url media in
  if negb (truthy_str url) then st else
  let isHttpUrl := startsWith url (js "http://") || startsWith url (js "https://") in
  let isLocalPath := isWindowsDrivePath url || startsWith url (js "/") in
  if negb isHttpUrl && negb isLocalPath then st else
  let push path dataUrl mime :=
    {| mediaPaths := mediaPaths st ++ [path];
       mediaUrls := mediaUrls st ++ [dataUrl];
       mediaTypes := mediaTypes st ++ [mime];
       fileContents := fileContents st;
       hasInboundAudio := hasInboundAudio st;
       probes := probes st |} in
  let note text :=
    {| mediaPaths := mediaPaths st; mediaUrls := mediaUrls st;
       mediaTypes := mediaTypes st;
       fileContents := fileContents st ++ [text];
       hasInboundAudio := hasInboundAudio st;
       probes := probes st |} in
  match media_type media with
  | TImage | TMface =>
    if isHttpUrl then
      match downloadImageToTempFile host url with
      | Some result =>
        push (image_path result) (image_dataUrl result) (image_mimeType result)
      | None => st
      end
    else
      match fs_read host url with
      | Some buffer =>
        let mimeType := imageMime (toLowerCase host (path_extname host url)) in
        push url (js "data:" ++ mimeType ++ js ";base64," ++ base64 buffer)
          mimeType
      | None => st
      end
  | TRecord =>
    if isLocalPath then
      let t := probes st in
      let '(filePath, fileExists, t) :=
        match decodeURIComponent host url with
        | Some decoded =>
          if negb (jseqb decoded url) then
            if fs_existsSync host t decoded then (decoded, true, S t)
            else (url, false, S t)
          else (url, false, t)
        | None => (url, false, t)
        end in
      let '(fileExists, t) :=
        if fileExists then (true, t) else poll_exists 5 t filePath in
      if fileExists then
        {| mediaPaths := mediaPaths st ++ [filePath];
           mediaUrls := mediaUrls st;
           mediaTypes := mediaTypes st ++ [audioMime filePath];
           fileContents := fileContents st;
           hasInboundAudio := true;
           probes := t |}
      else
        {| mediaPaths := mediaPaths st; mediaUrls := mediaUrls st;
           mediaTypes := mediaTypes st;
           fileContents :=
             fileContents st ++
             [nl ++ js "[用户发送了一条语音消息，但文件无法访问。请检查 QQ 数据目录权限。]"];
           hasInboundAudio := true;
           probes := t |}
    else
      {| mediaPaths := mediaPaths st;
         mediaUrls := mediaUrls st ++ [url];
         mediaTypes := mediaTypes st ++ [js "audio/amr"];
         fileContents := fileContents st;
         hasInboundAudio := true;
         probes := probes st |}
  | TFile =>
    if isHttpUrl then
      match downloadFileToTemp host url (fileName media) with
      | Some result =>
        let name := or_str (fileName media) (js "unknown") in
        if file_isText result && truthy_opt (file_content result) then
          note (nl ++ nl ++ js "--- 文件: " ++ name ++ js " ---" ++ nl
                ++ or_str (file_content result) []
                ++ nl ++ js "--- 文件结束 ---")
        else
          note (nl ++ js "[收到文件: " ++ name ++ js ", 大小: "
                ++ sizeKB (file_size result) ++ js "KB, 类型: "
                ++ file_mimeType result ++ js "]")
      | None => st
      end
    else
      match fs_read host url with
      | Some buffer =>
        note (nl ++ js "[收到文件: "
              ++ or_str (fileName media) (path_basename host url)
              ++ js ", 大小: " ++ sizeKB (N.of_nat (length buffer)) ++ js "KB]")
      | None => st
      end
  | TVideo => st
  end.

Definition materialize (extractedMedia : list ExtractedMedia) : Materialized :=
  fold_left materialize_step extractedMedia no_media.

Definition isGroup (event : OneBotMessageEvent) : bool :=
  match message_type event with Group => true | Private => false end.

(** [rawBody] once the file notes are appended. *)
Definition bodyWithFiles (event : OneBotMessageEvent) : jsstring :=
  let rawBody := trim (extractTextFromMessage (message event)) in
  let m := materialize (extractMediaFromMessage (message event)) in
  match fileContents m with
  | [] => rawBody
  | _ :: _ => rawBody ++ join [] (fileContents m)
  end.

Definition wasMentioned (onebotConfig : OneBotConfig)
    (event : OneBotMessageEvent) : bool :=
  match selfId onebotConfig with
  | Some self =>
    if isGroup event && truthy_ident self
    then isAtUser (message event) self
    else false
  | None => false
  end.

(** [rawBody] after the mention check. *)
Definition bodyAfterMention (onebotConfig : OneBotConfig)
    (event : OneBotMessageEvent) : jsstring :=
  if wasMentioned onebotConfig event
  then stripMentions (bodyWithFiles event)
  else bodyWithFiles event.

(** [groups?.[String(groupId)] ?? groups?.["*"]]. *)
Definition effectiveGroupConfig (onebotConfig : OneBotConfig)
    (groupId : option Z) : option OneBotGroupConfig :=
  match groups onebotConfig with
  | None => None
  | Some gs =>
    match gs !! String_of_optZ groupId with
    | Some g => Some g
    | None => gs !! js "*"
    end
  end.

(** The group checks, in the order of the source: [None] lets the event
    through. *)
Definition groupGate (onebotConfig : OneBotConfig)
    (event : OneBotMessageEvent) : option SkipReason :=
  if isGroup event then
    let policy := default GroupAllowlist (groupPolicy onebotConfig) in
    let groupConfig := effectiveGroupConfig onebotConfig (group_id event) in
    match policy with
    | GroupDisabled => Some SkipGroupPolicyDisabled
    | _ =>
      match policy, groupConfig with
      | GroupAllowlist, None => Some SkipNotInAllowlist
      | _, _ =>
        if bool_decide ((groupConfig ≫= group_enabled) = Some false)
        then Some SkipGroupDisabled
        else
          let requireMention :=
            default true (groupConfig ≫= requireMention) in
          if requireMention && negb (wasMentioned onebotConfig event)
          then Some SkipWithoutMention
          else None
      end
    end
  else None.

Definition buildContext (onebotConfig : OneBotConfig)
    (event : OneBotMessageEvent) (rawBody : jsstring) (m : Materialized)
  : InboundContext :=
  let group := isGroup event in
  let senderId := String_of_Z (user_id event) in
  let senderName :=
    or_opt (card (sender event)) (or_opt (Some (nickname (sender event))) None) in
  let chatId :=
    if group then js "group:" ++ String_of_optZ (group_id event)
    else js "user:" ++ senderId in
  let route := resolveAgentRoute host group chatId in
  let previousTimestamp := readSessionUpdatedAt host route in
  let fromLabel :=
    if group
    then js "群" ++ String_of_optZ (group_id event) ++ js ":"
         ++ or_str senderName senderId
    else or_str senderName (js "QQ:" ++ senderId) in
  {| Body := formatAgentEnvelope host fromLabel (time event * 1000)
               previousTimestamp rawBody;
     RawBody := rawBody;
     CommandBody := rawBody;
     From := js "onebot:" ++ senderId;
     To := js "onebot:" ++ chatId;
     SessionKey := sessionKey route;
     AccountId := accountId route;
     Chat := if group then ChatChannel else ChatDirect;
     ConversationLabel := fromLabel;
     SenderName := senderName;
     SenderId := senderId;
     WasMentioned :=
       if group then Some (wasMentioned onebotConfig event) else None;
     MessageSid := String_of_Z (message_id event);
     HasInboundAudio := hasInboundAudio m;
     Media :=
       match mediaPaths m with
       | [] => None
       | _ :: _ =>
         Some {| MediaPaths := mediaPaths m;
                 MediaPath := head (mediaPaths m);
                 MediaUrls := mediaUrls m;
                 MediaUrl := head (mediaUrls m);
                 MediaTypes := mediaTypes m;
                 MediaType_ := head (mediaTypes m) |}
       end |}.

Definition processOneBotMessage (onebotConfig : OneBotConfig)
    (event : OneBotMessageEvent) : Outcome :=
  let extractedMedia := extractMediaFromMessage (message event) in
  let m := materialize extractedMedia in
  let hasMedia := negb (bool_decide (mediaPaths m = [])) in
  let rawBody := bodyAfterMention onebotConfig event in
  if negb (truthy_str rawBody) && negb hasMedia then Skipped SkipEmptyMessage
  else
    let rawBody :=
      if negb (truthy_str rawBody) && hasMedia
      then join (js " ") (map placeholder extractedMedia)
      else rawBody in
    match groupGate onebotConfig event with
    | Some reason => Skipped reason
    | None => Dispatched (buildContext onebotConfig event rawBody m)
    end.

(** The target of every reply to [event]. *)
Definition replyTarget (event : OneBotMessageEvent) : SendParams :=
  {| messageType := if isGroup event then Group else Private;
     userId := if isGroup event then None else Some (user_id event);
     groupId := if isGroup event then group_id event else None |}.

Inductive WebhookResult :=
| NotEnabled                    (* 500, "OneBot not enabled" *)
| BodyParseError                (* 400 *)
| IgnoredNonMessage             (* 200, then "Ignoring non-message event" *)
| IgnoredGroupMessage           (* 200, then "Ignoring group message" *)
| Processed (onebotConfig : OneBotConfig) (outcome : Outcome).   (* 200 *)

(** [parsed] is the result of [readJsonBody]: [None] when the body is too
    large or is not JSON.  The configuration returned with [Processed] has
    the learned [selfId]. *)
Definition handleOneBotWebhook (onebotConfig : option OneBotConfig)
    (parsed : option OneBotEvent) : WebhookResult :=
  match onebotConfig with
  | None => NotEnabled
  | Some onebotConfig =>
    if negb (bool_decide (enabled onebotConfig = Some true)) then NotEnabled
    else
      match parsed with
      | None => BodyParseError
      | Some (EventOther _ _) => IgnoredNonMessage
      | Some (EventMessage msgEvent) =>
        match message_type msgEvent with
        | Group => IgnoredGroupMessage
        | Private =>
          let onebotConfig :=
            if match selfId onebotConfig with
               | Some self => truthy_ident self
               | None => false
               end
            then onebotConfig
            else {| enabled := enabled onebotConfig;
                    httpUrl := httpUrl onebotConfig;
                    accessToken := accessToken onebotConfig;
                    dmPolicy := dmPolicy onebotConfig;
                    allowFrom := allowFrom onebotConfig;
                    groupPolicy := groupPolicy onebotConfig;
                    groups := groups onebotConfig;
                    selfId := Some (IdNum (self_id msgEvent)) |} in
          Processed onebotConfig (processOneBotMessage onebotConfig msgEvent)
        end
      end
  end.
End Inbound.

(** ** Reference definitions, in the words of the specification *)

(** The name that the fixed id→name table gives to the id [n], searched
    in the table itself. *)
Definition table_name (n : Z) : option jsstring :=
  match List.find (fun e : Z * jsstring => fst e =? n) QQ_FACE_MAP with
  | Some e => Some (snd e)
  | None => None
  end.

(** The text between the brackets of a rendered face segment: [emoji]
    when the id is absent; for a number, its name in the table, else the
    number in decimal; for a string, what [parseInt] reads from it, rendered
    as a number, [NaN] when it reads none.  (A face segment that the
    encoder built from an inherited member renders as the text of that
    member.) *)
Definition claimed_face_text (id : option FaceId) : jsstring :=
  let of_number (x : jsnumber) :=
    match x with
    | NaN => js "NaN"
    | Num n =>
      match table_name n with
      | Some name => name
      | None => String_of_Z n
      end
    end in
  match id with
  | None => js "emoji"
  | Some (FaceNum x) => of_number x
  | Some (FaceStr s) => of_number (parseInt10 s)
  | Some (FaceBuiltin member) => String_of_builtin member
  end.

(** The first candidate that is present and not empty, else [default]. *)
Definition first_nonempty (candidates : list (option jsstring))
    (default : jsstring) : jsstring :=
  match List.find truthy_opt candidates with
  | Some (Some s) => s
  | _ => default
  end.

(** The contribution of a segment to the extracted text as the
    specification words it: text and face segments only. *)
Definition spec_contribution (seg : OneBotMessage) : jsstring :=
  match seg with
  | MsgText text => text
  | MsgFace id => js "[表情:" ++ claimed_face_text id ++ js "]"
  | _ => []
  end.

(** The contribution of a segment as the claim is amended: sticker
    ([mface]) segments are rendered as well, by their summary, else their
    emoji id, else [表情]. *)
Definition claimed_contribution (seg : OneBotMessage) : jsstring :=
  match seg with
  | MsgText text => text
  | MsgFace id => js "[表情:" ++ claimed_face_text id ++ js "]"
  | MsgMface _ summary emoji_id =>
    js "[大表情:" ++ first_nonempty [summary; emoji_id] (js "表情") ++ js "]"
  | _ => []
  end.

(** What one turn of the loop of [extractTextFromMessage] pushes on
    [parts], as one text. *)
Definition pushed_text (seg : OneBotMessage) : jsstring :=
  concat (extractText_step [] seg).

Definition table_entry_found (e : Z * jsstring) : bool :=
  bool_decide (table_name (fst e) = Some (snd e)).

Definition contributes (seg : OneBotMessage) : bool :=
  match seg with
  | MsgText _ | MsgFace _ | MsgMface _ _ _ => true
  | _ => false
  end.

(** Stripping one leading [@mention] token, as the specification words it:
    a text that starts with [@] loses that token and the white space after
    it; the rest is kept as it is. *)
Definition spec_stripLeadingMention (rawBody : jsstring) : jsstring :=
  match atPattern rawBody with
  | Some (_, rest) => rest
  | None => rawBody
  end.

(** A send lacks its id when the id matching the message type is absent or
    zero. *)
Definition lacks_id (params : SendParams) : Prop :=
  match messageType params with
  | Private => userId params = None \/ userId params = Some 0
  | Group => groupId params = None \/ groupId params = Some 0
  end.

(** The call that a send to [target] with [segments] should issue; none
    when the id matching the message type is absent or zero. *)
Definition message_call (config : OneBotConfig) (target : SendParams)
    (segments : list OneBotMessage) : option ApiCall :=
  match messageType target with
  | Private =>
    match truthy_id (userId target) with
    | Some uid => Some (request config (send_private_msg uid segments))
    | None => None
    end
  | Group =>
    match truthy_id (groupId target) with
    | Some gid => Some (request config (send_group_msg gid segments))
    | None => None
    end
  end.

(** The message carried by a call. *)
Definition call_message (c : ApiCall) : list OneBotMessage :=
  match call_params c with
  | send_private_msg _ message => message
  | send_group_msg _ message => message
  end.

(** The file of a media call: the [file] of the image, video or record
    segment that heads its message; a call without one is a text call. *)
Definition sent_file (c : ApiCall) : option jsstring :=
  match call_message c with
  | MsgImage file _ :: _ => Some file
  | MsgVideo file _ :: _ => Some file
  | MsgRecord file _ :: _ => Some file
  | _ => None
  end.

Definition is_text_call (c : ApiCall) : bool :=
  match sent_file c with
  | Some _ => false
  | None => true
  end.

(** What is sent as [file] for a media entry of a payload: a remote
    reference as it is, a local one in its base64 form; nothing when the
    local file cannot be read. *)
Definition sent_form (host : Host) (mediaUrl : jsstring) : option jsstring :=
  if isLocalFilePath mediaUrl then localFileToBase64Url host mediaUrl
  else Some mediaUrl.

(** A segment that the emoji encoding can produce. *)
Definition text_or_face (seg : OneBotMessage) : Prop :=
  match seg with
  | MsgText _ | MsgFace _ => True
  | _ => False
  end.

(** The media list that [deliver] walks. *)
Definition payload_media (payload : ReplyPayload) : list jsstring :=
  match payload_mediaUrls payload with
  | Some urls => urls
  | None =>
    match payload_mediaUrl payload with
    | Some u => if truthy_str u then [u] else []
    | None => []
    end
  end.

(** A matcher consumes when every match leaves a strictly shorter text. *)
Definition consuming {M} (m : matcher M) : Prop :=
  forall s x rest, m s = Some (x, rest) -> (length rest < length s)%nat.

(** Checks run over the face tables. *)
Fixpoint increasing (l : list Z) : bool :=
  match l with
  | a :: ((b :: _) as t) => (a <? b) && increasing t
  | _ => true
  end.

Definition stored_entry_ok (e : jsstring * Z) : bool :=
  safe_has (Num (snd e))
  && bool_decide (QQ_FACE_MAP_get (Num (snd e)) = Some (fst e))
  && forallb
       (fun e' : Z * jsstring =>
          negb (safe_has (Num (fst e')) && jseqb (snd e') (fst e))
          || (snd e <=? fst e'))
       QQ_FACE_MAP.

Definition safe_entry_stored (e : Z * jsstring) : bool :=
  negb (safe_has (Num (fst e)))
  || match QQ_FACE_NAME_TO_ID !! snd e with Some _ => true | None => false end.

(** The accept conditions of the Policy Gate for a group event, as the
    specification lists them: the policy is not [disabled]; under
    [allowlist] an effective group entry exists; that entry does not disable
    the group; the bot is mentioned whenever a mention is required. *)
Definition accept_conditions (onebotConfig : OneBotConfig)
    (event : OneBotMessageEvent) : Prop :=
  let policy := default GroupAllowlist (groupPolicy onebotConfig) in
  let groupConfig := effectiveGroupConfig onebotConfig (group_id event) in
  policy <> GroupDisabled
  /\ (policy = GroupAllowlist -> groupConfig <> None)
  /\ groupConfig ≫= group_enabled <> Some false
  /\ (default true (groupConfig ≫= requireMention) = true ->
      wasMentioned onebotConfig event = true).


(** ** A POSIX host for concrete runs *)

Definition ascii_lower (s : jsstring) : jsstring :=
  map (fun c => if ((0x41 <=? c) && (c <=? 0x5A))%N then (c + 32)%N else c) s.

(** The text after the last [/]. *)
Definition posix_basename (p : jsstring) : jsstring :=
  rev (fst (span (fun c => negb (c =? 0x2F)%N) (rev p))).

(** From the last [.] of the base name, when it is not its first unit. *)
Definition posix_extname (p : jsstring) : jsstring :=
  let b := posix_basename p in
  match span (fun c => negb (c =? 0x2E)%N) (rev b) with
  | (_, []) => []
  | (_, [_]) => []
  | (e, dot :: _) => rev (e ++ [dot])
  end.

Fixpoint assoc_str {A} (k : jsstring) (l : list (jsstring * A)) : option A :=
  match l with
  | [] => None
  | (k', v) :: t => if jseqb k' k then Some v else assoc_str k t
  end.

Definition default_route : Route :=
  {| agentId := js "main"; sessionKey := js "agent:main"; accountId := js "default" |}.

(** A host with the files [files] (by the path handed to [fs]), on which
    every download fails, and whose gateway is [gw]. *)
Definition posix_host (files : list (jsstring * list N)) (gw : Gateway) : Host :=
  {| toLowerCase := ascii_lower;
     decodeURIComponent := Some;
     path_sep := 0x2F%N;
     path_extname := posix_extname;
     path_basename := posix_basename;
     fs_read := fun p => assoc_str p files;
     fs_existsSync := fun _ p => match assoc_str p files with
                                 | Some _ => true | None => false end;
     downloadImageToTempFile := fun _ => None;
     downloadFileToTemp := fun _ _ => None;
     gateway := gw;
     resolveAgentRoute := fun _ _ => default_route;
     readSessionUpdatedAt := fun _ => None;
     formatAgentEnvelope := fun from _ _ body => from ++ js ": " ++ body |}.

Definition response (ok : bool) : OneBotApiResponse :=
  {| status_ok := ok; retcode := if ok then 0 else 1200; data_message_id := 1 |}.

Definition gateway_ok : Gateway := fun _ _ => Responds (response true).
Definition gateway_failing : Gateway := fun _ _ => Responds (response false).

Definition open_config : OneBotConfig :=
  {| enabled := Some true; httpUrl := Some (js "http://127.0.0.1:3000");
     accessToken := None; dmPolicy := Some DmOpen; allowFrom := None;
     groupPolicy := Some GroupOpen; groups := None;
     selfId := Some (IdNum 10000) |}.

Definition an_event (t : MessageType) (gid : option Z)
    (msg : list OneBotMessage) : OneBotMessageEvent :=
  {| time := 1700000000; self_id := 10000; message_type := t;
     message_id := 77; user_id := 20000; message := msg;
     sender := {| nickname := js "alice"; card := None |};
     group_id := gid |}.

(** [atPattern] matches at the start of [s] exactly when [s] starts with
    an [@] followed by a unit that is not white space. *)
Definition at_start (s : jsstring) : bool :=
  match s with
  | c1 :: c2 :: _ => (c1 =? 0x40)%N && negb (isWhiteSpace c2)
  | _ => false
  end.

(** No position of [s] starts an [@] token. *)
Fixpoint no_at (s : jsstring) : bool :=
  match s with
  | [] => true
  | _ :: t => negb (at_start s) && no_at t
  end.

Definition ends_with_at (s : jsstring) : bool :=
  match rev s with
  | c :: _ => (c =? 0x40)%N
  | [] => false
  end.

(** Concrete runs used below. *)
Definition voice_url : jsstring := Eval vm_compute in js "https://cdn.example/reply.mp3".

Definition voice_payload : ReplyPayload :=
  {| payload_text := Some (js "here you go");
     payload_mediaUrls := Some [voice_url];
     payload_mediaUrl := None;
     audioAsVoice := Some true |}.

Definition emoji_payload : ReplyPayload :=
  {| payload_text := Some (js "ok [表情:微笑]"); payload_mediaUrls := None;
     payload_mediaUrl := None; audioAsVoice := None |}.

Definition private_target : SendParams :=
  {| messageType := Private; userId := Some 20000; groupId := None |}.

Definition png_bytes : list N := [137; 80; 78; 71]%N.

Definition host_with_png (gw : Gateway) : Host :=
  posix_host [(js "/tmp/reply.png", png_bytes)] gw.

Definition group_hello : OneBotMessageEvent :=
  an_event Group (Some 555)
    [MsgAt (js "10000"); MsgText (js " hello @bob see a@b.c now")].

Definition group_only_mention : OneBotMessageEvent :=
  an_event Group (Some 555) [MsgAt (js "10000"); MsgText (js " ")].


Definition private_remote_voice : OneBotMessageEvent :=
  an_event Private None
    [MsgRecord (js "v.amr") (Some (js "https://gchat.example/v.amr"))].


Definition private_image_and_file : OneBotMessageEvent :=
  an_event Private None
    [MsgImage (js "/tmp/reply.png") None;
     MsgFile (Some (js "/tmp/reply.png")) None None None].

(** ** Channel plugin ([src/channel.ts]) *)

(** [target.replace(/^onebot:/i, "")]. *)
Definition normalizeTarget (target : jsstring) : jsstring :=
  match strip_prefix_ci (js "onebot:") target with
  | Some r => r
  | None => target
  end.

(** [/^\d+$/.test(s)]. *)
Definition all_digits (s : jsstring) : bool :=
  match s with
  | [] => false
  | _ :: _ => forallb isDigit s
  end.

(** [/^(group|user):\d+$/.test(s)]. *)
Definition prefixed_digits (s : jsstring) : bool :=
  match strip_prefix (js "group:") s with
  | Some r => all_digits r
  | None =>
    match strip_prefix (js "user:") s with
    | Some r => all_digits r
    | None => false
    end
  end.

Definition looksLikeId (raw : jsstring) (normalized : option jsstring) : bool :=
  let id := or_str normalized raw in
  all_digits id || prefixed_digits id.

(** [target.match(/^group:(\d+)$/)]: the digits, when it matches. *)
Definition groupMatch (target : jsstring) : option jsstring :=
  match strip_prefix (js "group:") target with
  | Some r => if all_digits r then Some r else None
  | None => None
  end.

(** [target.match(/^(?:user:)?(\d+)$/)]. *)
Definition userMatch (target : jsstring) : option jsstring :=
  match strip_prefix (js "user:") target with
  | Some r => if all_digits r then Some r else None
  | None => if all_digits target then Some target else None
  end.

(** What [sendText] returns or throws. *)
Inductive SendOutcome :=
| Sent (messageId : jsstring)       (* { channel: "onebot", messageId } *)
| NotConfigured                     (* Error("OneBot not configured") *)
| ApiError (code : Z)               (* Error(`API error: ${retcode}`) *)
| InvalidTargetFormat (target : jsstring)
| Thrown (e : Error).               (* an error of [sendMsg], passed on *)

Definition id_of_number (x : jsnumber) : option Z :=
  match x with Num n => Some n | NaN => None end.

Definition send_outcome (r : Result OneBotApiResponse * list ApiCall)
  : SendOutcome * list ApiCall :=
  match r with
  | (Ok result, tr) =>
    if status_ok result
    then (Sent (String_of_Z (data_message_id result)), tr)
    else (ApiError (retcode result), tr)
  | (Throw e, tr) => (Thrown e, tr)
  end.

Definition sendText (gateway : Gateway) (onebotConfig : option OneBotConfig)
    (to : option jsstring) (text : jsstring) (tr : list ApiCall)
  : SendOutcome * list ApiCall :=
  match onebotConfig with
  | None => (NotConfigured, tr)
  | Some onebotConfig =>
    if negb (truthy_opt (httpUrl onebotConfig)) then (NotConfigured, tr)
    else
      let target := match to with Some t => trim t | None => [] end in
      match groupMatch target with
      | Some digits =>
        let groupId := parseInt10 digits in
        send_outcome
          (sendMsg gateway onebotConfig
             {| messageType := Group; userId := None;
                groupId := id_of_number groupId |}
             (TextArg text) tr)
      | None =>
        match userMatch target with
        | Some digits =>
          let userId := parseInt10 digits in
          send_outcome
            (sendMsg gateway onebotConfig
               {| messageType := Private; userId := id_of_number userId;
                  groupId := None |}
               (TextArg text) tr)
        | None => (InvalidTargetFormat target, tr)
        end
      end
  end.

(** [groups.resolveRequireMention].  [groups] is a plain object: a group id
    that names a member of [Object.prototype] finds that member, which has
    no [requireMention]. *)
Definition resolveRequireMention (onebotConfig : option OneBotConfig)
    (groupId : jsstring) : bool :=
  match onebotConfig ≫= groups with
  | None => true
  | Some gs =>
    match gs !! groupId with
    | Some g => default true (requireMention g)
    | None =>
      if in_prototype groupId then true
      else
        match gs !! js "*" with
        | Some g => default true (requireMention g)
        | None => true
        end
    end
  end.

(** ** Auxiliary definitions for the further properties *)

(** What one segment adds to the list built by [extractMediaFromMessage]. *)
Definition segment_media (seg : OneBotMessage) : list ExtractedMedia :=
  extractMedia_step [] seg.

(** A reference that the materialisation loop can use: remote over
    [http(s)], or an absolute local path. *)
Definition usable_url (url : jsstring) : bool :=
  startsWith url (js "http://") || startsWith url (js "https://")
  || isWindowsDrivePath url || startsWith url (js "/").

Definition windows_reply : jsstring :=
  Eval vm_compute in [67; 58; 92; 113; 113; 92; 97; 46; 112; 110; 103]%N.

Definition group_allowlisted : OneBotConfig :=
  {| enabled := Some true; httpUrl := Some (js "http://127.0.0.1:3000");
     accessToken := None; dmPolicy := None; allowFrom := None;
     groupPolicy := None;
     groups := Some {[ js "777" :=
                         {| group_enabled := None; requireMention := None;
                            users := None |} ]};
     selfId := Some (IdNum 10000) |}.

Definition group_plain_hello : OneBotMessageEvent :=
  an_event Group (Some 777) [MsgText (js "hello")].

Definition private_video_only : OneBotMessageEvent :=
  an_event Private None
    [MsgVideo (js "clip.mp4") (Some (js "https://gchat.example/clip.mp4"));
     MsgImage (js "{ABC}.jpg") None].


(** The code units of a decimal numeral. *)
Fixpoint uint_codes (d : Decimal.uint) : jsstring :=
  match d with
  | Decimal.Nil => []
  | Decimal.D0 d => 48%N :: uint_codes d
  | Decimal.D1 d => 49%N :: uint_codes d
  | Decimal.D2 d => 50%N :: uint_codes d
  | Decimal.D3 d => 51%N :: uint_codes d
  | Decimal.D4 d => 52%N :: uint_codes d
  | Decimal.D5 d => 53%N :: uint_codes d
  | Decimal.D6 d => 54%N :: uint_codes d
  | Decimal.D7 d => 55%N :: uint_codes d
  | Decimal.D8 d => 56%N :: uint_codes d
  | Decimal.D9 d => 57%N :: uint_codes d
  end.

#[global] Instance jsnumber_eq_dec : EqDecision jsnumber.
Proof. solve_decision. Defined.
#[global] Instance FaceId_eq_dec : EqDecision FaceId.
Proof. solve_decision. Defined.
#[global] Instance OneBotMessage_eq_dec : EqDecision OneBotMessage.
Proof. solve_decision. Defined.

(** The name notation of a face. *)
Definition name_notation (name : jsstring) : jsstring :=
  js "[表情:" ++ name ++ js "]".

Definition a_face (id : Z) : OneBotMessage := MsgFace (Some (FaceNum (Num id))).

(** Checks run over the reverse table and over the safe ids. *)
Definition stored_name_roundtrip (e : jsstring * Z) : bool :=
  bool_decide (parseTextWithEmoji (name_notation (fst e)) = [a_face (snd e)])
  && bool_decide (extractTextFromMessage [a_face (snd e)] = name_notation (fst e)).

Definition safe_id_roundtrip (id : Z) : bool :=
  bool_decide (parseTextWithEmoji (extractTextFromMessage [a_face id])
               = [a_face id]).

(** A call addressed to [target] through the gateway of [config]. *)
Definition addressed_to (config : OneBotConfig) (target : SendParams)
    (c : ApiCall) : Prop :=
  call_url c = baseUrl config ++ js "/" ++ action_name (call_params c)
  /\ call_authorization c = authorization_header config
  /\ match call_params c with
     | send_private_msg uid _ =>
       messageType target = Private /\ userId target = Some uid /\ uid <> 0
     | send_group_msg gid _ =>
       messageType target = Group /\ groupId target = Some gid /\ gid <> 0
     end.

(** Whatever [m] returns, it only adds calls that satisfy [P] to the
    trace. *)
Definition adds_only {A} (P : ApiCall -> Prop) (m : IO A) : Prop :=
  forall tr, exists calls, snd (m tr) = tr ++ calls /\ Forall P calls.

Definition no_id_target : SendParams :=
  {| messageType := Group; userId := Some 42; groupId := None |}.

Definition text_and_image_payload : ReplyPayload :=
  {| payload_text := Some (js "here [face:14]");
     payload_mediaUrls := Some [js "https://cdn.example/a.png"];
     payload_mediaUrl := None;
     audioAsVoice := None |}.

Definition private_hello : OneBotMessageEvent :=
  an_event Private None [MsgText (js "hello")].

Definition slash_config : OneBotConfig :=
  {| enabled := Some true; httpUrl := Some (js "http://10.0.0.5:3000/");
     accessToken := Some (js "s3cret"); dmPolicy := None; allowFrom := None;
     groupPolicy := None; groups := None; selfId := None |}.

(** The chat of an event has a positive id. *)
Definition positive_chat_id (event : OneBotMessageEvent) : Prop :=
  match message_type event with
  | Private => 0 < user_id event
  | Group => exists gid, group_id event = Some gid /\ 0 < gid
  end.

Definition wildcard_config : OneBotConfig :=
  {| enabled := Some true; httpUrl := Some (js "http://127.0.0.1:3000");
     accessToken := None; dmPolicy := None; allowFrom := None;
     groupPolicy := None;
     groups := Some {[ js "*" :=
                         {| group_enabled := None; requireMention := Some false;
                            users := None |} ]};
     selfId := Some (IdNum 10000) |}.

Definition voice_then_image : OneBotMessageEvent :=
  an_event Private None
    [MsgRecord (js "/tmp/reply.png") None; MsgImage (js "/tmp/reply.png") None].

(** The three media lists of a state have the same length. *)
Definition aligned (m : Materialized) : Prop :=
  length (mediaPaths m) = length (mediaTypes m)
  /\ length (mediaUrls m) = length (mediaTypes m).
(** * Properties *)

(** ** Segment codec *)

Lemma join_nil_concat (parts : list jsstring) : join [] parts = concat parts.
Proof.
  induction parts as [|p [|q ps] IH]; simpl in *.
  - reflexivity.
  - now rewrite app_nil_r.
  - now rewrite IH.
Qed.

Lemma extractText_step_app (parts : list jsstring) (seg : OneBotMessage) :
  concat (extractText_step parts seg) = concat parts ++ pushed_text seg.
Proof.
  unfold pushed_text.
  destruct seg; cbn [extractText_step]; rewrite ?concat_app; cbn [concat app];
    rewrite ?app_nil_r; try reflexivity.
  destruct (truthy_str text); rewrite ?concat_app; cbn [concat app];
    now rewrite ?app_nil_r.
Qed.

Lemma extractText_fold (message : list OneBotMessage) (parts : list jsstring) :
  concat (fold_left extractText_step message parts)
  = concat parts ++ concat (map pushed_text message).
Proof.
  revert parts. induction message as [|seg message IH]; intros parts; simpl.
  - now rewrite app_nil_r.
  - rewrite IH, extractText_step_app. now rewrite <- app_assoc.
Qed.

Lemma extractText_concat (message : list OneBotMessage) :
  extractTextFromMessage message = concat (map pushed_text message).
Proof.
  unfold extractTextFromMessage. rewrite join_nil_concat.
  now rewrite extractText_fold.
Qed.

Lemma assoc_Z_find (n : Z) (l : list (Z * jsstring)) :
  assoc_Z n l
  = match List.find (fun e : Z * jsstring => fst e =? n) l with
    | Some e => Some (snd e)
    | None => None
    end.
Proof.
  induction l as [|[k v] l IH]; [reflexivity|].
  cbn [assoc_Z List.find fst snd]. destruct (k =? n); [reflexivity|exact IH].
Qed.

Lemma face_label_claimed (id : option FaceId) :
  face_label id = claimed_face_text id.
Proof.
  unfold face_label, claimed_face_text, QQ_FACE_MAP_get, table_name.
  destruct id as [[[n|]|s|member]|]; try reflexivity.
  - now rewrite assoc_Z_find.
  - destruct (parseInt10 s) as [n|]; [|reflexivity]. now rewrite assoc_Z_find.
Qed.

Lemma or_first_nonempty (a b : option jsstring) (d : jsstring) :
  or_str (or_opt a b) d = first_nonempty [a; b] d.
Proof.
  unfold or_str, or_opt, first_nonempty. cbn [List.find truthy_opt].
  destruct a as [[|c a]|], b as [[|c' b]|]; reflexivity.
Qed.

(** What the loop pushes for a segment is the contribution of the amended
    claim. *)
Lemma pushed_text_claimed (seg : OneBotMessage) :
  pushed_text seg = claimed_contribution seg.
Proof.
  unfold pushed_text.
  destruct seg; cbn [extractText_step claimed_contribution concat app];
    rewrite ?app_nil_r; try reflexivity.
  - destruct text; cbn [truthy_str concat app]; now rewrite ?app_nil_r.
  - now rewrite face_label_claimed.
  - now rewrite or_first_nonempty.
Qed.

Lemma table_name_In (n : Z) (name : jsstring) :
  In (n, name) QQ_FACE_MAP -> table_name n = Some name.
Proof.
  intros H.
  assert (Hall : forallb table_entry_found QQ_FACE_MAP = true)
    by (vm_compute; reflexivity).
  rewrite forallb_forall in Hall. specialize (Hall _ H).
  unfold table_entry_found in Hall. cbn [fst snd] in Hall.
  now apply bool_decide_eq_true in Hall.
Qed.

Lemma table_name_not_In (n : Z) :
  (forall name, ~ In (n, name) QQ_FACE_MAP) -> table_name n = None.
Proof.
  intros H. unfold table_name.
  destruct (List.find _ QQ_FACE_MAP) as [[k v]|] eqn:E; [|reflexivity].
  apply find_some in E as [Hin Hk]. cbn [fst] in Hk.
  apply Z.eqb_eq in Hk. subst k. now destruct (H v).
Qed.

(** C5, as amended: the extracted text is the in-order concatenation of
    the contributions of the text, face and mface segments; a text segment
    gives its content; a face segment gives, between [[表情:] and []], the
    name of its id in the id→name table, else the id in decimal, [NaN] for
    a string id in which [parseInt] reads no number, [emoji] for an absent
    id; an mface segment gives its bracketed summary, else emoji id, else
    [表情]; a segment of any other kind can be removed from the sequence
    without changing the result. *)
Theorem extractText_text_face_mface (message : list OneBotMessage) :
  extractTextFromMessage message
  = concat (map claimed_contribution (List.filter contributes message))
  /\ (forall before seg after,
        contributes seg = false ->
        extractTextFromMessage (before ++ seg :: after)
        = extractTextFromMessage (before ++ after))
  /\ (forall n name,
        In (n, name) QQ_FACE_MAP ->
        extractTextFromMessage [MsgFace (Some (FaceNum (Num n)))]
        = js "[表情:" ++ name ++ js "]")
  /\ (forall n,
        (forall name, ~ In (n, name) QQ_FACE_MAP) ->
        extractTextFromMessage [MsgFace (Some (FaceNum (Num n)))]
        = js "[表情:" ++ String_of_Z n ++ js "]")
  /\ (forall s,
        extractTextFromMessage [MsgFace (Some (FaceStr s))]
        = extractTextFromMessage [MsgFace (Some (FaceNum (parseInt10 s)))])
  /\ extractTextFromMessage [MsgFace (Some (FaceNum NaN))] = js "[表情:NaN]"
  /\ extractTextFromMessage [MsgFace None] = js "[表情:emoji]".
Proof.
  assert (Hone : forall id,
             extractTextFromMessage [MsgFace id]
             = js "[表情:" ++ claimed_face_text id ++ js "]").
  { intros id. rewrite extractText_concat. cbn [map concat].
    rewrite pushed_text_claimed. cbn [claimed_contribution].
    now rewrite app_nil_r. }
  split; [|split; [|split; [|split; [|split; [|split]]]]].
  - rewrite extractText_concat.
    induction message as [|seg message IH]; [reflexivity|].
    cbn [map concat List.filter]. rewrite IH, pushed_text_claimed.
    destruct seg; reflexivity.
  - intros before seg after Hseg. rewrite !extractText_concat.
    rewrite !map_app, !concat_app. cbn [map concat].
    rewrite pushed_text_claimed.
    destruct seg; cbn in Hseg; try discriminate; reflexivity.
  - intros n name Hin. rewrite Hone. cbn [claimed_face_text].
    now rewrite (table_name_In _ _ Hin).
  - intros n Hn. rewrite Hone. cbn [claimed_face_text].
    now rewrite (table_name_not_In _ Hn).
  - intros s. now rewrite !Hone.
  - now rewrite Hone.
  - now rewrite Hone.
Qed.

(** C5 as stated fails on a sticker segment: the source renders it, the
    specification has it contribute nothing. *)
Lemma extractText_mface_counterexample :
  let message := [MsgText (js "hi"); MsgMface None (Some (js "cat")) None] in
  extractTextFromMessage message = js "hi[大表情:cat]"
  /\ concat (map spec_contribution message) = js "hi"
  /\ extractTextFromMessage message <> concat (map spec_contribution message).
Proof. vm_compute. repeat split; discriminate. Qed.

(** *** Searching and consuming *)

Lemma strip_prefix_app (p s r : jsstring) :
  strip_prefix p s = Some r -> s = p ++ r.
Proof.
  revert s. induction p as [|a p IH]; intros s H; simpl in *.
  - now inversion H.
  - destruct s as [|b s]; [discriminate|].
    destruct (N.eqb_spec a b) as [->|]; [|discriminate].
    now rewrite (IH _ H).
Qed.

Lemma span_app (p : N -> bool) (s : jsstring) :
  fst (span p s) ++ snd (span p s) = s.
Proof.
  induction s as [|c s IH]; simpl; [reflexivity|].
  destruct (p c); simpl; [|reflexivity].
  destruct (span p s) as [a b]; simpl in *. now rewrite IH.
Qed.

Lemma span_length (p : N -> bool) (s a b : jsstring) :
  span p s = (a, b) -> length s = (length a + length b)%nat.
Proof.
  intros H. rewrite <- (span_app p s), H. simpl. now rewrite length_app.
Qed.

Lemma dropWhile_length (p : N -> bool) (s : jsstring) :
  (length (dropWhile p s) <= length s)%nat.
Proof.
  induction s as [|c s IH]; simpl; [lia|]. destruct (p c); simpl; lia.
Qed.

Lemma regex_exec_split {M} (m : matcher M) (s before rest : jsstring) (x : M) :
  regex_exec m s = Some (before, x, rest) ->
  exists t, s = before ++ t /\ m t = Some (x, rest).
Proof.
  revert before. induction s as [|c s IH]; intros before H; simpl in H.
  - destruct (m []) as [[y r]|] eqn:E; [|discriminate].
    inversion H; subst. now exists [].
  - destruct (m (c :: s)) as [[y r]|] eqn:E.
    + inversion H; subst. now exists (c :: s).
    + destruct (regex_exec m s) as [[[b y] r]|] eqn:E2; [|discriminate].
      inversion H; subst. destruct (IH _ eq_refl) as (t & -> & Ht).
      now exists t.
Qed.

Lemma regex_exec_shrinks {M} (m : matcher M) (s before rest : jsstring) (x : M) :
  consuming m ->
  regex_exec m s = Some (before, x, rest) ->
  (length before + length rest < length s)%nat.
Proof.
  intros Hc H. destruct (regex_exec_split _ _ _ _ _ H) as (t & -> & Ht).
  rewrite length_app. pose proof (Hc _ _ _ Ht). lia.
Qed.

Lemma match_by_name_consuming : consuming match_by_name.
Proof.
  intros s x rest H. unfold match_by_name in H.
  destruct (strip_prefix name_open s) as [r|] eqn:E; [|discriminate].
  apply strip_prefix_app in E. subst s.
  destruct (span _ r) as [a b] eqn:Es.
  destruct a as [|a0 a]; [discriminate|]. destruct b as [|c b]; [discriminate|].
  destruct (isCloseBracket c); [|discriminate]. inversion H; subst.
  apply span_length in Es. rewrite length_app, Es. simpl. lia.
Qed.

Lemma match_by_id_consuming : consuming match_by_id.
Proof.
  intros s x rest H. unfold match_by_id in H.
  destruct (strip_prefix face_open s) as [r|] eqn:E; [|discriminate].
  apply strip_prefix_app in E. subst s.
  destruct (span _ r) as [a b] eqn:Es.
  destruct a as [|a0 a]; [discriminate|]. destruct b as [|c b]; [discriminate|].
  destruct (isCloseBracket c); [|discriminate]. inversion H; subst.
  apply span_length in Es. rewrite length_app, Es. simpl. lia.
Qed.

Lemma emojiPattern_consuming : consuming emojiPattern.
Proof.
  intros s x rest H. unfold emojiPattern in H.
  destruct (match_by_name s) as [[y r]|] eqn:E.
  - inversion H; subst. eapply match_by_name_consuming; eauto.
  - eapply match_by_id_consuming; eauto.
Qed.

(** The loop of [parseTextWithEmoji] never stops for lack of fuel: with
    [length text] turns, no match is left in the text that remains. *)
Lemma parse_loop_complete (fuel : nat) (rest : jsstring)
    (segments : list OneBotMessage) :
  (length rest <= fuel)%nat ->
  regex_exec emojiPattern (snd (parse_loop fuel rest segments)) = None.
Proof.
  revert rest segments.
  induction fuel as [|fuel IH]; intros rest segments Hlen; simpl.
  - destruct rest; [|simpl in Hlen; lia]. reflexivity.
  - destruct (regex_exec emojiPattern rest) as [[[before m] after]|] eqn:E.
    + apply IH.
      pose proof (regex_exec_shrinks _ _ _ _ _ emojiPattern_consuming E). lia.
    + simpl. exact E.
Qed.

Lemma parse_no_match (text : jsstring) :
  hasEmojiCode text = false -> parseTextWithEmoji text = [MsgText text].
Proof.
  unfold hasEmojiCode, regex_test, parseTextWithEmoji. intros H.
  destruct (regex_exec emojiPattern text) eqn:E; [discriminate|].
  destruct text as [|c text]; simpl; [reflexivity|].
  simpl in E. now rewrite E.
Qed.

Lemma extractText_single_text (text : jsstring) :
  extractTextFromMessage [MsgText text] = text.
Proof.
  rewrite extractText_concat. cbn [map concat]. rewrite pushed_text_claimed.
  cbn [claimed_contribution]. now rewrite app_nil_r.
Qed.

(** C7: a text with no emoji notation is encoded as exactly one text
    segment carrying it (also when it is empty), the text extracted from
    that encoding is the original text, and encoding it again gives the
    same single segment. *)
Theorem encode_without_emoji_roundtrip (s : jsstring) :
  hasEmojiCode s = false ->
  parseTextWithEmoji s = [MsgText s]
  /\ extractTextFromMessage (parseTextWithEmoji s) = s
  /\ parseTextWithEmoji (extractTextFromMessage (parseTextWithEmoji s))
     = [MsgText s].
Proof.
  intros H. rewrite (parse_no_match s H), extractText_single_text.
  rewrite (parse_no_match s H). auto.
Qed.

Lemma encode_without_emoji_roundtrip_witness :
  hasEmojiCode (js "hello [face:x] @bob") = false
  /\ parseTextWithEmoji (js "hello [face:x] @bob")
     = [MsgText (js "hello [face:x] @bob")]
  /\ parseTextWithEmoji [] = [MsgText []].
Proof.
  split; [reflexivity|].
  split.
  - apply (encode_without_emoji_roundtrip (js "hello [face:x] @bob")).
    reflexivity.
  - apply (encode_without_emoji_roundtrip []). reflexivity.
Defined.

(** *** The reverse face table *)

(** The keys of the literal are written in increasing order: no key occurs
    twice, and [Object.entries] lists the entries in the order written. *)
Lemma QQ_FACE_MAP_keys_increasing : increasing (map fst QQ_FACE_MAP) = true.
Proof. vm_compute. reflexivity. Qed.

Lemma QQ_FACE_MAP_get_In (id : Z) (name : jsstring) :
  QQ_FACE_MAP_get (Num id) = Some name -> In (id, name) QQ_FACE_MAP.
Proof.
  unfold QQ_FACE_MAP_get. generalize QQ_FACE_MAP.
  intros l. induction l as [|[k v] l IH]; intros H; cbn [assoc_Z] in H.
  - discriminate.
  - destruct (Z.eqb_spec k id) as [->|]; [left; congruence|right; auto].
Qed.

(** Every name stored in [QQ_FACE_NAME_TO_ID] maps to a safe id that
    [QQ_FACE_MAP] gives that name, and to the lowest such id. *)
Lemma name_to_id_sound :
  forall name id,
    QQ_FACE_NAME_TO_ID !! name = Some id ->
    safe_has (Num id) = true
    /\ QQ_FACE_MAP_get (Num id) = Some name
    /\ forall id', safe_has (Num id') = true ->
                   QQ_FACE_MAP_get (Num id') = Some name -> id <= id'.
Proof.
  intros name id H.
  assert (Hall : forallb stored_entry_ok (map_to_list QQ_FACE_NAME_TO_ID) = true)
    by (vm_compute; reflexivity).
  rewrite forallb_forall in Hall.
  apply elem_of_map_to_list, list_elem_of_In in H.
  specialize (Hall _ H). unfold stored_entry_ok in Hall. cbn [fst snd] in Hall.
  apply andb_prop in Hall as [Hall Hmin]. apply andb_prop in Hall as [Hs Hn].
  apply bool_decide_eq_true in Hn. split; [exact Hs|]. split; [exact Hn|].
  intros id' Hs' Hn'. rewrite forallb_forall in Hmin.
  specialize (Hmin _ (QQ_FACE_MAP_get_In _ _ Hn')). cbn [fst snd] in Hmin.
  rewrite Hs' in Hmin.
  unfold jseqb in Hmin. rewrite bool_decide_eq_true_2 in Hmin by reflexivity.
  cbn [andb negb orb] in Hmin. lia.
Qed.

(** Every name that [QQ_FACE_MAP] gives to a safe id is stored. *)
Lemma name_to_id_complete :
  forall id name,
    safe_has (Num id) = true ->
    QQ_FACE_MAP_get (Num id) = Some name ->
    exists id0, QQ_FACE_NAME_TO_ID !! name = Some id0.
Proof.
  intros id name Hs Hn.
  assert (Hall : forallb safe_entry_stored QQ_FACE_MAP = true)
    by (vm_compute; reflexivity).
  rewrite forallb_forall in Hall.
  specialize (Hall _ (QQ_FACE_MAP_get_In _ _ Hn)).
  unfold safe_entry_stored in Hall. cbn [fst snd] in Hall.
  rewrite Hs in Hall. cbn [negb orb] in Hall.
  destruct (QQ_FACE_NAME_TO_ID !! name) as [id0|]; [eauto|discriminate].
Qed.

(** The two runs of the specification's scenario 3. *)
Lemma face_14_scenario :
  extractTextFromMessage [MsgFace (Some (FaceStr (js "14")))] = js "[表情:微笑]"
  /\ parseTextWithEmoji (js "[face:14]") = [MsgFace (Some (FaceNum (Num 14)))]
  /\ parseTextWithEmoji (js "[表情:微笑]") = [MsgFace (Some (FaceNum (Num 14)))].
Proof. vm_compute. auto. Qed.

(** C6 (code bug): [QQ_FACE_NAME_TO_ID] is a plain object, so a name that
    is a member of [Object.prototype] is found although no id, safe or not,
    bears it: [getFaceIdByName] returns the inherited member and
    [parseTextWithEmoji] emits a face segment carrying it instead of the
    literal bracketed text. *)
Theorem inherited_name_resolves_to_face :
  (forall id, QQ_FACE_MAP_get (Num id) <> Some (js "constructor"))
  /\ getFaceIdByName (js "constructor") = VBuiltin (js "constructor")
  /\ parseTextWithEmoji (js "[表情:constructor]")
     = [MsgFace (Some (FaceBuiltin (js "constructor")))]
  /\ parseTextWithEmoji (js "[表情:constructor]")
     <> [MsgText (js "[表情:constructor]")].
Proof.
  split.
  - intros id H.
    assert (Hall :
      forallb (fun e : Z * jsstring => negb (jseqb (snd e) (js "constructor")))
        QQ_FACE_MAP = true) by (vm_compute; reflexivity).
    rewrite forallb_forall in Hall.
    specialize (Hall _ (QQ_FACE_MAP_get_In _ _ H)). cbn [fst snd] in Hall.
    unfold jseqb in Hall. rewrite bool_decide_eq_true_2 in Hall by reflexivity.
    discriminate.
  - vm_compute. repeat split; discriminate.
Qed.

(** ** HTTP API *)

Lemma sendMsg_run (gw : Gateway) (config : OneBotConfig) (target : SendParams)
    (message : MessageArg) (tr : list ApiCall) :
  sendMsg gw config target message tr
  = match message_call config target (as_segments message) with
    | None => (Throw InvalidMessageParams, tr)
    | Some c =>
      (match gw tr c with
       | Responds r => Ok r
       | FetchFails => Throw FetchError
       end, tr ++ [c])
    end.
Proof.
  unfold sendMsg, message_call, sendPrivateMsg, sendGroupMsg, callOneBotApi, throw.
  destruct (messageType target), (truthy_id (userId target)),
    (truthy_id (groupId target)); simpl; try reflexivity;
    match goal with |- context [gw tr ?c] => destruct (gw tr c) end; reflexivity.
Qed.

Lemma message_call_None (config : OneBotConfig) (target : SendParams)
    (segments : list OneBotMessage) :
  message_call config target segments = None <-> lacks_id target.
Proof.
  unfold message_call, lacks_id, truthy_id.
  destruct (messageType target).
  - destruct (userId target) as [n|]; [|tauto].
    destruct (Z.eqb_spec n 0) as [->|Hn]; split; intros H; auto; try discriminate.
    destruct H as [H|H]; [discriminate|]. congruence.
  - destruct (groupId target) as [n|]; [|tauto].
    destruct (Z.eqb_spec n 0) as [->|Hn]; split; intros H; auto; try discriminate.
    destruct H as [H|H]; [discriminate|]. congruence.
Qed.

(** C10: [sendMsg] throws "Invalid message params" exactly when the id
    matching the message type is absent or zero, and then no call is made;
    otherwise it makes exactly one call.  A private send to user id 0
    throws. *)
Theorem sendMsg_invalid_params_iff (gw : Gateway) (config : OneBotConfig)
    (target : SendParams) (message : MessageArg) (tr : list ApiCall) :
  (fst (sendMsg gw config target message tr) = Throw InvalidMessageParams
   <-> lacks_id target)
  /\ (fst (sendMsg gw config target message tr) = Throw InvalidMessageParams
      -> snd (sendMsg gw config target message tr) = tr)
  /\ (fst (sendMsg gw config target message tr) <> Throw InvalidMessageParams
      -> exists call, snd (sendMsg gw config target message tr) = tr ++ [call])
  /\ sendMsg gw config
       {| messageType := Private; userId := Some 0; groupId := groupId target |}
       message tr
     = (Throw InvalidMessageParams, tr).
Proof.
  rewrite sendMsg_run.
  pose proof (message_call_None config target (as_segments message)) as Hn.
  destruct (message_call config target (as_segments message)) as [c|] eqn:E.
  - assert (Hne : fst (match gw tr c with
                       | Responds r => Ok r
                       | FetchFails => Throw FetchError
                       end, tr ++ [c]) <> Throw InvalidMessageParams).
    { simpl. destruct (gw tr c); discriminate. }
    repeat split.
    + intros H. now destruct Hne.
    + intros H. apply Hn in H. discriminate.
    + intros H. now destruct Hne.
    + intros _. now exists c.
  - repeat split; try reflexivity.
    + intros _. now apply Hn.
    + intros H. now destruct H.
Qed.

(** ** Outbound reconciler *)

Ltac run_send gw :=
  rewrite sendMsg_run;
  match goal with
  | |- context [message_call ?c ?t ?s] =>
    destruct (message_call c t s) as [?call|] eqn:?
  end;
  try match goal with
      | |- context [gw ?tr ?c] => destruct (gw tr c) as [?r|] eqn:?
      end.

(** Sending one media item never throws, and makes at most one call, or two
    when a caption is given. *)
Lemma deliverMedia_total (host : Host) (config : OneBotConfig)
    (target : SendParams) (mediaUrl : jsstring) (caption : option jsstring)
    (tr : list ApiCall) :
  exists b calls,
    deliverMediaToOneBot host config target mediaUrl caption tr
    = (Ok b, tr ++ calls)
    /\ (length calls <= if truthy_opt caption then 2 else 1)%nat.
Proof.
  unfold deliverMediaToOneBot.
  destruct (if isLocalFilePath mediaUrl then _ else _) as [url|];
    [|exists false, []; rewrite app_nil_r; split;
        [reflexivity|destruct (truthy_opt caption); simpl; lia]].
  assert (Hcap : (1 <= if truthy_opt caption then 2 else 1)%nat)
    by (destruct (truthy_opt caption); lia).
  assert (H0 : (0 <= if truthy_opt caption then 2 else 1)%nat) by lia.
  unfold try_catch, bind, ret, sendImage, sendVideo, sendRecord.
  destruct (detectMediaKind host mediaUrl).
  - run_send (gateway host).
    + eexists _, [_]. split; [reflexivity|exact Hcap].
    + eexists _, [_]. split; [reflexivity|exact Hcap].
    + eexists _, []. rewrite app_nil_r. split; [reflexivity|exact H0].
  - run_send (gateway host).
    + eexists _, [_]. split; [reflexivity|exact Hcap].
    + eexists _, [_]. split; [reflexivity|exact Hcap].
    + eexists _, []. rewrite app_nil_r. split; [reflexivity|exact H0].
  - run_send (gateway host).
    + destruct (truthy_opt caption) eqn:Ec; simpl.
      * destruct (status_ok r) eqn:Er; simpl.
        -- run_send (gateway host); rewrite <- ?app_assoc; simpl.
           ++ eexists _, [_; _]. split; [reflexivity|simpl; lia].
           ++ eexists _, [_; _]. split; [reflexivity|simpl; lia].
           ++ eexists _, [_]. split; [reflexivity|simpl; lia].
        -- eexists _, [_]. split; [reflexivity|simpl; lia].
      * eexists _, [_]. split; [reflexivity|simpl; lia].
    + eexists _, [_]. split; [reflexivity|exact Hcap].
    + eexists _, []. rewrite app_nil_r. split; [reflexivity|exact H0].
  - run_send (gateway host).
    + eexists _, [_]. split; [reflexivity|exact Hcap].
    + eexists _, [_]. split; [reflexivity|exact Hcap].
    + eexists _, []. rewrite app_nil_r. split; [reflexivity|exact H0].
Qed.

Lemma deliver_media_loop_total (host : Host) (config : OneBotConfig)
    (target : SendParams) (text : option jsstring) (urls : list jsstring) :
  forall (i : nat) (tr : list ApiCall),
  exists calls,
    deliver_media_loop host config target text i urls tr = (Ok tt, tr ++ calls)
    /\ (length calls
        <= length urls + match i with
                         | O => if truthy_opt text then 1 else 0
                         | S _ => 0
                         end)%nat.
Proof.
  induction urls as [|mediaUrl rest IH]; intros i tr; simpl.
  - exists []. rewrite app_nil_r. split; [reflexivity|simpl; lia].
  - destruct (truthy_str mediaUrl).
    + unfold bind.
      destruct (deliverMedia_total host config target mediaUrl
                  (match i with O => text | S _ => None end) tr)
        as (b & calls1 & -> & Hlen1).
      destruct (IH (S i) (tr ++ calls1)) as (calls2 & -> & Hlen2).
      exists (calls1 ++ calls2). rewrite app_assoc. split; [reflexivity|].
      rewrite length_app. destruct i; simpl in *;
        [destruct (truthy_opt text)|]; lia.
    + destruct (IH (S i) tr) as (calls2 & -> & Hlen2).
      exists calls2. split; [reflexivity|]. destruct i;
        [destruct (truthy_opt text)|]; simpl in *; lia.
Qed.

(** The standalone text send, call by call. *)
Lemma deliver_text_run (host : Host) (config : OneBotConfig)
    (target : SendParams) (text : jsstring) (tr : list ApiCall) :
  let usedEmoji := hasEmojiCode text in
  let first := if usedEmoji then parseTextWithEmoji text else [MsgText text] in
  match message_call config target first with
  | None => deliver_text host config target text tr = (Ok tt, tr)
  | Some c1 =>
    match gateway host tr c1 with
    | Responds r =>
      if negb (status_ok r) && usedEmoji
      then exists c2,
             message_call config target [MsgText text] = Some c2
             /\ deliver_text host config target text tr = (Ok tt, tr ++ [c1; c2])
      else deliver_text host config target text tr = (Ok tt, tr ++ [c1])
    | FetchFails => deliver_text host config target text tr = (Ok tt, tr ++ [c1])
    end
  end.
Proof.
  intros usedEmoji first. unfold deliver_text, try_catch, bind, ret.
  fold usedEmoji. rewrite sendMsg_run.
  replace (as_segments (if usedEmoji then SegmentsArg (parseTextWithEmoji text)
                        else TextArg text)) with first
    by (unfold first; destruct usedEmoji; reflexivity).
  destruct (message_call config target first) as [c1|] eqn:E1; [|reflexivity].
  destruct (gateway host tr c1) as [r|] eqn:Eg; [|reflexivity].
  destruct (negb (status_ok r) && usedEmoji) eqn:Eretry; [|reflexivity].
  rewrite sendMsg_run. simpl as_segments.
  assert (Hc2 : exists c2, message_call config target [MsgText text] = Some c2).
  { destruct (message_call config target [MsgText text]) eqn:E2; [eauto|].
    apply message_call_None in E2. apply (message_call_None config target first) in E2.
    congruence. }
  destruct Hc2 as (c2 & Hc2). rewrite Hc2. exists c2. split; [reflexivity|].
  rewrite <- app_assoc. simpl.
  destruct (gateway host (tr ++ [c1]) c2); reflexivity.
Qed.

Lemma deliver_text_total (host : Host) (config : OneBotConfig)
    (target : SendParams) (text : jsstring) (tr : list ApiCall) :
  exists calls,
    deliver_text host config target text tr = (Ok tt, tr ++ calls)
    /\ (length calls <= 2)%nat.
Proof.
  pose proof (deliver_text_run host config target text tr) as H. simpl in H.
  destruct (message_call config target _) as [c1|].
  - destruct (gateway host tr c1) as [r|].
    + destruct (negb (status_ok r) && hasEmojiCode text).
      * destruct H as (c2 & _ & ->). exists [c1; c2]. split; [reflexivity|simpl; lia].
      * rewrite H. exists [c1]. split; [reflexivity|simpl; lia].
    + rewrite H. exists [c1]. split; [reflexivity|simpl; lia].
  - rewrite H. exists []. rewrite app_nil_r. split; [reflexivity|simpl; lia].
Qed.

(** When the voice conditions hold, [deliver] is the one voice send and
    nothing else, whatever that send returns. *)
Lemma deliver_voice_only (host : Host) (config : OneBotConfig)
    (target : SendParams) (payload : ReplyPayload) (tr : list ApiCall)
    (firstMedia : jsstring) (others : list jsstring) :
  audioAsVoice payload = Some true ->
  payload_media payload = firstMedia :: others ->
  truthy_str firstMedia = true ->
  detectMediaKind host firstMedia = KAudio ->
  deliver host config target payload tr
  = (Ok tt, snd (deliverMediaToOneBot host config target firstMedia None tr)).
Proof.
  intros Hv Hm Ht Hk. unfold deliver. fold (payload_media payload).
  rewrite Hm, Hv, Ht, Hk. simpl.
  rewrite andb_false_r.
  destruct (deliverMedia_total host config target firstMedia None tr)
    as (b & calls & -> & _).
  reflexivity.
Qed.

Lemma deliver_total (host : Host) (config : OneBotConfig)
    (target : SendParams) (payload : ReplyPayload) (tr : list ApiCall) :
  exists calls,
    deliver host config target payload tr = (Ok tt, tr ++ calls)
    /\ (length calls <= length (payload_media payload) + 2)%nat.
Proof.
  unfold deliver. fold (payload_media payload).
  set (text := match payload_text payload with
               | Some t => Some (trim t) | None => None end).
  set (urls := payload_media payload).
  destruct (negb (truthy_opt text) && negb (negb (bool_decide (urls = [])))).
  { exists []. rewrite app_nil_r. split; [reflexivity|simpl; lia]. }
  match goal with
  | |- context [match ?v with Some _ => _ | None => ?g end] =>
    set (voice := v); set (general := g)
  end.
  assert (Hgen : forall tr0, exists calls,
             general tr0 = (Ok tt, tr0 ++ calls)
             /\ (length calls <= length urls + 2)%nat).
  { intros tr0. unfold general, bind.
    destruct (negb (bool_decide (urls = []))) eqn:Em; simpl.
    - destruct (deliver_media_loop_total host config target
                  (if truthy_opt text then text else None) urls 0 tr0)
        as (calls & -> & Hlen).
      destruct (truthy_opt text) eqn:Et; simpl.
      + exists calls. split; [reflexivity|]. rewrite Et in Hlen. lia.
      + exists calls. split; [reflexivity|]. simpl in Hlen. lia.
    - unfold ret. destruct (truthy_opt text).
      + destruct (deliver_text_total host config target (or_str text []) tr0)
          as (calls & -> & Hlen).
        exists calls. split; [reflexivity|lia].
      + exists []. rewrite app_nil_r. split; [reflexivity|simpl; lia]. }
  destruct voice as [firstMedia|]; [|apply Hgen].
  destruct (deliverMedia_total host config target firstMedia None tr)
    as (b & calls & -> & Hlen).
  exists calls. split; [reflexivity|]. simpl in Hlen. lia.
Qed.

(** *** Which calls a delivery makes *)

Lemma message_call_message (config : OneBotConfig) (target : SendParams)
    (segments : list OneBotMessage) (c : ApiCall) :
  message_call config target segments = Some c -> call_message c = segments.
Proof.
  unfold message_call.
  destruct (messageType target);
    [destruct (truthy_id (userId target))|destruct (truthy_id (groupId target))];
    intros H; inversion H; reflexivity.
Qed.

Lemma parse_loop_text_or_face (fuel : nat) (rest : jsstring)
    (segments : list OneBotMessage) :
  Forall text_or_face segments ->
  Forall text_or_face (fst (parse_loop fuel rest segments)).
Proof.
  revert rest segments. induction fuel as [|fuel IH]; intros rest segments H;
    cbn [parse_loop]; [exact H|].
  destruct (regex_exec emojiPattern rest) as [[[before m] after]|]; [|exact H].
  apply IH. apply Forall_app. split.
  - destruct (truthy_str before); [|exact H].
    apply Forall_app. split; [exact H|]. repeat constructor.
  - constructor; [|constructor].
    unfold emoji_segment. destruct m as [whole name|whole digits]; [|exact I].
    destruct (obj_get QQ_FACE_NAME_TO_ID name); exact I.
Qed.

(** The emoji encoding yields text and face segments only. *)
Lemma parseTextWithEmoji_text_or_face (text : jsstring) :
  Forall text_or_face (parseTextWithEmoji text).
Proof.
  unfold parseTextWithEmoji.
  pose proof (parse_loop_text_or_face (length text) text [] (List.Forall_nil _)) as H.
  destruct (parse_loop (length text) text []) as [segments remainingText].
  cbn [fst] in H.
  assert (H2 : Forall text_or_face
                 (if truthy_str remainingText
                  then segments ++ [MsgText remainingText] else segments)).
  { destruct (truthy_str remainingText); [|exact H].
    apply Forall_app. split; [exact H|]. repeat constructor. }
  destruct (if truthy_str remainingText then _ else _); [|exact H2].
  repeat constructor.
Qed.

Lemma text_or_face_not_media (config : OneBotConfig) (target : SendParams)
    (segments : list OneBotMessage) (c : ApiCall) :
  Forall text_or_face segments ->
  message_call config target segments = Some c -> sent_file c = None.
Proof.
  intros H Hc. unfold sent_file. rewrite (message_call_message _ _ _ _ Hc).
  destruct H as [|seg l Hseg _]; [reflexivity|].
  destruct seg; try reflexivity; now destruct Hseg.
Qed.

(** One media entry gives no call, or one media call carrying the sent
    form of the entry, followed by one text call only when a caption is
    given. *)
Lemma deliverMedia_calls (host : Host) (config : OneBotConfig)
    (target : SendParams) (mediaUrl : jsstring) (caption : option jsstring)
    (tr : list ApiCall) :
  exists b calls,
    deliverMediaToOneBot host config target mediaUrl caption tr
    = (Ok b, tr ++ calls)
    /\ (calls = []
        \/ exists c file,
             sent_form host mediaUrl = Some file
             /\ sent_file c = Some file
             /\ (calls = [c]
                 \/ exists c',
                      truthy_opt caption = true
                      /\ sent_file c' = None /\ calls = [c; c'])).
Proof.
  unfold deliverMediaToOneBot, sent_form.
  destruct (if isLocalFilePath mediaUrl then _ else _) as [url|];
    [|exists false, []; rewrite app_nil_r; split; [reflexivity|now left]].
  assert (Hfile : forall first c,
             match first with
             | MsgImage f _ | MsgVideo f _ | MsgRecord f _ => f = url
             | _ => False
             end ->
             forall segs, message_call config target (first :: segs) = Some c ->
             sent_file c = Some url).
  { intros first c Hf segs Hc. unfold sent_file.
    rewrite (message_call_message _ _ _ _ Hc).
    destruct first; try (now destruct Hf); now subst. }
  assert (Hcapt : forall first c,
             match first with
             | MsgImage f _ | MsgVideo f _ | MsgRecord f _ => f = url
             | _ => False
             end ->
             message_call config target (with_caption first caption) = Some c ->
             sent_file c = Some url).
  { intros first c Hf Hc. unfold with_caption in Hc.
    destruct (truthy_opt caption); eapply Hfile; eauto. }
  unfold try_catch, bind, ret, sendImage, sendVideo, sendRecord.
  destruct (detectMediaKind host mediaUrl).
  - run_send (gateway host); cbn [as_segments] in *.
    + eexists _, [call]. split; [reflexivity|]. right. exists call, url.
      repeat split; eauto. eapply Hcapt; eauto. reflexivity.
    + eexists _, [call]. split; [reflexivity|]. right. exists call, url.
      repeat split; eauto. eapply Hcapt; eauto. reflexivity.
    + eexists _, []. rewrite app_nil_r. split; [reflexivity|now left].
  - run_send (gateway host); cbn [as_segments] in *.
    + eexists _, [call]. split; [reflexivity|]. right. exists call, url.
      repeat split; eauto. eapply Hcapt; eauto. reflexivity.
    + eexists _, [call]. split; [reflexivity|]. right. exists call, url.
      repeat split; eauto. eapply Hcapt; eauto. reflexivity.
    + eexists _, []. rewrite app_nil_r. split; [reflexivity|now left].
  - run_send (gateway host); cbn [as_segments] in *.
    + assert (Hm : sent_file call = Some url)
        by (eapply Hfile; eauto; reflexivity).
      destruct (truthy_opt caption) eqn:Ec; cbn [andb].
      * destruct (status_ok r) eqn:Er.
        -- run_send (gateway host); rewrite <- ?app_assoc; cbn [app as_segments] in *.
           ++ eexists _, [call; call0]. split; [reflexivity|]. right.
              exists call, url. repeat split; eauto. right. exists call0.
              repeat split; eauto.
              apply (text_or_face_not_media config target
                       [MsgText (or_str caption [])] call0);
                [repeat constructor|assumption].
           ++ eexists _, [call; call0]. split; [reflexivity|]. right.
              exists call, url. repeat split; eauto. right. exists call0.
              repeat split; eauto.
              apply (text_or_face_not_media config target
                       [MsgText (or_str caption [])] call0);
                [repeat constructor|assumption].
           ++ eexists _, [call]. split; [reflexivity|]. right.
              exists call, url. repeat split; eauto.
        -- eexists _, [call]. split; [reflexivity|]. right.
           exists call, url. repeat split; eauto.
      * eexists _, [call]. split; [reflexivity|]. right.
        exists call, url. repeat split; eauto.
    + eexists _, [call]. split; [reflexivity|]. right. exists call, url.
      repeat split; eauto. eapply Hfile; eauto. reflexivity.
    + eexists _, []. rewrite app_nil_r. split; [reflexivity|now left].
  - run_send (gateway host); cbn [as_segments] in *.
    + eexists _, [call]. split; [reflexivity|]. right. exists call, url.
      repeat split; eauto. eapply Hcapt; eauto. reflexivity.
    + eexists _, [call]. split; [reflexivity|]. right. exists call, url.
      repeat split; eauto. eapply Hcapt; eauto. reflexivity.
    + eexists _, []. rewrite app_nil_r. split; [reflexivity|now left].
Qed.

Lemma omap_cons_eq {A B} (f : A -> option B) (x : A) (l : list A) :
  omap f (x :: l)
  = match f x with
    | Some y => y :: omap f l
    | None => omap f l
    end.
Proof. reflexivity. Qed.

Lemma deliver_media_loop_calls (host : Host) (config : OneBotConfig)
    (target : SendParams) (text : option jsstring) (urls : list jsstring) :
  forall (i : nat) (tr : list ApiCall),
  exists calls,
    deliver_media_loop host config target text i urls tr = (Ok tt, tr ++ calls)
    /\ sublist (omap sent_file calls) (omap (sent_form host) urls)
    /\ (length (List.filter is_text_call calls)
        <= match i with
           | O => if truthy_opt text then 1 else 0
           | S _ => 0
           end)%nat.
Proof.
  induction urls as [|mediaUrl rest IH]; intros i tr; cbn [deliver_media_loop].
  - exists []. rewrite app_nil_r. split; [reflexivity|].
    split; [constructor|cbn; lia].
  - assert (Hskip : forall l,
               sublist l (omap (sent_form host) rest) ->
               sublist l (omap (sent_form host) (mediaUrl :: rest))).
    { intros l Hl. rewrite omap_cons_eq. destruct (sent_form host mediaUrl);
        [now apply sublist_cons|exact Hl]. }
    destruct (truthy_str mediaUrl).
    + unfold bind.
      destruct (deliverMedia_calls host config target mediaUrl
                  (match i with O => text | S _ => None end) tr)
        as (b & calls1 & -> & Hcalls).
      destruct (IH (S i) (tr ++ calls1)) as (calls2 & -> & Hsub & Htext).
      exists (calls1 ++ calls2). rewrite app_assoc. split; [reflexivity|].
      rewrite omap_app, List.filter_app, length_app.
      destruct Hcalls as [->|(c & file & Hform & Hfile & [->|(c' & Hcap & Hc' & ->)])].
      * cbn [omap app List.filter length]. split; [now apply Hskip|lia].
      * assert (Ht : is_text_call c = false)
          by (unfold is_text_call; now rewrite Hfile).
        rewrite !omap_cons_eq, Hfile, Hform. cbn [List.filter]. rewrite Ht.
        cbn [app length omap]. split; [|lia].
        now apply sublist_skip.
      * assert (Ht : is_text_call c = false)
          by (unfold is_text_call; now rewrite Hfile).
        assert (Ht' : is_text_call c' = true)
          by (unfold is_text_call; now rewrite Hc').
        rewrite !omap_cons_eq, Hfile, Hc', Hform. cbn [List.filter].
        rewrite Ht, Ht'. cbn [app length omap]. split.
        -- now apply sublist_skip.
        -- destruct i; [|discriminate Hcap]. rewrite Hcap. lia.
    + destruct (IH (S i) tr) as (calls2 & -> & Hsub & Htext).
      exists calls2. split; [reflexivity|]. split; [now apply Hskip|lia].
Qed.

(** The standalone text send makes text calls only, two at most. *)
Lemma deliver_text_calls (host : Host) (config : OneBotConfig)
    (target : SendParams) (text : jsstring) (tr : list ApiCall) :
  exists calls,
    deliver_text host config target text tr = (Ok tt, tr ++ calls)
    /\ omap sent_file calls = []
    /\ (length calls <= 2)%nat.
Proof.
  pose proof (deliver_text_run host config target text tr) as H. cbv zeta in H.
  assert (Hfirst : Forall text_or_face
                     (if hasEmojiCode text then parseTextWithEmoji text
                      else [MsgText text])).
  { destruct (hasEmojiCode text);
      [apply parseTextWithEmoji_text_or_face|repeat constructor]. }
  destruct (message_call config target _) as [c1|] eqn:E1.
  - pose proof (text_or_face_not_media _ _ _ _ Hfirst E1) as Hc1.
    destruct (gateway host tr c1) as [r|].
    + destruct (negb (status_ok r) && hasEmojiCode text).
      * destruct H as (c2 & E2 & ->). exists [c1; c2].
        assert (Hc2 : sent_file c2 = None).
        { apply (text_or_face_not_media config target [MsgText text] c2);
            [repeat constructor|exact E2]. }
        split; [reflexivity|]. rewrite !omap_cons_eq, Hc1, Hc2.
        split; [reflexivity|cbn; lia].
      * rewrite H. exists [c1]. split; [reflexivity|].
        rewrite omap_cons_eq, Hc1. split; [reflexivity|cbn; lia].
    + rewrite H. exists [c1]. split; [reflexivity|].
      rewrite omap_cons_eq, Hc1. split; [reflexivity|cbn; lia].
  - rewrite H. exists []. rewrite app_nil_r. split; [reflexivity|].
    split; [reflexivity|cbn; lia].
Qed.

Lemma text_calls_length (calls : list ApiCall) :
  omap sent_file calls = [] ->
  length (List.filter is_text_call calls) = length calls.
Proof.
  induction calls as [|c calls IH]; [reflexivity|].
  rewrite omap_cons_eq. cbn [List.filter]. unfold is_text_call at 1.
  destruct (sent_file c); [discriminate|].
  intros H. cbn [length]. now rewrite IH.
Qed.

(** The calls of one delivery: the media calls carry, in order, the sent
    forms of distinct entries of the media list (no entry is sent twice);
    beside them come at most one text call when the list is not empty (the
    caption after a voice message), at most two when it is empty. *)
Lemma deliver_calls (host : Host) (config : OneBotConfig)
    (target : SendParams) (payload : ReplyPayload) (tr : list ApiCall) :
  exists calls,
    deliver host config target payload tr = (Ok tt, tr ++ calls)
    /\ sublist (omap sent_file calls)
         (omap (sent_form host) (payload_media payload))
    /\ (length (List.filter is_text_call calls)
        <= match payload_media payload with [] => 2 | _ :: _ => 1 end)%nat.
Proof.
  unfold deliver. fold (payload_media payload).
  set (text := match payload_text payload with
               | Some t => Some (trim t) | None => None end).
  set (urls := payload_media payload).
  destruct (negb (truthy_opt text) && negb (negb (bool_decide (urls = [])))).
  { exists []. rewrite app_nil_r. split; [reflexivity|].
    split; [apply sublist_nil_l|destruct urls; cbn; lia]. }
  match goal with
  | |- context [match ?v with Some _ => _ | None => ?g end] =>
    set (voice := v); set (general := g)
  end.
  assert (Hgen : forall tr0, exists calls,
             general tr0 = (Ok tt, tr0 ++ calls)
             /\ sublist (omap sent_file calls) (omap (sent_form host) urls)
             /\ (length (List.filter is_text_call calls)
                 <= match urls with [] => 2 | _ :: _ => 1 end)%nat).
  { intros tr0. unfold general, bind.
    destruct (bool_decide (urls = [])) eqn:Em; cbn [negb andb].
    - apply bool_decide_eq_true in Em. rewrite Em. unfold ret.
      destruct (truthy_opt text).
      + destruct (deliver_text_calls host config target (or_str text []) tr0)
          as (calls & -> & Hnone & Hlen).
        exists calls. split; [reflexivity|]. rewrite Hnone.
        split; [apply sublist_nil_l|].
        rewrite (text_calls_length _ Hnone). exact Hlen.
      + exists []. rewrite app_nil_r. split; [reflexivity|].
        split; [apply sublist_nil_l|cbn; lia].
    - apply bool_decide_eq_false in Em.
      destruct (deliver_media_loop_calls host config target
                  (if truthy_opt text then text else None) urls 0 tr0)
        as (calls & -> & Hsub & Htext).
      assert (Hone : (length (List.filter is_text_call calls)
                      <= match urls with [] => 2 | _ :: _ => 1 end)%nat).
      { destruct urls; [now destruct Em|].
        destruct (truthy_opt (if truthy_opt text then text else None)); lia. }
      destruct (truthy_opt text); cbn [andb]; unfold ret;
        exists calls; auto. }
  destruct voice as [firstMedia|] eqn:Ev; [|apply Hgen].
  assert (Hfirst : exists others, urls = firstMedia :: others).
  { unfold voice in Ev.
    destruct (bool_decide (audioAsVoice payload = Some true)
              && negb (bool_decide (urls = []))); [|discriminate].
    destruct urls as [|u others]; [discriminate|].
    destruct (truthy_str u); [|discriminate].
    destruct (detectMediaKind host u); try discriminate.
    inversion Ev. eauto. }
  destruct Hfirst as (others & Hurls).
  destruct (deliverMedia_calls host config target firstMedia None tr)
    as (b & calls & -> & Hcalls).
  exists calls. split; [reflexivity|]. rewrite Hurls, omap_cons_eq.
  destruct Hcalls as [->|(c & file & Hform & Hfile & [->|(c' & Hcap & _)])].
  - split; [apply sublist_nil_l|cbn; lia].
  - rewrite omap_cons_eq, Hfile, Hform. cbn [List.filter].
    unfold is_text_call. rewrite Hfile.
    split; [apply sublist_skip, sublist_nil_l|cbn; lia].
  - discriminate Hcap.
Qed.

Lemma deliver_text_only (host : Host) (config : OneBotConfig)
    (target : SendParams) (payload : ReplyPayload) (t : jsstring) :
  payload_media payload = [] ->
  payload_text payload = Some t ->
  truthy_str (trim t) = true ->
  deliver host config target payload = deliver_text host config target (trim t).
Proof.
  intros Hm Ht Htr. unfold deliver. fold (payload_media payload).
  rewrite Hm, Ht. simpl. rewrite Htr. simpl.
  destruct (audioAsVoice payload) as [[|]|]; simpl;
    unfold bind, ret; destruct (trim t); try discriminate; reflexivity.
Qed.

(** C2 (code bug): with the voice flag set and an audio URL first, the
    voice send is attempted once; when the gateway answers "failed",
    [deliver] still returns there: the text of the payload is never sent
    and the general media path is not entered. *)
Theorem voice_failure_ends_delivery :
  detectMediaKind (posix_host [] gateway_failing) voice_url = KAudio
  /\ gateway_failing []
       (request open_config (send_private_msg 20000 [MsgRecord voice_url None]))
     = Responds (response false)
  /\ deliverMediaToOneBot (posix_host [] gateway_failing) open_config
       private_target voice_url None []
     = (Ok false,
        [request open_config (send_private_msg 20000 [MsgRecord voice_url None])])
  /\ deliver (posix_host [] gateway_failing) open_config private_target
       voice_payload []
     = (Ok tt,
        [request open_config (send_private_msg 20000 [MsgRecord voice_url None])]).
Proof. vm_compute. auto. Qed.

(** C8: a delivery whose media list is empty and whose text is not sends
    the text in one call; when that call used the emoji encoding and the
    gateway answered with a status that is not ok, exactly one more call
    follows, carrying the same text as a single plain text segment; in no
    other case (plain text, answer ok, failed fetch) is a second call made.
    In every delivery no media entry is sent twice (the media calls carry, in
    order, the sent forms of distinct entries of the media list), and beside
    the media calls there are at most two text calls, one at most when the
    media list is not empty. *)
Theorem text_send_retried_once (host : Host) (config : OneBotConfig)
    (target : SendParams) (payload : ReplyPayload) (tr : list ApiCall) :
  (forall t,
     payload_media payload = [] ->
     payload_text payload = Some t ->
     truthy_str (trim t) = true ->
     let text := trim t in
     let usedEmoji := hasEmojiCode text in
     let first :=
       if usedEmoji then parseTextWithEmoji text else [MsgText text] in
     match message_call config target first with
     | None => deliver host config target payload tr = (Ok tt, tr)
     | Some c1 =>
       match gateway host tr c1 with
       | Responds r =>
         if negb (status_ok r) && usedEmoji
         then exists c2,
                message_call config target [MsgText text] = Some c2
                /\ deliver host config target payload tr
                   = (Ok tt, tr ++ [c1; c2])
         else deliver host config target payload tr = (Ok tt, tr ++ [c1])
       | FetchFails =>
         deliver host config target payload tr = (Ok tt, tr ++ [c1])
       end
     end)
  /\ exists calls,
       deliver host config target payload tr = (Ok tt, tr ++ calls)
       /\ sublist (omap sent_file calls)
            (omap (sent_form host) (payload_media payload))
       /\ (length (List.filter is_text_call calls)
           <= match payload_media payload with [] => 2 | _ :: _ => 1 end)%nat
       /\ (length calls <= length (payload_media payload) + 2)%nat.
Proof.
  split.
  - intros t Hm Ht Htr. rewrite (deliver_text_only _ _ _ _ _ Hm Ht Htr).
    apply deliver_text_run.
  - destruct (deliver_calls host config target payload tr)
      as (calls & Hrun & Hsub & Htext).
    destruct (deliver_total host config target payload tr)
      as (calls' & Hrun' & Hlen).
    exists calls. repeat split; try assumption.
    rewrite Hrun in Hrun'. inversion Hrun' as [Heq].
    apply app_inv_head in Heq. now subst.
Qed.

(** A failed emoji send followed by its plain-text retry, on a gateway
    that always answers "failed". *)
Lemma text_send_retried_once_witness :
  deliver (posix_host [] gateway_failing) open_config private_target
    emoji_payload []
  = (Ok tt,
     [ request open_config
         (send_private_msg 20000
            [MsgText (js "ok "); MsgFace (Some (FaceNum (Num 14)))]);
       request open_config
         (send_private_msg 20000 [MsgText (js "ok [表情:微笑]")]) ]).
Proof.
  pose proof (proj1 (text_send_retried_once (posix_host [] gateway_failing)
                       open_config private_target emoji_payload [])
                (js "ok [表情:微笑]") eq_refl eq_refl eq_refl) as H.
  vm_compute in H. destruct H as (c2 & E & H).
  inversion E; subst c2. exact H.
Defined.

(** A failed plain send is not sent again. *)
Lemma text_send_retried_once_example :
  deliver (posix_host [] gateway_failing) open_config private_target
    {| payload_text := Some (js "plain"); payload_mediaUrls := None;
       payload_mediaUrl := None; audioAsVoice := None |} []
  = (Ok tt, [request open_config (send_private_msg 20000 [MsgText (js "plain")])]).
Proof. vm_compute. reflexivity. Qed.

(** ** Local files *)

Lemma strip_prefix_common (a p s : jsstring) :
  strip_prefix (a ++ p) (a ++ s) = strip_prefix p s.
Proof.
  induction a as [|c a IH]; [reflexivity|].
  cbn [app strip_prefix]. now rewrite N.eqb_refl.
Qed.

Lemma js_file_uri : js "file://" = [102; 105; 108; 101; 58; 47; 47]%N.
Proof. reflexivity. Qed.

Lemma drive_path_not_file_uri (p : jsstring) :
  isWindowsDrivePath p = true -> startsWith p (js "file://") = false.
Proof.
  destruct p as [|d [|c [|s p]]]; try discriminate.
  cbn [isWindowsDrivePath]. intros H.
  apply andb_prop in H as [H _]. apply andb_prop in H as [_ Hc].
  apply N.eqb_eq in Hc. subst c. unfold startsWith.
  rewrite js_file_uri. cbn [strip_prefix].
  destruct (102 =? d)%N; reflexivity.
Qed.

(** For a drive-letter path, both URI spellings resolve as the bare path. *)
Lemma file_uri_of_drive_path (host : Host) (p : jsstring) :
  isWindowsDrivePath p = true ->
  localFileToBase64Url host (js "file:///" ++ p) = localFileToBase64Url host p
  /\ localFileToBase64Url host (js "file://" ++ p) = localFileToBase64Url host p.
Proof.
  intros Hp. pose proof (drive_path_not_file_uri p Hp) as Hn.
  assert (Hn3 : startsWith p (js "file:///") = false).
  { unfold startsWith in *.
    destruct (strip_prefix (js "file:///") p) as [r|] eqn:E; [|reflexivity].
    apply strip_prefix_app in E. subst p. discriminate Hn. }
  assert (Hd : exists d q, p = d :: q /\ d <> 47%N).
  { destruct p as [|d [|c [|s q]]]; try discriminate.
    exists d, (c :: s :: q). split; [reflexivity|]. intros ->. discriminate Hp. }
  destruct Hd as (d & q & -> & Hd).
  unfold localFileToBase64Url. rewrite Hn, Hn3. split.
  - reflexivity.
  - replace (startsWith (js "file://" ++ d :: q) (js "file:///")) with false.
    + reflexivity.
    + unfold startsWith.
      change (js "file:///") with (js "file://" ++ [47%N]).
      rewrite strip_prefix_common. cbn [strip_prefix].
      destruct (N.eqb_spec 47 d) as [<-|]; [now destruct Hd|reflexivity].
Qed.

(** For a path that starts with one [/], the URI spelling is resolved
    without that [/]: as a path relative to the working directory. *)
Lemma file_uri_of_unix_path (host : Host) (p : jsstring) :
  localFileToBase64Url host (js "file://" ++ 47%N :: p)
  = match fs_read host (map (fun c => if (c =? 47)%N then path_sep host else c) p) with
    | Some buffer => Some (js "base64://" ++ base64 buffer)
    | None => None
    end.
Proof. reflexivity. Qed.

(** C9 (code bug): on a POSIX host where [/tmp/reply.png] exists, the bare
    path resolves to the base64 payload of the file, and its [file://] URI
    does not resolve: [slice(8)] also removes the root [/]. *)
Theorem file_uri_of_unix_path_not_resolved :
  isLocalFilePath (js "/tmp/reply.png") = true
  /\ isLocalFilePath (js "file:///tmp/reply.png") = true
  /\ localFileToBase64Url (host_with_png gateway_ok) (js "/tmp/reply.png")
     = Some (js "base64://iVBORw==")
  /\ localFileToBase64Url (host_with_png gateway_ok) (js "file:///tmp/reply.png")
     = None
  /\ fst (deliverMediaToOneBot (host_with_png gateway_ok) open_config
            private_target (js "file:///tmp/reply.png") None [])
     = Ok false.
Proof. vm_compute. auto 10. Qed.

(** ** Mention stripping *)

Lemma atPattern_at_start (s : jsstring) :
  atPattern s = None <-> at_start s = false.
Proof.
  unfold atPattern, at_start. destruct s as [|c [|c2 r]].
  - tauto.
  - destruct (c =? 64)%N; cbn [span]; tauto.
  - destruct (c =? 64)%N; cbn [span andb]; [|tauto].
    destruct (isWhiteSpace c2); cbn [negb].
    + tauto.
    + destruct (span (fun c0 => negb (isWhiteSpace c0)) r). split; discriminate.
Qed.

Lemma atPattern_consuming : consuming atPattern.
Proof.
  intros s x rest H. unfold atPattern in H.
  destruct s as [|c r]; [discriminate|].
  destruct (c =? 64)%N; [|discriminate].
  destruct (span (fun c0 => negb (isWhiteSpace c0)) r) as [a b] eqn:Es.
  destruct a as [|a0 a]; [discriminate|]. inversion H; subst.
  apply span_length in Es. pose proof (dropWhile_length isWhiteSpace b).
  simpl in *. lia.
Qed.

Lemma regex_exec_atPattern_None (s : jsstring) :
  regex_exec atPattern s = None <-> no_at s = true.
Proof.
  induction s as [|c s IH].
  - cbn. tauto.
  - cbn [regex_exec no_at].
    destruct (atPattern (c :: s)) as [[x r]|] eqn:E.
    + assert (at_start (c :: s) = true) as ->.
      { destruct (at_start (c :: s)) eqn:Ea; [reflexivity|].
        apply atPattern_at_start in Ea. congruence. }
      split; discriminate.
    + apply atPattern_at_start in E. rewrite E. cbn [negb andb].
      destruct (regex_exec atPattern s) as [[[b x] r]|].
      * split; [discriminate|]. intros H. apply IH in H. discriminate.
      * split; [intros _; now apply IH|reflexivity].
Qed.

Lemma no_at_tail (c : N) (s : jsstring) : no_at (c :: s) = true -> no_at s = true.
Proof. cbn [no_at]. intros H. now apply andb_prop in H as [_ H]. Qed.

Lemma no_at_suffix (a b : jsstring) : no_at (a ++ b) = true -> no_at b = true.
Proof.
  induction a as [|c a IH]; [trivial|]. intros H. apply IH.
  now apply no_at_tail in H.
Qed.

Lemma no_at_prefix (a b : jsstring) : no_at (a ++ b) = true -> no_at a = true.
Proof.
  induction a as [|c a IH]; [reflexivity|].
  cbn [app no_at]. intros H. apply andb_prop in H as [H1 H2].
  rewrite (IH H2), andb_true_r.
  destruct a as [|c2 a]; [reflexivity|]. exact H1.
Qed.

Lemma ends_with_at_cons (c c2 : N) (a : jsstring) :
  ends_with_at (c :: c2 :: a) = ends_with_at (c2 :: a).
Proof.
  unfold ends_with_at. cbn [rev].
  destruct (rev a ++ [c2]) as [|x l] eqn:E.
  - now destruct (rev a).
  - reflexivity.
Qed.

(** Joining two texts without token starts creates none, unless the first
    ends with [@]. *)
Lemma no_at_app (a b : jsstring) :
  no_at a = true -> no_at b = true -> ends_with_at a = false ->
  no_at (a ++ b) = true.
Proof.
  induction a as [|c a IH]; intros Ha Hb He; [exact Hb|].
  cbn [app no_at]. cbn [no_at] in Ha. apply andb_prop in Ha as [Ha1 Ha2].
  destruct a as [|c2 a].
  - cbn [app]. rewrite Hb, andb_true_r.
    unfold ends_with_at in He. cbn in He.
    unfold at_start. destruct b as [|c2 b]; [reflexivity|].
    rewrite He. reflexivity.
  - rewrite ends_with_at_cons in He. rewrite (IH Ha2 Hb He), andb_true_r.
    exact Ha1.
Qed.

(** What [regex_exec] skips before a token has no token start and does not
    end with [@]. *)
Lemma regex_exec_atPattern_before (s before rest : jsstring) (x : unit) :
  regex_exec atPattern s = Some (before, x, rest) ->
  no_at before = true /\ ends_with_at before = false.
Proof.
  revert before. induction s as [|c s IH]; intros before H; cbn [regex_exec] in H.
  - destruct (atPattern []) as [[y r]|]; [|discriminate]. now inversion H.
  - destruct (atPattern (c :: s)) as [[y r]|] eqn:E.
    + now inversion H.
    + destruct (regex_exec atPattern s) as [[[b y] r]|] eqn:E2; [|discriminate].
      inversion H; subst. destruct (IH _ eq_refl) as [Hn He].
      apply atPattern_at_start in E.
      destruct (regex_exec_split _ _ _ _ _ E2) as (t & -> & Ht).
      destruct b as [|c2 b].
      * cbn [app] in E. split; [reflexivity|].
        assert (Hs : at_start t = true).
        { destruct (at_start t) eqn:Ea; [reflexivity|].
          apply atPattern_at_start in Ea. congruence. }
        unfold at_start in Hs. destruct t as [|t1 [|t2 t]]; try discriminate.
        apply andb_prop in Hs as [Hs1 Hs2]. apply N.eqb_eq in Hs1. subst t1.
        unfold at_start in E. unfold ends_with_at. cbn.
        destruct (c =? 64)%N; [discriminate E|reflexivity].
      * rewrite ends_with_at_cons. split; [|exact He].
        change (no_at (c :: c2 :: b))
          with (negb (at_start (c :: c2 :: b)) && no_at (c2 :: b)).
        rewrite Hn, andb_true_r. cbn [app] in E.
        unfold at_start in *. now rewrite E.
Qed.

(** With [length s] turns, [replace] leaves no token start: it ran to the
    end of the text. *)
Lemma remove_all_no_at (fuel : nat) (s : jsstring) :
  (length s <= fuel)%nat ->
  no_at (regex_remove_all atPattern fuel s) = true.
Proof.
  revert s. induction fuel as [|fuel IH]; intros s Hlen; cbn [regex_remove_all].
  - destruct s; [reflexivity|simpl in Hlen; lia].
  - destruct (regex_exec atPattern s) as [[[before x] rest]|] eqn:E.
    + destruct (regex_exec_atPattern_before _ _ _ _ E) as [Hn He].
      apply no_at_app; [exact Hn| |exact He]. apply IH.
      pose proof (regex_exec_shrinks _ _ _ _ _ atPattern_consuming E). lia.
    + now apply regex_exec_atPattern_None.
Qed.

Lemma dropWhile_suffix (p : N -> bool) (s : jsstring) :
  exists a, s = a ++ dropWhile p s.
Proof.
  induction s as [|c s [a IH]]; [now exists []|]. cbn [dropWhile].
  destruct (p c).
  - exists (c :: a). cbn [app]. now rewrite <- IH.
  - now exists [].
Qed.

Lemma no_at_trim (s : jsstring) : no_at s = true -> no_at (trim s) = true.
Proof.
  intros H. unfold trim, trimEnd, trimStart.
  destruct (dropWhile_suffix isWhiteSpace s) as [a Ha].
  rewrite Ha in H. apply no_at_suffix in H.
  destruct (dropWhile_suffix isWhiteSpace (rev (dropWhile isWhiteSpace s))) as [b Hb].
  apply (f_equal (@rev N)) in Hb. rewrite rev_involutive, rev_app_distr in Hb.
  rewrite Hb in H. now apply no_at_prefix in H.
Qed.

Lemma stripMentions_no_token (rawBody : jsstring) :
  regex_test atPattern (stripMentions rawBody) = false.
Proof.
  unfold regex_test, stripMentions.
  assert (H : no_at (trim (regex_remove_all atPattern (length rawBody) rawBody)) = true)
    by (apply no_at_trim, remove_all_no_at; lia).
  apply regex_exec_atPattern_None in H. now rewrite H.
Qed.

Lemma no_at_sign_no_at (s : jsstring) : ~ In 64%N s -> no_at s = true.
Proof.
  induction s as [|c s IH]; intros H; [reflexivity|].
  cbn [no_at]. rewrite IH by (intros Hin; apply H; now right).
  rewrite andb_true_r. unfold at_start. destruct s as [|c2 s]; [reflexivity|].
  destruct (N.eqb_spec c 64) as [->|]; [|reflexivity].
  exfalso. apply H. now left.
Qed.

Lemma stripMentions_without_at (rawBody : jsstring) :
  ~ In 64%N rawBody -> stripMentions rawBody = trim rawBody.
Proof.
  intros H. unfold stripMentions. f_equal.
  apply no_at_sign_no_at, regex_exec_atPattern_None in H.
  destruct rawBody; cbn [length regex_remove_all]; [reflexivity|].
  now rewrite H.
Qed.

Lemma regex_remove_all_fuel {M} (m : matcher M) :
  consuming m ->
  forall (fuel : nat) (s : jsstring),
    (length s <= fuel)%nat ->
    regex_remove_all m fuel s = regex_remove_all m (length s) s.
Proof.
  intros Hc.
  assert (Hstrong : forall n fuel1 fuel2 s,
             (length s <= n)%nat -> (length s <= fuel1)%nat ->
             (length s <= fuel2)%nat ->
             regex_remove_all m fuel1 s = regex_remove_all m fuel2 s).
  { induction n as [|n IH]; intros fuel1 fuel2 s Hn H1 H2.
    - destruct s; [|simpl in Hn; lia].
      assert (Hnil : regex_exec m [] = None).
      { cbn. destruct (m []) as [[x r]|] eqn:E; [|reflexivity].
        apply Hc in E. simpl in E. lia. }
      destruct fuel1, fuel2; cbn [regex_remove_all]; rewrite ?Hnil; reflexivity.
    - destruct (regex_exec m s) as [[[b x] r]|] eqn:E.
      + pose proof (regex_exec_shrinks _ _ _ _ _ Hc E) as Hs.
        destruct fuel1 as [|fuel1]; [lia|]. destruct fuel2 as [|fuel2]; [lia|].
        cbn [regex_remove_all]. rewrite E. f_equal. apply IH; lia.
      + destruct fuel1, fuel2; cbn [regex_remove_all]; rewrite ?E; reflexivity. }
  intros fuel s H. apply (Hstrong (length s)); lia.
Qed.

Lemma span_all (p : N -> bool) (a rest : jsstring) :
  Forall (fun c => p c = true) a ->
  match rest with [] => True | c :: _ => p c = false end ->
  span p (a ++ rest) = (a, rest).
Proof.
  intros Ha Hr. induction Ha as [|c a Hc Ha IH]; cbn [app span].
  - destruct rest as [|c r]; [reflexivity|]. cbn [span]. now rewrite Hr.
  - now rewrite Hc, IH.
Qed.

Lemma dropWhile_all (p : N -> bool) (a rest : jsstring) :
  Forall (fun c => p c = true) a ->
  match rest with [] => True | c :: _ => p c = false end ->
  dropWhile p (a ++ rest) = rest.
Proof.
  intros Ha Hr. induction Ha as [|c a Hc Ha IH]; cbn [app dropWhile].
  - destruct rest as [|c r]; [reflexivity|]. cbn [dropWhile]. now rewrite Hr.
  - now rewrite Hc, IH.
Qed.

(** A token at any position is removed with the white space after it; the
    text before it is kept and the removal goes on in the text after it. *)
Lemma stripMentions_token_anywhere (a tok ws b : jsstring) :
  ~ In 64%N a ->
  tok <> [] -> Forall (fun c => isWhiteSpace c = false) tok ->
  ws <> [] -> Forall (fun c => isWhiteSpace c = true) ws ->
  match b with [] => True | c :: _ => isWhiteSpace c = false end ->
  stripMentions (a ++ 64%N :: tok ++ ws ++ b)
  = trim (a ++ regex_remove_all atPattern (length b) b).
Proof.
  intros Ha Htok Hns Hws Hsp Hb. unfold stripMentions. f_equal.
  set (s := a ++ 64%N :: tok ++ ws ++ b).
  assert (Hm : atPattern (64%N :: tok ++ ws ++ b) = Some (tt, b)).
  { unfold atPattern. cbn [N.eqb Pos.eqb].
    rewrite (span_all (fun c => negb (isWhiteSpace c)) tok (ws ++ b)).
    - destruct tok; [now destruct Htok|]. now rewrite dropWhile_all.
    - eapply Forall_impl; [exact Hns|]. cbn. intros c ->. reflexivity.
    - destruct ws as [|w ws]; [now destruct Hws|]. cbn [app].
      inversion Hsp; subst. now rewrite H1. }
  assert (He : regex_exec atPattern s = Some (a, tt, b)).
  { unfold s. clear s. induction a as [|c a IH]; cbn [app regex_exec].
    - now rewrite Hm.
    - assert (Hc : c <> 64%N) by (intros ->; apply Ha; now left).
      assert (Hnone : atPattern (c :: a ++ 64%N :: tok ++ ws ++ b) = None).
      { unfold atPattern. destruct (N.eqb_spec c 64); [contradiction|reflexivity]. }
      rewrite Hnone, IH; [reflexivity|]. intros Hin. apply Ha. now right. }
  assert (Hlen : length s = S (length a + length tok + length ws + length b)).
  { unfold s. rewrite length_app. cbn [length]. rewrite !length_app. lia. }
  rewrite Hlen. cbn [regex_remove_all]. rewrite He. f_equal.
  apply (regex_remove_all_fuel _ atPattern_consuming). lia.
Qed.

(** C3, as amended: when the bot is mentioned, every [@] token of the text
    is removed, wherever it stands, and the result is trimmed: no token is
    left, a text without [@] is only trimmed, and a token in the middle of
    the text goes with the white space after it while the text before it is
    kept. *)
Theorem mention_strip_removes_every_token (host : Host)
    (onebotConfig : OneBotConfig) (event : OneBotMessageEvent) :
  wasMentioned onebotConfig event = true ->
  regex_test atPattern (bodyAfterMention host onebotConfig event) = false
  /\ (~ In 64%N (bodyWithFiles host event) ->
      bodyAfterMention host onebotConfig event = trim (bodyWithFiles host event))
  /\ (forall a tok ws b,
        bodyWithFiles host event = a ++ 64%N :: tok ++ ws ++ b ->
        ~ In 64%N a ->
        tok <> [] -> Forall (fun c => isWhiteSpace c = false) tok ->
        ws <> [] -> Forall (fun c => isWhiteSpace c = true) ws ->
        match b with [] => True | c :: _ => isWhiteSpace c = false end ->
        bodyAfterMention host onebotConfig event
        = trim (a ++ regex_remove_all atPattern (length b) b)).
Proof.
  intros Hm. unfold bodyAfterMention. rewrite Hm. split; [|split].
  - apply stripMentions_no_token.
  - apply stripMentions_without_at.
  - intros a tok ws b -> Ha Htok Hns Hws Hsp Hb.
    now apply stripMentions_token_anywhere.
Qed.

Lemma mention_strip_removes_every_token_witness :
  wasMentioned open_config group_hello = true
  /\ regex_test atPattern
       (bodyAfterMention (posix_host [] gateway_ok) open_config group_hello)
     = false.
Proof.
  split; [reflexivity|].
  apply (mention_strip_removes_every_token (posix_host [] gateway_ok)
           open_config group_hello).
  reflexivity.
Defined.

(** C3 as stated fails: on an accepted group event that required and
    carried a mention, the tokens in the middle of the text are removed,
    whereas stripping one leading token would leave the text as it is. *)
Lemma leading_mention_counterexample :
  wasMentioned open_config group_hello = true
  /\ groupGate open_config group_hello = None
  /\ bodyWithFiles (posix_host [] gateway_ok) group_hello
     = js "hello @bob see a@b.c now"
  /\ spec_stripLeadingMention (bodyWithFiles (posix_host [] gateway_ok) group_hello)
     = js "hello @bob see a@b.c now"
  /\ bodyAfterMention (posix_host [] gateway_ok) open_config group_hello
     = js "hello see anow"
  /\ bodyAfterMention (posix_host [] gateway_ok) open_config group_hello
     <> spec_stripLeadingMention
          (bodyWithFiles (posix_host [] gateway_ok) group_hello).
Proof. vm_compute. repeat split; discriminate. Qed.

(** ** Policy gate *)

Lemma groupGate_accepts (onebotConfig : OneBotConfig)
    (event : OneBotMessageEvent) :
  accept_conditions onebotConfig event -> groupGate onebotConfig event = None.
Proof.
  unfold accept_conditions, groupGate.
  intros (Hp & Ha & He & Hm).
  destruct (isGroup event); [|reflexivity].
  destruct (default GroupAllowlist (groupPolicy onebotConfig)) eqn:Ep;
    [| |now destruct Hp].
  - rewrite bool_decide_eq_false_2 by exact He.
    destruct (default true (effectiveGroupConfig onebotConfig (group_id event)
                              ≫= requireMention)) eqn:Er.
    + rewrite (Hm eq_refl). reflexivity.
    + reflexivity.
  - destruct (effectiveGroupConfig onebotConfig (group_id event)) as [g|] eqn:Eg;
      [|now destruct (Ha eq_refl)].
    rewrite bool_decide_eq_false_2 by exact He.
    destruct (default true (Some g ≫= requireMention)) eqn:Er.
    + rewrite (Hm eq_refl). reflexivity.
    + reflexivity.
Qed.


Lemma groupGate_private (onebotConfig : OneBotConfig)
    (event : OneBotMessageEvent) :
  message_type event = Private -> groupGate onebotConfig event = None.
Proof. unfold groupGate, isGroup. now intros ->. Qed.

(** C1, as amended: a group event that meets the accept conditions passes
    the group checks of [processOneBotMessage]; it is dispatched when it has
    content (text left after the mention is stripped, or a media item with
    a local path) and skipped as empty otherwise.  [handleOneBotWebhook]
    ignores every group message before [processOneBotMessage] is called. *)
Theorem group_event_passes_gate_but_webhook_ignores_it (host : Host)
    (onebotConfig : OneBotConfig) (event : OneBotMessageEvent) :
  message_type event = Group ->
  enabled onebotConfig = Some true ->
  accept_conditions onebotConfig event ->
  handleOneBotWebhook host (Some onebotConfig) (Some (EventMessage event))
  = IgnoredGroupMessage
  /\ groupGate onebotConfig event = None
  /\ (truthy_str (bodyAfterMention host onebotConfig event) = true
      \/ mediaPaths (materialize host (extractMediaFromMessage (message event)))
         <> [] ->
      exists ctx, processOneBotMessage host onebotConfig event = Dispatched ctx)
  /\ (truthy_str (bodyAfterMention host onebotConfig event) = false ->
      mediaPaths (materialize host (extractMediaFromMessage (message event))) = [] ->
      processOneBotMessage host onebotConfig event = Skipped SkipEmptyMessage).
Proof.
  intros Hg Hen Hacc. pose proof (groupGate_accepts _ _ Hacc) as Hgate.
  split; [|split; [exact Hgate|split]].
  - unfold handleOneBotWebhook. rewrite Hen, Hg.
    rewrite bool_decide_eq_true_2 by reflexivity. reflexivity.
  - intros Hc. unfold processOneBotMessage. rewrite Hgate.
    destruct Hc as [Hb|Hmp].
    + rewrite Hb. cbn [negb andb]. eauto.
    + rewrite (bool_decide_eq_false_2 _ Hmp). cbn [negb].
      rewrite andb_false_r. eauto.
  - intros Hb Hmp. unfold processOneBotMessage. rewrite Hb, Hmp.
    rewrite bool_decide_eq_true_2 by reflexivity. reflexivity.
Qed.

Lemma group_event_passes_gate_but_webhook_ignores_it_witness :
  (message_type group_hello = Group
   /\ enabled open_config = Some true
   /\ accept_conditions open_config group_hello)
  /\ handleOneBotWebhook (posix_host [] gateway_ok) (Some open_config)
       (Some (EventMessage group_hello))
     = IgnoredGroupMessage.
Proof.
  assert (Hacc : accept_conditions open_config group_hello).
  { unfold accept_conditions. repeat split; try discriminate. }
  split; [split; [reflexivity|split; [reflexivity|exact Hacc]]|].
  apply (group_event_passes_gate_but_webhook_ignores_it
           (posix_host [] gateway_ok) open_config group_hello);
    [reflexivity|reflexivity|exact Hacc].
Defined.

(** C1 as stated fails: a group event that meets every accept condition
    and mentions the bot is dropped by the webhook handler, and a group
    event that holds nothing but the mention is skipped as empty by
    [processOneBotMessage]. *)
Lemma accepted_group_event_counterexample :
  accept_conditions open_config group_hello
  /\ (exists ctx, processOneBotMessage (posix_host [] gateway_ok) open_config
                    group_hello = Dispatched ctx)
  /\ handleOneBotWebhook (posix_host [] gateway_ok) (Some open_config)
       (Some (EventMessage group_hello))
     = IgnoredGroupMessage
  /\ accept_conditions open_config group_only_mention
  /\ processOneBotMessage (posix_host [] gateway_ok) open_config
       group_only_mention
     = Skipped SkipEmptyMessage.
Proof.
  split; [unfold accept_conditions; repeat split; discriminate|].
  split; [eexists; vm_compute; reflexivity|].
  split; [reflexivity|].
  split; [unfold accept_conditions; repeat split; discriminate|].
  vm_compute. reflexivity.
Qed.

(** ** Placeholders for media without text *)

Lemma placeholder_nonempty (m : ExtractedMedia) : placeholder m <> [].
Proof. unfold placeholder. destruct (media_type m); discriminate. Qed.

Lemma placeholders_nonempty (l : list ExtractedMedia) :
  l <> [] -> join (js " ") (map placeholder l) <> [].
Proof.
  destruct l as [|m l]; [congruence|]. intros _.
  pose proof (placeholder_nonempty m) as Hm.
  cbn [map join]. destruct (map placeholder l);
    destruct (placeholder m); try congruence; discriminate.
Qed.



(** The body is the trimmed extracted text when no note is appended and
    the bot is not mentioned; in particular it is empty when that text is. *)
Lemma body_without_notes (host : Host) (onebotConfig : OneBotConfig)
    (event : OneBotMessageEvent) :
  fileContents (materialize host (extractMediaFromMessage (message event))) = [] ->
  wasMentioned onebotConfig event = false ->
  bodyAfterMention host onebotConfig event
  = trim (extractTextFromMessage (message event)).
Proof.
  intros Hn Hm. unfold bodyAfterMention, bodyWithFiles. now rewrite Hm, Hn.
Qed.




(** With a note appended the body is not empty: an image with a local path
    and a readable local file, without text, are handed to the agent under
    the file note, not under placeholders. *)
Example file_note_is_the_body :
  exists ctx,
    processOneBotMessage (host_with_png gateway_ok) open_config
      private_image_and_file = Dispatched ctx
    /\ RawBody ctx = nl ++ js "[收到文件: reply.png, 大小: 0KB]".
Proof. eexists. split; vm_compute; reflexivity. Qed.

(** A voice message given by a remote URL is recorded in [mediaUrls] and
    flagged as inbound audio, yet gets no local path either: alone, it is
    skipped as empty. *)
Example remote_voice_alone_is_skipped :
  mediaUrls (materialize (posix_host [] gateway_ok)
               (extractMediaFromMessage (message private_remote_voice)))
  = [js "https://gchat.example/v.amr"]
  /\ processOneBotMessage (posix_host [] gateway_ok) open_config
       private_remote_voice
     = Skipped SkipEmptyMessage.
Proof. vm_compute. auto. Qed.

(** * Further properties *)

(** ** Segment codec *)

(** X1: the extracted text of two sequences put end to end is the two
    extracted texts put end to end: extraction reads the segments one by
    one, in order. *)
Theorem extractText_app (a b : list OneBotMessage) :
  extractTextFromMessage (a ++ b)
  = extractTextFromMessage a ++ extractTextFromMessage b.
Proof. rewrite !extractText_concat, map_app. apply concat_app. Qed.

Lemma extractMedia_step_app (media : list ExtractedMedia) (seg : OneBotMessage) :
  extractMedia_step media seg = media ++ segment_media seg.
Proof.
  unfold segment_media, extractMedia_step.
  destruct seg; rewrite ?app_nil_r; try reflexivity.
  - destruct (truthy_opt url || truthy_str file); now rewrite ?app_nil_r.
  - destruct (truthy_opt url || truthy_str file); now rewrite ?app_nil_r.
  - destruct (truthy_opt url || truthy_str file); now rewrite ?app_nil_r.
  - destruct (or_opt url file) as [fileUrl|]; [|now rewrite app_nil_r].
    destruct (truthy_str fileUrl); now rewrite ?app_nil_r.
  - destruct (truthy_opt url); now rewrite ?app_nil_r.
Qed.

Lemma extractMedia_fold (message : list OneBotMessage)
    (media : list ExtractedMedia) :
  fold_left extractMedia_step message media
  = media ++ concat (map segment_media message).
Proof.
  revert media. induction message as [|seg message IH]; intros media;
    cbn [fold_left map concat].
  - now rewrite app_nil_r.
  - rewrite IH, extractMedia_step_app. now rewrite <- app_assoc.
Qed.

Lemma extractMedia_concat (message : list OneBotMessage) :
  extractMediaFromMessage message = concat (map segment_media message).
Proof. unfold extractMediaFromMessage. now rewrite extractMedia_fold. Qed.

Lemma or_str_truthy (a : option jsstring) (b : jsstring) :
  truthy_opt a || truthy_str b = true -> or_str a b <> [].
Proof.
  unfold or_str, truthy_opt. destruct a as [[|c a]|], b as [|c' b];
    cbn; congruence.
Qed.

Lemma segment_media_urls (seg : OneBotMessage) :
  Forall (fun m => media_url m <> []) (segment_media seg)
  /\ (length (segment_media seg) <= 1)%nat.
Proof.
  unfold segment_media, extractMedia_step. destruct seg; cbn [app];
    try (split; [constructor|cbn; lia]).
  - destruct (truthy_opt url || truthy_str file) eqn:E;
      (split; [|cbn; lia]); repeat constructor. now apply or_str_truthy.
  - destruct (truthy_opt url || truthy_str file) eqn:E;
      (split; [|cbn; lia]); repeat constructor. now apply or_str_truthy.
  - destruct (truthy_opt url || truthy_str file) eqn:E;
      (split; [|cbn; lia]); repeat constructor. now apply or_str_truthy.
  - destruct (or_opt url file) as [fileUrl|]; [|split; [constructor|cbn; lia]].
    destruct (truthy_str fileUrl) eqn:E; (split; [|cbn; lia]);
      repeat constructor. cbn. now destruct fileUrl.
  - destruct (truthy_opt url) eqn:E; (split; [|cbn; lia]); repeat constructor.
    cbn. apply or_str_truthy. now rewrite E.
Qed.

(** X2: media extraction reads the segments one by one, in order; a
    segment gives at most one item, and every item has a non-empty url (a
    segment with neither [url] nor [file] is dropped). *)
Theorem extractMedia_in_order (a b : list OneBotMessage) :
  extractMediaFromMessage (a ++ b)
  = extractMediaFromMessage a ++ extractMediaFromMessage b
  /\ Forall (fun m => media_url m <> []) (extractMediaFromMessage a)
  /\ (length (extractMediaFromMessage a) <= length a)%nat.
Proof.
  rewrite !extractMedia_concat, map_app, concat_app.
  split; [reflexivity|].
  induction a as [|seg a [IHu IHl]]; cbn [map concat length].
  - split; [constructor|lia].
  - destruct (segment_media_urls seg) as [Hu Hl].
    rewrite length_app. split; [|lia]. apply Forall_app. now split.
Qed.

(** X3: [isAtUser] holds exactly when some [at] segment, at any position,
    names the user id (as a string) or [all]; an [@] typed in the text of a
    message is no mention, whatever follows it. *)
Theorem isAtUser_iff (message : list OneBotMessage) (userId : ident) :
  (isAtUser message userId = true
   <-> exists qq,
         In (MsgAt qq) message
         /\ (qq = String_of_ident userId \/ qq = js "all"))
  /\ (forall texts, isAtUser (map MsgText texts) userId = false).
Proof.
  unfold isAtUser. split.
  - rewrite existsb_exists. split.
    + intros (seg & Hin & H). destruct seg; try discriminate.
      exists qq. split; [exact Hin|]. unfold jseqb in H.
      apply orb_prop in H as [H|H]; apply bool_decide_eq_true in H; auto.
    + intros (qq & Hin & H). exists (MsgAt qq). split; [exact Hin|].
      unfold jseqb. apply orb_true_iff.
      destruct H as [H|H]; [left|right]; now apply bool_decide_eq_true.
  - intros texts. induction texts as [|t texts IH]; [reflexivity|exact IH].
Qed.

(** X4: once the [at] segments are removed, no one is mentioned any more,
    while the extracted text and the extracted media are what they were;
    removing them twice changes nothing more. *)
Theorem removeAtSegments_keeps_content (message : list OneBotMessage)
    (userId : ident) :
  isAtUser (removeAtSegments message) userId = false
  /\ extractTextFromMessage (removeAtSegments message)
     = extractTextFromMessage message
  /\ extractMediaFromMessage (removeAtSegments message)
     = extractMediaFromMessage message
  /\ removeAtSegments (removeAtSegments message) = removeAtSegments message.
Proof.
  rewrite !extractText_concat, !extractMedia_concat.
  unfold removeAtSegments, isAtUser.
  induction message as [|seg message (IH1 & IH2 & IH3 & IH4)];
    [repeat split|].
  destruct seg; cbn [List.filter existsb map concat orb];
    rewrite ?IH1, ?IH2, ?IH3, ?IH4; repeat split; reflexivity.
Qed.

(** ** Policy gate and envelope *)

Lemma groupGate_conditions (onebotConfig : OneBotConfig)
    (event : OneBotMessageEvent) :
  message_type event = Group ->
  groupGate onebotConfig event = None ->
  accept_conditions onebotConfig event.
Proof.
  unfold groupGate, accept_conditions, isGroup. intros -> H.
  destruct (default GroupAllowlist (groupPolicy onebotConfig)) eqn:Ep;
    [| |discriminate].
  - split; [discriminate|]. split; [discriminate|].
    destruct (bool_decide _) eqn:Ee; [discriminate|].
    apply bool_decide_eq_false in Ee. split; [exact Ee|].
    intros Hr. rewrite Hr in H.
    destruct (wasMentioned onebotConfig event); [reflexivity|discriminate].
  - split; [discriminate|].
    destruct (effectiveGroupConfig onebotConfig (group_id event)) as [g|] eqn:Eg;
      [|discriminate].
    split; [discriminate|].
    destruct (bool_decide _) eqn:Ee; [discriminate|].
    apply bool_decide_eq_false in Ee. split; [exact Ee|].
    intros Hr. rewrite Hr in H.
    destruct (wasMentioned onebotConfig event); [reflexivity|discriminate].
Qed.

(** X5: the group checks let an event through exactly when it is a private
    event or a group event that meets the accept conditions: the policy is
    not [disabled], an entry exists under [allowlist], the entry does not
    disable the group, and the bot is mentioned when a mention is
    required. *)
Theorem groupGate_None_iff (onebotConfig : OneBotConfig)
    (event : OneBotMessageEvent) :
  groupGate onebotConfig event = None
  <-> message_type event = Private \/ accept_conditions onebotConfig event.
Proof.
  split.
  - intros H. destruct (message_type event) eqn:Et; [now left|right].
    now apply groupGate_conditions.
  - intros [H|H]; [now apply groupGate_private|now apply groupGate_accepts].
Qed.

Lemma dispatched_passes_gate (host : Host) (onebotConfig : OneBotConfig)
    (event : OneBotMessageEvent) (ctx : InboundContext) :
  processOneBotMessage host onebotConfig event = Dispatched ctx ->
  groupGate onebotConfig event = None.
Proof.
  unfold processOneBotMessage. intros H.
  destruct (negb _ && negb _); [discriminate|].
  destruct (groupGate onebotConfig event); [discriminate|reflexivity].
Qed.

(** X6: whatever is dispatched has a body that is not empty, given both as
    [RawBody] and as [CommandBody]; the media fields are present exactly
    when some media item has a local path; the mention flag is present
    exactly for group events; and the event passed the group checks. *)
Theorem dispatched_context_invariants (host : Host)
    (onebotConfig : OneBotConfig) (event : OneBotMessageEvent)
    (ctx : InboundContext) :
  processOneBotMessage host onebotConfig event = Dispatched ctx ->
  RawBody ctx <> []
  /\ CommandBody ctx = RawBody ctx
  /\ (Media ctx = None
      <-> mediaPaths (materialize host
                        (extractMediaFromMessage (message event))) = [])
  /\ (WasMentioned ctx = None <-> message_type event = Private)
  /\ groupGate onebotConfig event = None.
Proof.
  unfold processOneBotMessage.
  set (m := materialize host (extractMediaFromMessage (message event))).
  set (body := bodyAfterMention host onebotConfig event).
  intros H.
  destruct (negb (truthy_str body) && negb (negb (bool_decide (mediaPaths m = []))))
    eqn:Eempty; [discriminate|].
  destruct (groupGate onebotConfig event) eqn:Eg; [discriminate|].
  inversion H; subst ctx. cbn [RawBody CommandBody Media WasMentioned buildContext].
  split; [|split; [reflexivity|split; [|split; [|reflexivity]]]].
  - destruct (truthy_str body) eqn:Eb; cbn [negb andb] in *.
    + now destruct body.
    + destruct (bool_decide (mediaPaths m = [])) eqn:Em; [discriminate|].
      apply bool_decide_eq_false in Em. cbn [negb].
      apply placeholders_nonempty. intros E. apply Em. unfold m. now rewrite E.
  - fold m. destruct (mediaPaths m); split; intros; congruence.
  - unfold isGroup. destruct (message_type event); split; intros; congruence.
Qed.

Lemma dispatched_context_invariants_witness :
  exists ctx,
    processOneBotMessage (posix_host [] gateway_ok) open_config group_hello
    = Dispatched ctx
    /\ RawBody ctx <> [].
Proof.
  eexists. split; [vm_compute; reflexivity|].
  apply (dispatched_context_invariants (posix_host [] gateway_ok) open_config
           group_hello).
  vm_compute. reflexivity.
Defined.

(** X7: under the [allowlist] policy, which is also the policy when none is
    configured, a group event whose group has no entry, by its id or by the
    wildcard, is never dispatched: it is skipped as empty or as not in the
    allow-list. *)
Theorem allowlist_without_entry_rejects (host : Host)
    (onebotConfig : OneBotConfig) (event : OneBotMessageEvent) :
  message_type event = Group ->
  groupPolicy onebotConfig = None
  \/ groupPolicy onebotConfig = Some GroupAllowlist ->
  effectiveGroupConfig onebotConfig (group_id event) = None ->
  processOneBotMessage host onebotConfig event = Skipped SkipEmptyMessage
  \/ processOneBotMessage host onebotConfig event = Skipped SkipNotInAllowlist.
Proof.
  intros Hg Hp He. unfold processOneBotMessage.
  destruct (negb _ && negb _); [now left|right].
  unfold groupGate, isGroup. rewrite Hg, He.
  destruct Hp as [-> | ->]; reflexivity.
Qed.

Lemma allowlist_without_entry_rejects_witness :
  processOneBotMessage (posix_host [] gateway_ok) group_allowlisted group_hello
  = Skipped SkipEmptyMessage
  \/ processOneBotMessage (posix_host [] gateway_ok) group_allowlisted group_hello
     = Skipped SkipNotInAllowlist.
Proof.
  apply (allowlist_without_entry_rejects (posix_host [] gateway_ok)
           group_allowlisted group_hello);
    [reflexivity|left; reflexivity|vm_compute; reflexivity].
Defined.

(** X8: a group entry fully shadows the wildcard entry, and a mention is
    required unless the effective entry says otherwise: a group event whose
    effective entry has no [requireMention] and which does not mention the
    bot is never dispatched. *)
Theorem mention_required_by_default (host : Host)
    (onebotConfig : OneBotConfig) (event : OneBotMessageEvent)
    (gs : gmap jsstring OneBotGroupConfig) (g : OneBotGroupConfig) :
  message_type event = Group ->
  groups onebotConfig = Some gs ->
  gs !! String_of_optZ (group_id event) = Some g ->
  requireMention g = None ->
  wasMentioned onebotConfig event = false ->
  effectiveGroupConfig onebotConfig (group_id event) = Some g
  /\ forall ctx, processOneBotMessage host onebotConfig event <> Dispatched ctx.
Proof.
  intros Hg Hgs Hl Hr Hm.
  assert (He : effectiveGroupConfig onebotConfig (group_id event) = Some g).
  { unfold effectiveGroupConfig. now rewrite Hgs, Hl. }
  split; [exact He|]. intros ctx H.
  apply dispatched_passes_gate in H as Hgate.
  apply groupGate_conditions in Hgate as (_ & _ & _ & Hreq); [|exact Hg].
  rewrite He in Hreq. cbn in Hreq. rewrite Hr in Hreq. cbn in Hreq.
  rewrite Hm in Hreq. now specialize (Hreq eq_refl).
Qed.

Lemma mention_required_by_default_witness :
  wasMentioned group_allowlisted group_plain_hello = false
  /\ effectiveGroupConfig group_allowlisted (group_id group_plain_hello)
     = Some {| group_enabled := None; requireMention := None; users := None |}.
Proof.
  split; [reflexivity|].
  apply (mention_required_by_default (posix_host [] gateway_ok)
           group_allowlisted group_plain_hello
           {[ js "777" := {| group_enabled := None; requireMention := None;
                             users := None |} ]}
           {| group_enabled := None; requireMention := None; users := None |});
    [reflexivity|reflexivity|vm_compute; reflexivity|reflexivity|reflexivity].
Defined.

(** X9: for a private event the group settings and the self id play no
    part: the bot is never taken as mentioned, no [@] token is removed from
    the text, and the event is dispatched unless it is empty. *)
Theorem private_event_ignores_group_settings (host : Host)
    (onebotConfig : OneBotConfig) (event : OneBotMessageEvent) :
  message_type event = Private ->
  wasMentioned onebotConfig event = false
  /\ bodyAfterMention host onebotConfig event = bodyWithFiles host event
  /\ (processOneBotMessage host onebotConfig event = Skipped SkipEmptyMessage
      \/ exists ctx,
           processOneBotMessage host onebotConfig event = Dispatched ctx
           /\ WasMentioned ctx = None).
Proof.
  intros Hp.
  assert (Hm : wasMentioned onebotConfig event = false).
  { unfold wasMentioned, isGroup. rewrite Hp.
    destruct (selfId onebotConfig); reflexivity. }
  split; [exact Hm|]. split.
  - unfold bodyAfterMention. now rewrite Hm.
  - unfold processOneBotMessage. rewrite (groupGate_private _ _ Hp).
    destruct (negb _ && negb _); [now left|right].
    eexists. split; [reflexivity|].
    cbn [WasMentioned buildContext]. unfold isGroup. now rewrite Hp.
Qed.

Lemma private_event_ignores_group_settings_witness :
  bodyAfterMention (posix_host [] gateway_ok) open_config
    (an_event Private None [MsgText (js "mail @bob now")])
  = js "mail @bob now".
Proof.
  rewrite (proj1 (proj2 (private_event_ignores_group_settings
                           (posix_host [] gateway_ok) open_config
                           (an_event Private None [MsgText (js "mail @bob now")])
                           eq_refl))).
  vm_compute. reflexivity.
Defined.

(** ** Media materialisation *)

Lemma materialize_step_unused (host : Host) (st : Materialized)
    (media : ExtractedMedia) :
  media_type media = TVideo \/ usable_url (media_url media) = false ->
  materialize_step host st media = st.
Proof.
  intros H. unfold materialize_step.
  destruct (negb (truthy_str (media_url media))); [reflexivity|].
  destruct H as [H|H].
  - rewrite H. destruct (negb _ && negb _); reflexivity.
  - unfold usable_url in H. rewrite <- orb_assoc in H.
    apply orb_false_elim in H as [H1 H2]. rewrite H1, H2. reflexivity.
Qed.

(** X10: a video, and a media item whose reference is neither an
    [http(s)] URL nor an absolute local path, leave no trace in the
    materialised media; an event that holds only such items and no text is
    skipped as empty. *)
Theorem videos_are_not_materialised (host : Host)
    (onebotConfig : OneBotConfig) (event : OneBotMessageEvent) :
  Forall (fun media => media_type media = TVideo
                       \/ usable_url (media_url media) = false)
    (extractMediaFromMessage (message event)) ->
  materialize host (extractMediaFromMessage (message event)) = no_media
  /\ (truthy_str (trim (extractTextFromMessage (message event))) = false ->
      processOneBotMessage host onebotConfig event = Skipped SkipEmptyMessage).
Proof.
  intros H.
  assert (Hm : materialize host (extractMediaFromMessage (message event))
               = no_media).
  { unfold materialize. revert H. generalize no_media.
    induction (extractMediaFromMessage (message event)) as [|media l IH];
      intros st H; [reflexivity|].
    inversion H as [|? ? Hmedia Hl]; subst. cbn [fold_left].
    rewrite (materialize_step_unused _ _ _ Hmedia). now apply IH. }
  split; [exact Hm|]. intros Ht.
  assert (Hbody : bodyAfterMention host onebotConfig event = []).
  { unfold bodyAfterMention, bodyWithFiles. rewrite Hm. cbn [fileContents no_media].
    destruct (trim (extractTextFromMessage (message event))); [|discriminate].
    destruct (wasMentioned onebotConfig event); reflexivity. }
  unfold processOneBotMessage. rewrite Hbody, Hm. reflexivity.
Qed.

Lemma videos_are_not_materialised_witness :
  processOneBotMessage (posix_host [] gateway_ok) open_config private_video_only
  = Skipped SkipEmptyMessage.
Proof.
  apply (videos_are_not_materialised (posix_host [] gateway_ok) open_config
           private_video_only).
  - set (l := extractMediaFromMessage _). vm_compute in l. subst l.
    repeat (apply List.Forall_cons;
            [first [left; reflexivity | right; reflexivity]|]).
    apply List.Forall_nil.
  - reflexivity.
Defined.

(** ** Numbers as text *)

Lemma js_ascii_cons (c : ascii) (s : string) :
  (N_of_ascii c < 128)%N -> js (String c s) = N_of_ascii c :: js s.
Proof.
  intros H. unfold js. cbn [list_ascii_of_string map utf16_of_utf8].
  apply N.ltb_lt in H. now rewrite H.
Qed.

Lemma js_string_of_uint (d : Decimal.uint) :
  js (NilEmpty.string_of_uint d) = uint_codes d.
Proof.
  induction d; cbn [NilEmpty.string_of_uint uint_codes]; [reflexivity|..];
    rewrite js_ascii_cons by (vm_compute; reflexivity); now rewrite IHd.
Qed.

Lemma uint_codes_digits (d : Decimal.uint) :
  Forall (fun c => isDigit c = true) (uint_codes d).
Proof. induction d; cbn [uint_codes]; constructor; auto. Qed.

Lemma digits_fold (d : Decimal.uint) (acc : Z) :
  fold_left (fun acc d => 10 * acc + (Z.of_N d - 48)) (uint_codes d) acc
  = Z.of_N (Unsigned.of_lu (Decimal.rev d))
    + acc * 10 ^ Z.of_N (Unsigned.usize d).
Proof.
  revert acc.
  induction d; intros acc; cbn [uint_codes fold_left Unsigned.usize];
    [cbn; lia|..];
    unfold Decimal.rev at 1; cbn [Decimal.revapp];
    rewrite (Unsigned.of_lu_revapp d); fold (Decimal.rev d);
    rewrite IHd; cbn [Unsigned.of_lu];
    rewrite N2Z.inj_succ, Z.pow_succ_r by apply N2Z.is_nonneg;
    rewrite N2Z.inj_add, N2Z.inj_mul, N2Z.inj_pow;
    change (Z.of_N 10) with 10;
    generalize (10 ^ Z.of_N (Unsigned.usize d));
    generalize (Z.of_N (Unsigned.of_lu (Decimal.rev d)));
    intros a b; lia.
Qed.

Lemma digits_value_uint (d : Decimal.uint) :
  digits_value (uint_codes d) = Z.of_N (Pos.of_uint d).
Proof.
  unfold digits_value. rewrite digits_fold, Unsigned.of_uint_alt. lia.
Qed.

Lemma digit_not_space (c : N) : isDigit c = true -> isWhiteSpace c = false.
Proof.
  unfold isDigit, isWhiteSpace. intros H.
  apply andb_prop in H as [H1 H2]. apply N.leb_le in H1, H2.
  repeat (match goal with
          | |- context [(?a <=? ?b)%N] => destruct (N.leb_spec a b)
          | |- context [(?a =? ?b)%N] => destruct (N.eqb_spec a b)
          end; try lia).
Qed.

Lemma digit_not_sign (c : N) :
  isDigit c = true -> (c =? 0x2D)%N = false /\ (c =? 0x2B)%N = false.
Proof.
  unfold isDigit. intros H.
  apply andb_prop in H as [H1 H2]. apply N.leb_le in H1, H2.
  split; apply N.eqb_neq; lia.
Qed.

(** [parseInt] of a non-empty run of digits, with or without a minus sign. *)
Lemma parseInt10_digits (ds : jsstring) :
  ds <> [] -> Forall (fun c => isDigit c = true) ds ->
  parseInt10 ds = Num (digits_value ds)
  /\ parseInt10 (0x2D%N :: ds) = Num (- digits_value ds).
Proof.
  intros Hne Hd.
  assert (Hs : span isDigit ds = (ds, [])).
  { rewrite <- (app_nil_r ds) at 1. now apply span_all. }
  destruct ds as [|c t]; [now destruct Hne|].
  inversion Hd as [|? ? Hc Ht]; subst.
  destruct (digit_not_sign c Hc) as [Hm Hp].
  unfold parseInt10, trimStart. split.
  - cbn [dropWhile]. rewrite (digit_not_space c Hc), Hm, Hp. cbv beta iota.
    rewrite Hs. reflexivity.
  - cbn [dropWhile]. change (isWhiteSpace 45) with false. cbv beta iota.
    change (45 =? 45)%N with true. cbv beta iota. rewrite Hs. reflexivity.
Qed.

Lemma to_uint_not_Nil (p : positive) : Pos.to_uint p <> Decimal.Nil.
Proof.
  intros H. pose proof (DecimalPos.Unsigned.of_to p) as E.
  rewrite H in E. discriminate E.
Qed.

Lemma js_string_of_pos (p : positive) :
  js (NilZero.string_of_uint (Pos.to_uint p)) = uint_codes (Pos.to_uint p)
  /\ uint_codes (Pos.to_uint p) <> []
  /\ digits_value (uint_codes (Pos.to_uint p)) = Z.pos p.
Proof.
  pose proof (to_uint_not_Nil p) as Hn.
  split; [|split].
  - rewrite <- js_string_of_uint.
    destruct (Pos.to_uint p); [now destruct Hn|reflexivity..].
  - destruct (Pos.to_uint p); [now destruct Hn|discriminate..].
  - rewrite digits_value_uint, DecimalPos.Unsigned.of_to. reflexivity.
Qed.

(** [String] of a non-negative integer is a non-empty run of digits. *)
Lemma String_of_Z_digits (n : Z) :
  0 <= n ->
  String_of_Z n <> [] /\ Forall (fun c => isDigit c = true) (String_of_Z n).
Proof.
  intros Hn. unfold String_of_Z. destruct n as [|p|p]; [| |lia].
  - split; [discriminate|repeat constructor].
  - cbn [Z.to_int NilZero.string_of_int].
    destruct (js_string_of_pos p) as (-> & Hne & _).
    split; [exact Hne|apply uint_codes_digits].
Qed.

(** [parseInt(String(n), 10)] is [n]. *)
Lemma parseInt10_String_of_Z (n : Z) : parseInt10 (String_of_Z n) = Num n.
Proof.
  unfold String_of_Z. destruct n as [|p|p].
  - reflexivity.
  - cbn [Z.to_int NilZero.string_of_int].
    destruct (js_string_of_pos p) as (-> & Hne & Hv).
    rewrite (proj1 (parseInt10_digits _ Hne (uint_codes_digits _))).
    now rewrite Hv.
  - cbn [Z.to_int NilZero.string_of_int].
    rewrite js_ascii_cons by (vm_compute; reflexivity).
    destruct (js_string_of_pos p) as (-> & Hne & Hv).
    change (N_of_ascii "-") with 45%N.
    rewrite (proj2 (parseInt10_digits _ Hne (uint_codes_digits _))).
    now rewrite Hv.
Qed.

(** ** Face notations *)

Lemma regex_exec_here {M} (m : matcher M) (s rest : jsstring) (x : M) :
  m s = Some (x, rest) -> regex_exec m s = Some ([], x, rest).
Proof. intros H. destruct s; cbn [regex_exec]; now rewrite H. Qed.

Lemma parse_loop_nil (fuel : nat) (segments : list OneBotMessage) :
  parse_loop fuel [] segments = (segments, []).
Proof. destruct fuel; reflexivity. Qed.

(** One notation and nothing else is encoded as the one segment of its
    match. *)
Lemma parse_single_match (text : jsstring) (m : EmojiMatch) :
  emojiPattern text = Some (m, []) ->
  hasEmojiCode text = true /\ parseTextWithEmoji text = [emoji_segment m].
Proof.
  intros H. pose proof (regex_exec_here _ _ _ _ H) as E.
  unfold hasEmojiCode, regex_test, parseTextWithEmoji. rewrite E.
  split; [reflexivity|].
  destruct text as [|c text]; [discriminate H|].
  cbn [length parse_loop]. rewrite E. cbn [truthy_str app].
  rewrite parse_loop_nil. reflexivity.
Qed.

Lemma emojiPattern_face_id (ds : jsstring) :
  ds <> [] -> Forall (fun c => isDigit c = true) ds ->
  emojiPattern (face_open ++ ds ++ [close_bracket])
  = Some (ById (face_open ++ ds ++ [close_bracket]) ds, []).
Proof.
  intros Hne Hd. unfold emojiPattern.
  replace (match_by_name (face_open ++ ds ++ [close_bracket]))
    with (@None (EmojiMatch * jsstring)) by reflexivity.
  unfold match_by_id.
  replace (strip_prefix face_open (face_open ++ ds ++ [close_bracket]))
    with (Some (ds ++ [close_bracket])) by reflexivity.
  rewrite (span_all isDigit ds [close_bracket] Hd eq_refl).
  destruct ds; [now destruct Hne|reflexivity].
Qed.

(** X11: a face id written in decimal is read back as the number: a face
    segment whose id is the string [String(n)] gives the text of the face
    with the numeric id [n], and for [n >= 0] the notation [[face:n]] is
    encoded as the one face segment with id [n], whether or not the table
    or the safe set knows [n]. *)
Theorem decimal_face_id_reads_back (n : Z) :
  extractTextFromMessage [MsgFace (Some (FaceStr (String_of_Z n)))]
  = extractTextFromMessage [a_face n]
  /\ (0 <= n ->
      hasEmojiCode (js "[face:" ++ String_of_Z n ++ js "]") = true
      /\ parseTextWithEmoji (js "[face:" ++ String_of_Z n ++ js "]")
         = [a_face n]).
Proof.
  split.
  - unfold extractTextFromMessage, a_face.
    cbn [fold_left extractText_step face_label].
    now rewrite parseInt10_String_of_Z.
  - intros Hn. destruct (String_of_Z_digits n Hn) as [Hne Hd].
    pose proof (parse_single_match _ _ (emojiPattern_face_id _ Hne Hd)) as H.
    cbn [emoji_segment] in H. rewrite parseInt10_String_of_Z in H. exact H.
Qed.

Lemma stored_names_roundtrip :
  forallb stored_name_roundtrip (map_to_list QQ_FACE_NAME_TO_ID) = true.
Proof. vm_compute. reflexivity. Qed.

Lemma safe_ids_roundtrip :
  forallb safe_id_roundtrip (elements NAPCAT_SAFE_FACE_IDS) = true.
Proof. vm_compute. reflexivity. Qed.

(** X12: the name notation and the face segment are inverse to each other
    on the safe faces: the notation of a name that [getFaceIdByName]
    resolves to an id is encoded as the face with that id, whose text is
    the notation again; and the text of a face with a safe id is encoded
    back as that face.  Face 41, known but not safe, is not: its text
    stays text. *)
Theorem safe_face_name_roundtrip :
  (forall name id,
     getFaceIdByName name = VNum id ->
     parseTextWithEmoji (name_notation name) = [a_face id]
     /\ extractTextFromMessage [a_face id] = name_notation name)
  /\ (forall id,
        safe_has (Num id) = true ->
        parseTextWithEmoji (extractTextFromMessage [a_face id]) = [a_face id])
  /\ (safe_has (Num 41) = false
      /\ extractTextFromMessage [a_face 41] = js "[表情:爱情]"
      /\ parseTextWithEmoji (js "[表情:爱情]") = [MsgText (js "[表情:爱情]")]).
Proof.
  split; [|split].
  - intros name id H. unfold getFaceIdByName, obj_get in H.
    destruct (QQ_FACE_NAME_TO_ID !! name) as [id0|] eqn:E;
      [|destruct (in_prototype name); discriminate].
    inversion H; subst id0.
    pose proof stored_names_roundtrip as Hall. rewrite forallb_forall in Hall.
    apply elem_of_map_to_list, list_elem_of_In in E.
    specialize (Hall _ E). unfold stored_name_roundtrip in Hall.
    cbn [fst snd] in Hall. apply andb_prop in Hall as [H1 H2].
    apply bool_decide_eq_true in H1, H2. now split.
  - intros id H. cbn [safe_has] in H. apply bool_decide_eq_true in H.
    pose proof safe_ids_roundtrip as Hall. rewrite forallb_forall in Hall.
    apply elem_of_elements, list_elem_of_In in H.
    specialize (Hall _ H). unfold safe_id_roundtrip in Hall.
    now apply bool_decide_eq_true in Hall.
  - vm_compute. repeat split.
Qed.

(** X13: [getFaceIdByName] gives a number exactly for the names that
    [QQ_FACE_MAP] gives to a safe id, and then the lowest such id; it gives
    [undefined] exactly for the names that no safe id bears and that are
    not members of [Object.prototype]. *)
Theorem getFaceIdByName_lowest_safe_id (name : jsstring) :
  (forall id,
     getFaceIdByName name = VNum id
     <-> safe_has (Num id) = true
         /\ QQ_FACE_MAP_get (Num id) = Some name
         /\ forall id', safe_has (Num id') = true ->
                        QQ_FACE_MAP_get (Num id') = Some name -> id <= id')
  /\ (getFaceIdByName name = VUndefined
      <-> in_prototype name = false
          /\ forall id, safe_has (Num id) = true ->
                        QQ_FACE_MAP_get (Num id) <> Some name).
Proof.
  unfold getFaceIdByName, obj_get. split.
  - intros id. split.
    + intros H. destruct (QQ_FACE_NAME_TO_ID !! name) as [id0|] eqn:E;
        [|destruct (in_prototype name); discriminate].
      inversion H; subst id0. now apply name_to_id_sound.
    + intros (Hs & Hn & Hmin).
      destruct (name_to_id_complete id name Hs Hn) as [id0 E]. rewrite E.
      destruct (name_to_id_sound name id0 E) as (Hs0 & Hn0 & Hmin0).
      pose proof (Hmin id0 Hs0 Hn0). pose proof (Hmin0 id Hs Hn).
      f_equal. lia.
  - split.
    + intros H. destruct (QQ_FACE_NAME_TO_ID !! name) as [id0|] eqn:E;
        [discriminate|].
      destruct (in_prototype name); [discriminate|]. split; [reflexivity|].
      intros id Hs Hn. destruct (name_to_id_complete id name Hs Hn) as [id0 E0].
      congruence.
    + intros [Hp Hnone].
      destruct (QQ_FACE_NAME_TO_ID !! name) as [id0|] eqn:E.
      * destruct (name_to_id_sound name id0 E) as (Hs0 & Hn0 & _).
        now destruct (Hnone id0 Hs0).
      * now rewrite Hp.
Qed.

(** ** Where replies go *)

Lemma adds_only_ret {A} (P : ApiCall -> Prop) (a : A) : adds_only P (ret a).
Proof. intros tr. exists []. now rewrite app_nil_r. Qed.

Lemma adds_only_throw {A} (P : ApiCall -> Prop) (e : Error) :
  adds_only P (@throw A e).
Proof. intros tr. exists []. now rewrite app_nil_r. Qed.

Lemma adds_only_bind {A B} (P : ApiCall -> Prop) (m : IO A) (k : A -> IO B) :
  adds_only P m -> (forall a, adds_only P (k a)) -> adds_only P (bind m k).
Proof.
  intros Hm Hk tr. destruct (Hm tr) as (calls & E & HP). unfold bind.
  destruct (m tr) as [[a|e] tr1]; cbn [snd] in E; subst tr1.
  - destruct (Hk a (tr ++ calls)) as (calls2 & E2 & HP2).
    exists (calls ++ calls2). rewrite E2, app_assoc.
    split; [reflexivity|]. apply Forall_app. now split.
  - now exists calls.
Qed.

Lemma adds_only_try_catch {A} (P : ApiCall -> Prop) (m : IO A)
    (h : Error -> IO A) :
  adds_only P m -> (forall e, adds_only P (h e)) -> adds_only P (try_catch m h).
Proof.
  intros Hm Hh tr. destruct (Hm tr) as (calls & E & HP). unfold try_catch.
  destruct (m tr) as [[a|e] tr1]; cbn [snd] in E; subst tr1.
  - now exists calls.
  - destruct (Hh e (tr ++ calls)) as (calls2 & E2 & HP2).
    exists (calls ++ calls2). rewrite E2, app_assoc.
    split; [reflexivity|]. apply Forall_app. now split.
Qed.

Lemma message_call_addressed (config : OneBotConfig) (target : SendParams)
    (segments : list OneBotMessage) (c : ApiCall) :
  message_call config target segments = Some c -> addressed_to config target c.
Proof.
  unfold message_call, addressed_to, truthy_id.
  destruct (messageType target).
  - destruct (userId target) as [uid|]; [|discriminate].
    destruct (Z.eqb_spec uid 0) as [|Hz]; [discriminate|].
    intros H. inversion H. unfold request.
    cbn [call_url call_authorization call_params]. auto.
  - destruct (groupId target) as [gid|]; [|discriminate].
    destruct (Z.eqb_spec gid 0) as [|Hz]; [discriminate|].
    intros H. inversion H. unfold request.
    cbn [call_url call_authorization call_params]. auto.
Qed.

Lemma adds_only_sendMsg (gw : Gateway) (config : OneBotConfig)
    (target : SendParams) (message : MessageArg) :
  adds_only (addressed_to config target) (sendMsg gw config target message).
Proof.
  intros tr. rewrite sendMsg_run.
  destruct (message_call config target (as_segments message)) as [c|] eqn:E.
  - exists [c]. split; [reflexivity|].
    constructor; [|constructor]. eapply message_call_addressed, E.
  - exists []. now rewrite app_nil_r.
Qed.

Lemma adds_only_deliverMedia (host : Host) (config : OneBotConfig)
    (target : SendParams) (mediaUrl : jsstring) (caption : option jsstring) :
  adds_only (addressed_to config target)
    (deliverMediaToOneBot host config target mediaUrl caption).
Proof.
  unfold deliverMediaToOneBot.
  destruct (if isLocalFilePath mediaUrl then _ else _) as [file|];
    [|apply adds_only_ret].
  apply adds_only_try_catch; [|intros; apply adds_only_ret].
  apply adds_only_bind; [|intros; apply adds_only_ret].
  destruct (detectMediaKind host mediaUrl);
    try apply adds_only_sendMsg.
  apply adds_only_bind; [apply adds_only_sendMsg|]. intros result.
  destruct (truthy_opt caption && status_ok result); [|apply adds_only_ret].
  apply adds_only_bind; [apply adds_only_sendMsg|intros; apply adds_only_ret].
Qed.

Lemma adds_only_media_loop (host : Host) (config : OneBotConfig)
    (target : SendParams) (text : option jsstring) (urls : list jsstring) :
  forall i,
    adds_only (addressed_to config target)
      (deliver_media_loop host config target text i urls).
Proof.
  induction urls as [|mediaUrl rest IH]; intros i; cbn [deliver_media_loop].
  - apply adds_only_ret.
  - destruct (truthy_str mediaUrl); [|apply IH].
    apply adds_only_bind; [apply adds_only_deliverMedia|intros; apply IH].
Qed.

Lemma adds_only_deliver_text (host : Host) (config : OneBotConfig)
    (target : SendParams) (text : jsstring) :
  adds_only (addressed_to config target) (deliver_text host config target text).
Proof.
  unfold deliver_text.
  apply adds_only_try_catch; [|intros; apply adds_only_ret].
  apply adds_only_bind; [apply adds_only_sendMsg|]. intros result.
  apply adds_only_bind; [|intros; apply adds_only_ret].
  destruct (negb (status_ok result) && hasEmojiCode text);
    [apply adds_only_sendMsg|apply adds_only_ret].
Qed.

Lemma adds_only_deliver (host : Host) (config : OneBotConfig)
    (target : SendParams) (payload : ReplyPayload) :
  adds_only (addressed_to config target) (deliver host config target payload).
Proof.
  unfold deliver. fold (payload_media payload).
  set (text := match payload_text payload with
               | Some t => Some (trim t) | None => None end).
  set (urls := payload_media payload).
  destruct (negb (truthy_opt text) && negb (negb (bool_decide (urls = []))));
    [apply adds_only_ret|].
  match goal with
  | |- adds_only _ (match ?v with Some _ => _ | None => ?g end) =>
    assert (Hg : adds_only (addressed_to config target) g);
      [|destruct v as [firstMedia|]]
  end.
  - apply adds_only_bind.
    + destruct (negb (bool_decide (urls = [])));
        [apply adds_only_media_loop|apply adds_only_ret].
    + intros _.
      destruct (negb (bool_decide (urls = [])) && truthy_opt text);
        [apply adds_only_ret|].
      destruct (truthy_opt text);
        [apply adds_only_deliver_text|apply adds_only_ret].
  - intros tr.
    destruct (adds_only_deliverMedia host config target firstMedia None tr)
      as (calls & E & HP).
    destruct (deliverMediaToOneBot host config target firstMedia None tr)
      as [[b|e] tr1]; cbn [snd] in E; subst tr1.
    + now exists calls.
    + destruct (Hg (tr ++ calls)) as (calls2 & E2 & HP2).
      exists (calls ++ calls2). rewrite E2, app_assoc.
      split; [reflexivity|]. apply Forall_app. now split.
  - exact Hg.
Qed.

(** The calls of one delivery, all addressed to the target. *)
Lemma deliver_addressed (host : Host) (config : OneBotConfig)
    (target : SendParams) (payload : ReplyPayload) (tr : list ApiCall) :
  exists calls,
    deliver host config target payload tr = (Ok tt, tr ++ calls)
    /\ Forall (addressed_to config target) calls.
Proof.
  destruct (deliver_calls host config target payload tr) as (calls & E & _).
  destruct (adds_only_deliver host config target payload tr)
    as (calls' & E' & HP).
  rewrite E in E'. cbn [snd] in E'. apply app_inv_head in E'. subst calls'.
  now exists calls.
Qed.

(** X14: every call that answers an event goes through the configured
    gateway, with the configured authorisation, to the sender of a private
    event and to the group of a group event; no reply is ever addressed to
    anyone else, whatever the payload and whatever the gateway answers. *)
Theorem replies_go_to_the_sender (host : Host) (config : OneBotConfig)
    (event : OneBotMessageEvent) (payload : ReplyPayload) (tr : list ApiCall) :
  exists calls,
    deliver host config (replyTarget event) payload tr = (Ok tt, tr ++ calls)
    /\ Forall
         (fun c =>
            c = request config (call_params c)
            /\ match message_type event with
               | Private =>
                 exists message,
                   call_params c = send_private_msg (user_id event) message
               | Group =>
                 exists gid message,
                   group_id event = Some gid
                   /\ call_params c = send_group_msg gid message
               end)
         calls.
Proof.
  destruct (deliver_addressed host config (replyTarget event) payload tr)
    as (calls & E & HP).
  exists calls. split; [exact E|].
  eapply Forall_impl; [exact HP|]. clear. intros c (Hu & Ha & Hp).
  split.
  - destruct c as [url auth params]. cbn in *. unfold request. now subst.
  - unfold replyTarget, isGroup in Hp.
    destruct (call_params c) as [uid message|gid message],
      (message_type event); cbn in Hp; destruct Hp as (Ht & Hid & _);
      try discriminate.
    + inversion Hid. now exists message.
    + now exists gid, message.
Qed.

(** X15: a delivery to a target that lacks the id matching its message
    type makes no call and still ends normally: the "Invalid message
    params" error of every send is swallowed. *)
Theorem delivery_without_id_is_silent (host : Host) (config : OneBotConfig)
    (target : SendParams) (payload : ReplyPayload) (tr : list ApiCall) :
  lacks_id target ->
  deliver host config target payload tr = (Ok tt, tr).
Proof.
  intros Hl.
  destruct (deliver_addressed host config target payload tr)
    as (calls & E & HP).
  destruct calls as [|c calls]; [now rewrite app_nil_r in E|].
  inversion HP as [|? ? (_ & _ & Hc) _]; subst. exfalso.
  unfold lacks_id in Hl.
  destruct (call_params c); destruct Hc as (Ht & Hid & Hz);
    rewrite Ht, Hid in Hl; destruct Hl as [Hl|Hl]; congruence.
Qed.

Lemma delivery_without_id_is_silent_witness :
  lacks_id no_id_target
  /\ deliver (posix_host [] gateway_ok) open_config no_id_target
       text_and_image_payload []
     = (Ok tt, []).
Proof.
  assert (Hl : lacks_id no_id_target) by (left; reflexivity).
  split; [exact Hl|].
  apply (delivery_without_id_is_silent (posix_host [] gateway_ok) open_config
           no_id_target text_and_image_payload [] Hl).
Defined.

(** X16: a trailing [/] of the configured URL is removed, one only, and a
    URL that is then empty gives way to the default; the URL of a call is
    the result, a [/] and the action name. *)
Theorem baseUrl_strips_one_slash (config : OneBotConfig) (u : jsstring)
    (params : ApiParams) :
  httpUrl config = Some (u ++ js "/") ->
  baseUrl config = (if truthy_str u then u else js "http://127.0.0.1:3000")
  /\ call_url (request config params)
     = (if truthy_str u then u else js "http://127.0.0.1:3000")
       ++ js "/" ++ action_name params.
Proof.
  intros H.
  assert (Hb : baseUrl config
               = if truthy_str u then u else js "http://127.0.0.1:3000").
  { unfold baseUrl. rewrite H. change (js "/") with [47%N].
    rewrite rev_unit. change (47 =? 47)%N with true. cbv beta iota.
    rewrite rev_involutive. unfold or_str. now destruct u. }
  split; [exact Hb|]. unfold request. cbn [call_url]. now rewrite Hb.
Qed.

Lemma baseUrl_strips_one_slash_witness :
  call_url (request slash_config (send_private_msg 20000 [MsgText (js "hi")]))
  = js "http://10.0.0.5:3000/send_private_msg".
Proof.
  apply (proj2 (baseUrl_strips_one_slash slash_config
                  (js "http://10.0.0.5:3000")
                  (send_private_msg 20000 [MsgText (js "hi")]) eq_refl)).
Defined.

(** ** Local and remote references *)

(** X17: an [http(s)] URL and a protocol-relative reference are not local
    and are sent as they are; a drive-letter path is local in its three
    spellings, which are all sent in the same form. *)
Theorem local_and_remote_references (host : Host) (url : jsstring) :
  (startsWith url (js "http://") = true
   \/ startsWith url (js "https://") = true
   \/ startsWith url (js "//") = true ->
   isLocalFilePath url = false /\ sent_form host url = Some url)
  /\ (isWindowsDrivePath url = true ->
      isLocalFilePath url = true
      /\ isLocalFilePath (js "file:///" ++ url) = true
      /\ isLocalFilePath (js "file://" ++ url) = true
      /\ sent_form host (js "file:///" ++ url) = sent_form host url
      /\ sent_form host (js "file://" ++ url) = sent_form host url).
Proof.
  split.
  - intros H.
    assert (Hl : isLocalFilePath url = false).
    { unfold startsWith in H.
      destruct H as [H|[H|H]];
        match type of H with
        | context [strip_prefix ?p url] =>
          destruct (strip_prefix p url) as [r|] eqn:E; [|discriminate H];
            apply strip_prefix_app in E; subst url;
            first [reflexivity | destruct r; reflexivity]
        end. }
    split; [exact Hl|]. unfold sent_form. now rewrite Hl.
  - intros Hd. destruct (file_uri_of_drive_path host url Hd) as [E3 E2].
    assert (Hl : isLocalFilePath url = true).
    { unfold isLocalFilePath. rewrite Hd.
      now destruct (startsWith url (js "file://")). }
    assert (Hl3 : isLocalFilePath (js "file:///" ++ url) = true) by reflexivity.
    assert (Hl2 : isLocalFilePath (js "file://" ++ url) = true) by reflexivity.
    unfold sent_form. rewrite Hl, Hl3, Hl2. auto.
Qed.

(** ** The webhook *)

(** X18: the webhook hands on private message events only, and only when
    the channel is enabled; the configuration it hands on differs from the
    stored one in [selfId] at most, learned from the event when none is set;
    the event is then skipped as empty or dispatched as a direct chat with
    the sender, never rejected by a group rule. *)
Theorem webhook_processes_private_only (host : Host)
    (stored : option OneBotConfig) (parsed : option OneBotEvent)
    (onebotConfig : OneBotConfig) (outcome : Outcome) :
  handleOneBotWebhook host stored parsed = Processed onebotConfig outcome ->
  exists config0 event,
    stored = Some config0
    /\ parsed = Some (EventMessage event)
    /\ enabled config0 = Some true
    /\ message_type event = Private
    /\ (enabled onebotConfig, httpUrl onebotConfig, accessToken onebotConfig,
        dmPolicy onebotConfig, allowFrom onebotConfig,
        groupPolicy onebotConfig, groups onebotConfig)
       = (enabled config0, httpUrl config0, accessToken config0,
          dmPolicy config0, allowFrom config0, groupPolicy config0,
          groups config0)
    /\ (selfId onebotConfig = selfId config0
        \/ selfId onebotConfig = Some (IdNum (self_id event)))
    /\ outcome = processOneBotMessage host onebotConfig event
    /\ (outcome = Skipped SkipEmptyMessage
        \/ exists ctx,
             outcome = Dispatched ctx
             /\ Chat ctx = ChatDirect
             /\ WasMentioned ctx = None
             /\ To ctx = js "onebot:" ++ js "user:" ++ String_of_Z (user_id event)).
Proof.
  unfold handleOneBotWebhook. intros H.
  destruct stored as [config0|]; [|discriminate].
  destruct (bool_decide (enabled config0 = Some true)) eqn:Een;
    cbn [negb] in H; [|discriminate].
  apply bool_decide_eq_true in Een.
  destruct parsed as [[event|other self]|]; [|discriminate..].
  destruct (message_type event) eqn:Et; [|discriminate].
  exists config0, event.
  split; [reflexivity|]. split; [reflexivity|]. split; [exact Een|].
  split; [exact Et|].
  injection H as Hc Ho. subst onebotConfig outcome.
  split; [|split; [|split; [reflexivity|]]].
  - destruct (match selfId config0 with Some self => truthy_ident self
                                   | None => false end); reflexivity.
  - destruct (match selfId config0 with Some self => truthy_ident self
                                   | None => false end); auto.
  - unfold processOneBotMessage. rewrite (groupGate_private _ _ Et).
    destruct (negb _ && negb _); [now left|right].
    eexists. split; [reflexivity|].
    cbn [Chat WasMentioned To buildContext]. unfold isGroup. rewrite Et.
    auto.
Qed.

Lemma webhook_processes_private_only_witness :
  exists config0 event,
    Some slash_config = Some config0
    /\ Some (EventMessage private_hello) = Some (EventMessage event)
    /\ selfId (match handleOneBotWebhook (posix_host [] gateway_ok)
                       (Some slash_config) (Some (EventMessage private_hello))
               with Processed c _ => c | _ => slash_config end)
       = Some (IdNum (self_id event)).
Proof.
  destruct (webhook_processes_private_only (posix_host [] gateway_ok)
              (Some slash_config) (Some (EventMessage private_hello))
              _ _ eq_refl)
    as (config0 & event & E1 & E2 & _).
  exists config0, event. split; [exact E1|]. split; [exact E2|].
  inversion E2. reflexivity.
Defined.

(** ** Channel plugin: targets *)

Lemma trim_clean (c d : N) (r r' : jsstring) :
  isWhiteSpace c = false -> isWhiteSpace d = false ->
  c :: r = r' ++ [d] -> trim (c :: r) = c :: r.
Proof.
  intros Hc Hd E. unfold trim, trimStart, trimEnd.
  cbn [dropWhile]. rewrite Hc, E, rev_unit. cbn [dropWhile]. rewrite Hd.
  change (d :: rev r') with (rev [d] ++ rev r').
  now rewrite <- rev_app_distr, rev_involutive.
Qed.

Lemma digits_last (ds : jsstring) :
  ds <> [] -> Forall (fun c => isDigit c = true) ds ->
  exists ds' d, ds = ds' ++ [d] /\ isDigit d = true.
Proof.
  intros Hne Hd. destruct (exists_last Hne) as (ds' & d & ->).
  exists ds', d. split; [reflexivity|].
  apply Forall_app in Hd as [_ Hd]. now inversion Hd.
Qed.

Lemma all_digits_Forall (ds : jsstring) :
  ds <> [] -> Forall (fun c => isDigit c = true) ds -> all_digits ds = true.
Proof.
  intros Hne Hd. destruct ds as [|c r]; [now destruct Hne|].
  unfold all_digits. apply forallb_forall. intros x Hx.
  rewrite List.Forall_forall in Hd. now apply Hd.
Qed.

(** A prefixed id as the adapter writes it: trimming leaves it as it is. *)
Lemma trim_prefixed (p0 : N) (p ds : jsstring) :
  isWhiteSpace p0 = false ->
  ds <> [] -> Forall (fun c => isDigit c = true) ds ->
  trim ((p0 :: p) ++ ds) = (p0 :: p) ++ ds.
Proof.
  intros Hp Hne Hd. destruct (digits_last ds Hne Hd) as (ds' & d & -> & Hdd).
  apply (trim_clean p0 d (p ++ ds' ++ [d]) (p0 :: p ++ ds'));
    [exact Hp|now apply digit_not_space|].
  cbn [app]. now rewrite <- app_assoc.
Qed.

Lemma trim_digits (ds : jsstring) :
  ds <> [] -> Forall (fun c => isDigit c = true) ds -> trim ds = ds.
Proof.
  intros Hne Hd. destruct (digits_last ds Hne Hd) as (ds' & d & E & Hdd).
  destruct ds as [|c r]; [now destruct Hne|].
  inversion Hd as [|? ? Hc _]; subst.
  apply (trim_clean c d r ds'); [now apply digit_not_space| |exact E].
  now apply digit_not_space.
Qed.

Lemma digits_not_prefixed (ds : jsstring) :
  Forall (fun c => isDigit c = true) ds ->
  strip_prefix (js "group:") ds = None /\ strip_prefix (js "user:") ds = None.
Proof.
  intros Hd. destruct ds as [|c r]; [split; reflexivity|].
  inversion Hd as [|? ? Hc _]; subst. unfold isDigit in Hc.
  apply andb_prop in Hc as [H1 H2]. apply N.leb_le in H1, H2.
  split.
  - change (js "group:") with (103%N :: js "roup:"). cbn [strip_prefix].
    destruct (N.eqb_spec 103 c); [lia|reflexivity].
  - change (js "user:") with (117%N :: js "ser:"). cbn [strip_prefix].
    destruct (N.eqb_spec 117 c); [lia|reflexivity].
Qed.

(** What [sendText] does once the target names a chat with a positive id. *)
Lemma sendText_to (gw : Gateway) (config : OneBotConfig)
    (target : SendParams) (c : ApiCall) (text : jsstring) (tr : list ApiCall) :
  message_call config target [MsgText text] = Some c ->
  snd (send_outcome (sendMsg gw config target (TextArg text) tr)) = tr ++ [c].
Proof.
  intros H. rewrite sendMsg_run. cbn [as_segments]. rewrite H.
  destruct (gw tr c) as [r|]; cbn [send_outcome]; [|reflexivity].
  destruct (status_ok r); reflexivity.
Qed.

Lemma sendText_user (gw : Gateway) (config : OneBotConfig) (n : Z)
    (text : jsstring) (tr : list ApiCall) :
  truthy_opt (httpUrl config) = true -> 0 <= n ->
  sendText gw (Some config) (Some (js "user:" ++ String_of_Z n)) text tr
  = send_outcome
      (sendMsg gw config
         {| messageType := Private; userId := Some n; groupId := None |}
         (TextArg text) tr).
Proof.
  intros Hu Hn. destruct (String_of_Z_digits n Hn) as [Hne Hd].
  unfold sendText. rewrite Hu. cbn [negb].
  change (js "user:") with (117%N :: js "ser:").
  rewrite (trim_prefixed 117 (js "ser:") _ eq_refl Hne Hd).
  change (groupMatch ((117%N :: js "ser:") ++ String_of_Z n))
    with (@None jsstring).
  change (userMatch ((117%N :: js "ser:") ++ String_of_Z n))
    with (if all_digits (String_of_Z n) then Some (String_of_Z n) else None).
  rewrite (all_digits_Forall _ Hne Hd), parseInt10_String_of_Z. reflexivity.
Qed.

Lemma sendText_group (gw : Gateway) (config : OneBotConfig) (n : Z)
    (text : jsstring) (tr : list ApiCall) :
  truthy_opt (httpUrl config) = true -> 0 <= n ->
  sendText gw (Some config) (Some (js "group:" ++ String_of_Z n)) text tr
  = send_outcome
      (sendMsg gw config
         {| messageType := Group; userId := None; groupId := Some n |}
         (TextArg text) tr).
Proof.
  intros Hu Hn. destruct (String_of_Z_digits n Hn) as [Hne Hd].
  unfold sendText. rewrite Hu. cbn [negb].
  change (js "group:") with (103%N :: js "roup:").
  rewrite (trim_prefixed 103 (js "roup:") _ eq_refl Hne Hd).
  change (groupMatch ((103%N :: js "roup:") ++ String_of_Z n))
    with (if all_digits (String_of_Z n) then Some (String_of_Z n) else None).
  rewrite (all_digits_Forall _ Hne Hd), parseInt10_String_of_Z. reflexivity.
Qed.

Lemma sendText_bare (gw : Gateway) (config : OneBotConfig) (n : Z)
    (text : jsstring) (tr : list ApiCall) :
  truthy_opt (httpUrl config) = true -> 0 <= n ->
  sendText gw (Some config) (Some (String_of_Z n)) text tr
  = send_outcome
      (sendMsg gw config
         {| messageType := Private; userId := Some n; groupId := None |}
         (TextArg text) tr).
Proof.
  intros Hu Hn. destruct (String_of_Z_digits n Hn) as [Hne Hd].
  unfold sendText. rewrite Hu. cbn [negb].
  rewrite (trim_digits _ Hne Hd).
  destruct (digits_not_prefixed _ Hd) as [Hg Hus].
  unfold groupMatch, userMatch. rewrite Hg, Hus.
  rewrite (all_digits_Forall _ Hne Hd), parseInt10_String_of_Z. reflexivity.
Qed.

Lemma dispatched_To (host : Host) (onebotConfig : OneBotConfig)
    (event : OneBotMessageEvent) (ctx : InboundContext) :
  processOneBotMessage host onebotConfig event = Dispatched ctx ->
  To ctx
  = js "onebot:"
    ++ match message_type event with
       | Group => js "group:" ++ String_of_optZ (group_id event)
       | Private => js "user:" ++ String_of_Z (user_id event)
       end.
Proof.
  unfold processOneBotMessage. intros H.
  destruct (negb _ && negb _); [discriminate|].
  destruct (groupGate onebotConfig event); [discriminate|].
  inversion H. cbn [To buildContext]. unfold isGroup.
  now destruct (message_type event).
Qed.

(** X19: the address that inbound processing writes into the context of a
    dispatched event is one that the channel plugin understands: once
    normalised it looks like an id, and [sendText] to it makes exactly one
    call, the very call that a reply to the event makes, addressed to the
    sender of a private event and to the group of a group event. *)
Theorem sendText_reaches_the_dispatched_chat (host : Host)
    (onebotConfig : OneBotConfig) (event : OneBotMessageEvent)
    (ctx : InboundContext) (text : jsstring) (tr : list ApiCall) :
  truthy_opt (httpUrl onebotConfig) = true ->
  positive_chat_id event ->
  processOneBotMessage host onebotConfig event = Dispatched ctx ->
  looksLikeId (To ctx) (Some (normalizeTarget (To ctx))) = true
  /\ exists c,
       message_call onebotConfig (replyTarget event) [MsgText text] = Some c
       /\ snd (sendText (gateway host) (Some onebotConfig)
                 (Some (normalizeTarget (To ctx))) text tr)
          = tr ++ [c].
Proof.
  intros Hu Hpos Hd. rewrite (dispatched_To _ _ _ _ Hd).
  unfold positive_chat_id in Hpos. unfold replyTarget, isGroup.
  destruct (message_type event).
  - assert (Hn : 0 <= user_id event) by lia.
    destruct (String_of_Z_digits _ Hn) as [Hne Hds].
    change (normalizeTarget (js "onebot:" ++ js "user:" ++ String_of_Z (user_id event)))
      with (js "user:" ++ String_of_Z (user_id event)).
    split.
    + unfold looksLikeId, or_str.
      change (truthy_str (js "user:" ++ String_of_Z (user_id event))) with true.
      cbv beta iota.
      change (prefixed_digits (js "user:" ++ String_of_Z (user_id event)))
        with (all_digits (String_of_Z (user_id event))).
      rewrite (all_digits_Forall _ Hne Hds). apply orb_true_r.
    + rewrite (sendText_user _ _ _ _ _ Hu Hn).
      unfold message_call, truthy_id. cbn [messageType userId].
      destruct (Z.eqb_spec (user_id event) 0) as [E|_]; [lia|].
      eexists. split; [reflexivity|].
      apply sendText_to. unfold message_call, truthy_id. cbn [messageType userId].
      destruct (Z.eqb_spec (user_id event) 0) as [E|_]; [lia|reflexivity].
  - destruct Hpos as (gid & Hg & Hpos). rewrite Hg. cbn [String_of_optZ].
    assert (Hn : 0 <= gid) by lia.
    destruct (String_of_Z_digits _ Hn) as [Hne Hds].
    change (normalizeTarget (js "onebot:" ++ js "group:" ++ String_of_Z gid))
      with (js "group:" ++ String_of_Z gid).
    split.
    + unfold looksLikeId, or_str.
      change (truthy_str (js "group:" ++ String_of_Z gid)) with true.
      cbv beta iota.
      change (prefixed_digits (js "group:" ++ String_of_Z gid))
        with (all_digits (String_of_Z gid)).
      rewrite (all_digits_Forall _ Hne Hds). apply orb_true_r.
    + rewrite (sendText_group _ _ _ _ _ Hu Hn).
      unfold message_call, truthy_id. cbn [messageType groupId].
      destruct (Z.eqb_spec gid 0) as [E|_]; [lia|].
      eexists. split; [reflexivity|].
      apply sendText_to. unfold message_call, truthy_id. cbn [messageType groupId].
      destruct (Z.eqb_spec gid 0) as [E|_]; [lia|reflexivity].
Qed.

Lemma sendText_reaches_the_dispatched_chat_witness :
  positive_chat_id private_hello
  /\ snd (sendText gateway_ok (Some open_config) (Some (js "user:20000"))
            (js "pong") [])
     = [request open_config (send_private_msg 20000 [MsgText (js "pong")])].
Proof.
  assert (Hpos : positive_chat_id private_hello) by (vm_compute; reflexivity).
  split; [exact Hpos|].
  destruct (sendText_reaches_the_dispatched_chat (posix_host [] gateway_ok)
              open_config private_hello _ (js "pong") [] eq_refl Hpos eq_refl)
    as (_ & c & Hc & Hs).
  vm_compute in Hc. inversion Hc; subst c. vm_compute in Hs. vm_compute.
  exact Hs.
Defined.

(** X20: how [sendText] reads a target: a bare number is a user id, the
    same as with the [user:] prefix; the id [0] looks like an id and is
    refused by the send itself, without any call; a target still carrying
    the channel prefix, or an absent one, is refused as ill-formed; and
    without a configured URL nothing is sent. *)
Theorem sendText_target_forms (gw : Gateway) (onebotConfig : OneBotConfig)
    (text : jsstring) (tr : list ApiCall) :
  truthy_opt (httpUrl onebotConfig) = true ->
  (forall n, 0 <= n ->
     sendText gw (Some onebotConfig) (Some (String_of_Z n)) text tr
     = sendText gw (Some onebotConfig) (Some (js "user:" ++ String_of_Z n))
         text tr)
  /\ (forall prefix, prefix = js "group:" \/ prefix = js "user:" \/ prefix = [] ->
        looksLikeId (prefix ++ js "0") None = true
        /\ sendText gw (Some onebotConfig) (Some (prefix ++ js "0")) text tr
           = (Thrown InvalidMessageParams, tr))
  /\ sendText gw (Some onebotConfig) (Some (js "onebot:user:42")) text tr
     = (InvalidTargetFormat (js "onebot:user:42"), tr)
  /\ sendText gw (Some onebotConfig) None text tr
     = (InvalidTargetFormat [], tr)
  /\ (forall to, sendText gw None to text tr = (NotConfigured, tr)).
Proof.
  intros Hu. split; [|split; [|split; [|split]]].
  - intros n Hn. now rewrite sendText_bare, sendText_user.
  - intros prefix Hp. split.
    + destruct Hp as [-> | [-> | ->] ]; reflexivity.
    + change (js "0") with (String_of_Z 0).
      destruct Hp as [-> | [-> | ->] ];
        [rewrite sendText_group by (assumption || lia)
        |rewrite sendText_user by (assumption || lia)
        |cbn [app]; rewrite sendText_bare by (assumption || lia)];
        rewrite sendMsg_run; reflexivity.
  - unfold sendText. rewrite Hu. reflexivity.
  - unfold sendText. rewrite Hu. reflexivity.
  - reflexivity.
Qed.

Lemma sendText_target_forms_witness :
  looksLikeId (js "group:0") None = true
  /\ sendText gateway_ok (Some open_config) (Some (js "group:0")) (js "pong") []
     = (Thrown InvalidMessageParams, []).
Proof.
  apply (proj1 (proj2 (sendText_target_forms gateway_ok open_config (js "pong")
                         [] eq_refl))
           (js "group:")).
  left. reflexivity.
Defined.

(** ** Channel plugin: the mention requirement *)

Lemma prototype_member_head (k : jsstring) :
  in_prototype k = true ->
  match k with
  | c :: _ => isDigit c = false /\ c <> 45%N /\ c <> 117%N
  | [] => False
  end.
Proof.
  unfold in_prototype. intros H. apply bool_decide_eq_true in H.
  unfold Object_prototype_members in H.
  repeat (apply elem_of_cons in H as [->|H]; [repeat split; discriminate|]).
  now apply elem_of_nil in H.
Qed.

Lemma String_of_optZ_not_member (gid : option Z) :
  in_prototype (String_of_optZ gid) = false.
Proof.
  destruct (in_prototype (String_of_optZ gid)) eqn:E; [|reflexivity].
  apply prototype_member_head in E. exfalso.
  destruct gid as [n|]; cbn [String_of_optZ] in E.
  - destruct n as [|p|p].
    + destruct E as [E _]. discriminate E.
    + unfold String_of_Z in E. cbn [Z.to_int NilZero.string_of_int] in E.
      destruct (js_string_of_pos p) as (Ej & Hne & _). rewrite Ej in E.
      pose proof (uint_codes_digits (Pos.to_uint p)) as Hd.
      destruct (uint_codes (Pos.to_uint p)) as [|c r]; [exact E|].
      inversion Hd as [|? ? Hc _]; subst. destruct E as [E _]. congruence.
    + unfold String_of_Z in E. cbn [Z.to_int NilZero.string_of_int] in E.
      rewrite js_ascii_cons in E by (vm_compute; reflexivity).
      destruct E as (_ & E & _). now apply E.
  - destruct E as (_ & _ & E). now apply E.
Qed.

(** X21: the plugin and the inbound gate agree on the mention requirement
    of a group: [resolveRequireMention] gives the flag of the entry of the
    group, else of the wildcard entry, else [true], which is the flag that
    the gate applies; so a group event for which it holds and which does
    not mention the bot is never dispatched. *)
Theorem resolveRequireMention_agrees_with_gate (host : Host)
    (onebotConfig : OneBotConfig) (event : OneBotMessageEvent) :
  message_type event = Group ->
  resolveRequireMention (Some onebotConfig) (String_of_optZ (group_id event))
  = default true
      (effectiveGroupConfig onebotConfig (group_id event) ≫= requireMention)
  /\ (resolveRequireMention (Some onebotConfig)
        (String_of_optZ (group_id event)) = true ->
      wasMentioned onebotConfig event = false ->
      forall ctx, processOneBotMessage host onebotConfig event <> Dispatched ctx).
Proof.
  intros Hg.
  assert (E : resolveRequireMention (Some onebotConfig)
                (String_of_optZ (group_id event))
              = default true
                  (effectiveGroupConfig onebotConfig (group_id event)
                     ≫= requireMention)).
  { unfold resolveRequireMention, effectiveGroupConfig. cbn [mbind option_bind].
    destruct (groups onebotConfig) as [gs|]; [|reflexivity].
    destruct (gs !! String_of_optZ (group_id event)) as [g|]; [reflexivity|].
    rewrite String_of_optZ_not_member.
    destruct (gs !! js "*"); reflexivity. }
  split; [exact E|]. rewrite E. intros Hr Hm ctx H.
  apply dispatched_passes_gate in H.
  apply groupGate_conditions in H as (_ & _ & _ & Hreq); [|exact Hg].
  rewrite (Hreq Hr) in Hm. discriminate.
Qed.

Lemma resolveRequireMention_agrees_with_gate_witness :
  resolveRequireMention (Some wildcard_config)
    (String_of_optZ (group_id group_plain_hello))
  = false.
Proof.
  rewrite (proj1 (resolveRequireMention_agrees_with_gate
                    (posix_host [] gateway_ok) wildcard_config
                    group_plain_hello eq_refl)).
  vm_compute. reflexivity.
Defined.

(** ** The media lists of the context *)

Lemma materialize_step_lengths (host : Host) (st : Materialized)
    (media : ExtractedMedia) :
  let st' := materialize_step host st media in
  exists dp du dt : nat,
    length (mediaPaths st') = (length (mediaPaths st) + dp)%nat
    /\ length (mediaUrls st') = (length (mediaUrls st) + du)%nat
    /\ length (mediaTypes st') = (length (mediaTypes st) + dt)%nat
    /\ (dp <= dt)%nat /\ (du <= dt)%nat /\ (dt <= 1)%nat
    /\ (media_type media <> TRecord -> dp = dt /\ du = dt).
Proof.
  cbv zeta.
  assert (Hsame : exists dp du dt : nat,
    length (mediaPaths st) = (length (mediaPaths st) + dp)%nat
    /\ length (mediaUrls st) = (length (mediaUrls st) + du)%nat
    /\ length (mediaTypes st) = (length (mediaTypes st) + dt)%nat
    /\ (dp <= dt)%nat /\ (du <= dt)%nat /\ (dt <= 1)%nat
    /\ (media_type media <> TRecord -> dp = dt /\ du = dt)).
  { exists 0%nat, 0%nat, 0%nat. repeat split; lia. }
  unfold materialize_step.
  destruct (negb (truthy_str (media_url media))); [exact Hsame|].
  destruct (negb _ && negb _); [exact Hsame|].
  destruct (media_type media) eqn:Et.
  - destruct (startsWith _ _ || startsWith _ _).
    + destruct (downloadImageToTempFile host _); [|exact Hsame].
      exists 1%nat, 1%nat, 1%nat.
      cbn [mediaPaths mediaUrls mediaTypes]. rewrite !length_app.
      cbn [length]. repeat split; lia.
    + destruct (fs_read host _); [|exact Hsame].
      exists 1%nat, 1%nat, 1%nat.
      cbn [mediaPaths mediaUrls mediaTypes]. rewrite !length_app.
      cbn [length]. repeat split; lia.
  - destruct (isWindowsDrivePath _ || startsWith _ _).
    + destruct (match decodeURIComponent host _ with
                | Some _ => _ | None => _ end) as [[filePath fileExists] t].
      destruct (if fileExists then _ else _) as [fileExists' t'].
      destruct fileExists'.
      * exists 1%nat, 0%nat, 1%nat.
        cbn [mediaPaths mediaUrls mediaTypes]. rewrite !length_app.
        cbn [length]. repeat split; try lia; now intros.
      * exists 0%nat, 0%nat, 0%nat.
        cbn [mediaPaths mediaUrls mediaTypes]. repeat split; lia.
    + exists 0%nat, 1%nat, 1%nat.
      cbn [mediaPaths mediaUrls mediaTypes]. rewrite !length_app.
      cbn [length]. repeat split; try lia; now intros.
  - exact Hsame.
  - destruct (startsWith _ _ || startsWith _ _).
    + destruct (downloadFileToTemp host _ _); [|exact Hsame].
      destruct (file_isText _ && truthy_opt _); exact Hsame.
    + destruct (fs_read host _); exact Hsame.
  - destruct (startsWith _ _ || startsWith _ _).
    + destruct (downloadImageToTempFile host _); [|exact Hsame].
      exists 1%nat, 1%nat, 1%nat.
      cbn [mediaPaths mediaUrls mediaTypes]. rewrite !length_app.
      cbn [length]. repeat split; lia.
    + destruct (fs_read host _); [|exact Hsame].
      exists 1%nat, 1%nat, 1%nat.
      cbn [mediaPaths mediaUrls mediaTypes]. rewrite !length_app.
      cbn [length]. repeat split; lia.
Qed.

Lemma materialize_fold_lengths (host : Host) (l : list ExtractedMedia) :
  forall st,
    let m := fold_left (materialize_step host) l st in
    (length (mediaPaths m) - length (mediaPaths st)
     <= length (mediaTypes m) - length (mediaTypes st))%nat
    /\ (length (mediaUrls m) - length (mediaUrls st)
        <= length (mediaTypes m) - length (mediaTypes st))%nat
    /\ (length (mediaTypes m) <= length (mediaTypes st) + length l)%nat
    /\ (length (mediaPaths st) <= length (mediaPaths m))%nat
    /\ (length (mediaUrls st) <= length (mediaUrls m))%nat
    /\ (length (mediaTypes st) <= length (mediaTypes m))%nat
    /\ (Forall (fun media => media_type media <> TRecord) l ->
        aligned st -> aligned m).
Proof.
  induction l as [|media l IH]; intros st; cbn [fold_left length].
  - repeat match goal with |- _ /\ _ => split end; try lia. tauto.
  - destruct (materialize_step_lengths host st media)
      as (dp & du & dt & Hp & Hu & Ht & H1 & H2 & H3 & H4).
    cbv zeta in Hp, Hu, Ht.
    specialize (IH (materialize_step host st media)). cbv zeta in IH.
    destruct IH as (I1 & I2 & I3 & I4 & I5 & I6 & I7).
    repeat match goal with |- _ /\ _ => split end; try lia.
    intros Hall Hal. inversion Hall as [|? ? Hm Hl]; subst.
    apply I7; [exact Hl|]. destruct (H4 Hm). unfold aligned in *. lia.
Qed.

(** X22: every media path and every media URL handed to the agent comes
    with a media type, and there are at most as many types as media items;
    as long as the message holds no voice item the three lists have the
    same length, so that equal positions describe the same item.  A voice
    item breaks the alignment: a local voice file followed by a local
    image gives two paths and one URL, the URL of the image. *)
Theorem media_lists_alignment (host : Host) (l : list ExtractedMedia) :
  let m := materialize host l in
  (length (mediaPaths m) <= length (mediaTypes m))%nat
  /\ (length (mediaUrls m) <= length (mediaTypes m))%nat
  /\ (length (mediaTypes m) <= length l)%nat
  /\ (Forall (fun media => media_type media <> TRecord) l -> aligned m)
  /\ (let m' := materialize (host_with_png gateway_ok)
                  (extractMediaFromMessage (message voice_then_image)) in
      mediaPaths m' = [js "/tmp/reply.png"; js "/tmp/reply.png"]
      /\ mediaUrls m' = [js "data:image/png;base64,iVBORw=="]
      /\ mediaTypes m' = [js "audio/amr"; js "image/png"]).
Proof.
  cbv zeta. unfold materialize.
  destruct (materialize_fold_lengths host l no_media)
    as (H1 & H2 & H3 & _ & _ & _ & H7).
  cbv zeta in *. cbn [no_media mediaPaths mediaUrls mediaTypes length] in *.
  repeat match goal with |- _ /\ _ => split end; try lia.
  - intros Hall. apply (H7 Hall). split; reflexivity.
  - vm_compute. reflexivity.
  - vm_compute. reflexivity.
  - vm_compute. reflexivity.
Qed.
